(** * GameCaster-AI: the live streaming session controller

    A shallow embedding of [src/services/geminiLiveService.ts],
    [src/constants.ts] and the frame streaming effect of the LiveCaster
    component, with the properties the specification states about them.

    Conventions.
    - A JavaScript [number] that holds audio samples is an IEEE 754 binary64
      value, modelled by [spec_float] with [prec = 53] and [emax = 1024].
    - Times on the output timeline ([AudioContext.currentTime],
      [AudioBuffer.duration], [audioQueueNextStartTime]) are counted in sample
      frames of the 24 kHz output context, as integers: the context clock is
      [frames rendered / 24000] and a buffer lasts [length / 24000].
    - Objects of the browser (audio contexts, source nodes, media streams,
      channel sessions) live in stores indexed by their reference; a field of
      the service holds [Some reference] or [None] for [null].
    - An [async] function is cut at its [await]s into the segments that run
      without interruption; the event loop decides what runs in between. *)

From Stdlib Require Import ZArith List String Ascii Bool Lia.
From Stdlib Require Import Floats.SpecFloat.
From stdpp Require Import base option list.

Local Open Scope Z_scope.

(* ====================================================================== *)
(** ** constants.ts *)

Definition HYPE_MODIFIER (level : Z) : string :=
  if level <? 30 then " Keep it calm."%string
  else if level >? 70 then " MAXIMUM VOLUME AND SPEED."%string
  else " Balanced energy."%string.

(* ====================================================================== *)
(** ** Numbers *)

Module Num.

Definition number := spec_float.

Definition prec := 53.
Definition emax := 1024.

Definition of_Z (z : Z) : number := binary_normalize prec emax z 0 false.
Definition mul : number -> number -> number := SFmul prec emax.
Definition lt : number -> number -> bool := SFltb.

Definition is_nan (x : number) : bool :=
  match x with S754_nan => true | _ => false end.
Definition is_pos_zero (x : number) : bool :=
  match x with S754_zero false => true | _ => false end.
Definition is_neg_zero (x : number) : bool :=
  match x with S754_zero true => true | _ => false end.

(** [Math.min(...values)] of ECMAScript: start from [+Infinity]; a [NaN]
    argument makes the result [NaN]; [-0] counts as smaller than [+0]. *)
Definition min_step (lowest : option number) (x : number) : option number :=
  match lowest with
  | None => None
  | Some lo =>
      if is_nan x then None
      else if is_neg_zero x && is_pos_zero lo then Some x
      else if lt x lo then Some x
      else Some lo
  end.

Definition Math_min (values : list number) : number :=
  match fold_left min_step values (Some (S754_infinity false)) with
  | Some lo => lo
  | None => S754_nan
  end.

(** [Math.max(...values)]: start from [-Infinity]; [+0] counts as larger
    than [-0]. *)
Definition max_step (highest : option number) (x : number) : option number :=
  match highest with
  | None => None
  | Some hi =>
      if is_nan x then None
      else if is_pos_zero x && is_neg_zero hi then Some x
      else if lt hi x then Some x
      else Some hi
  end.

Definition Math_max (values : list number) : number :=
  match fold_left max_step values (Some (S754_infinity true)) with
  | Some hi => hi
  | None => S754_nan
  end.

(** The integral part of a number, rounded towards zero; [NaN], the zeros
    and the infinities give 0 (the first steps of [ToInt16]). *)
Definition truncate (x : number) : Z :=
  match x with
  | S754_finite s m e =>
      let a := Z.shiftl (Z.pos m) e in
      if s then - a else a
  | _ => 0
  end.

(** [ToInt16]: what a store into an [Int16Array] keeps of a number. *)
Definition ToInt16 (x : number) : Z :=
  let int16bit := truncate x mod 65536 in
  if int16bit >=? 32768 then int16bit - 65536 else int16bit.

End Num.

(* ====================================================================== *)
(** ** The PCM encoder: [GeminiLiveService.createPcmData] *)

Module Pcm.
Import Num.

(** Byte order of the platform: a [Uint8Array] over the buffer of an
    [Int16Array] shows the bytes in that order. *)
Inductive endianness := LittleEndian | BigEndian.

(** [bytes[i]] for the view [new Uint8Array(int16.buffer)]. *)
Definition buffer_byte (p : endianness) (int16 : list Z) (i : nat) : option Z :=
  match int16 !! (i / 2)%nat with
  | Some v =>
      let w := v mod 65536 in
      let low := Z.land w 255 in
      let high := Z.shiftr w 8 in
      let first := Nat.even i in
      Some match p with
           | LittleEndian => if first then low else high
           | BigEndian => if first then high else low
           end
  | None => None
  end.

Definition fromCharCode (b : Z) : string :=
  String (ascii_of_N (Z.to_N (b mod 65536))) EmptyString.

(** The standard base64 alphabet and [btoa] on a binary string. *)
Definition b64_alphabet : string :=
  "ABCDEFGHIJKLMNOPQRSTUVWXYZabcdefghijklmnopqrstuvwxyz0123456789+/".

Definition b64_digit (n : Z) : ascii :=
  match String.get (Z.to_nat n) b64_alphabet with
  | Some c => c
  | None => "="%char
  end.

Definition code (c : ascii) : Z := Z.of_N (N_of_ascii c).

Fixpoint btoa (binary : string) : string :=
  match binary with
  | EmptyString => EmptyString
  | String a EmptyString =>
      String (b64_digit (Z.shiftr (code a) 2))
        (String (b64_digit (Z.shiftl (Z.land (code a) 3) 4)) "==")
  | String a (String b EmptyString) =>
      String (b64_digit (Z.shiftr (code a) 2))
        (String (b64_digit (Z.lor (Z.shiftl (Z.land (code a) 3) 4) (Z.shiftr (code b) 4)))
           (String (b64_digit (Z.shiftl (Z.land (code b) 15) 2)) "="))
  | String a (String b (String c rest)) =>
      String (b64_digit (Z.shiftr (code a) 2))
        (String (b64_digit (Z.lor (Z.shiftl (Z.land (code a) 3) 4) (Z.shiftr (code b) 4)))
           (String (b64_digit (Z.lor (Z.shiftl (Z.land (code b) 15) 2) (Z.shiftr (code c) 6)))
              (String (b64_digit (Z.land (code c) 63)) (btoa rest))))
  end.

(** The body of the first loop: clamp, scale, store. *)
Definition sample_value (x : number) : number :=
  let s := Math_max [of_Z (-1); Math_min [of_Z 1; x]] in
  if lt s (of_Z 0) then mul s (of_Z 32768) else mul s (of_Z 32767).

(** [for (let i = 0; i < l; i++) { ... int16[i] = ... }], with [n] the
    iterations left. *)
Fixpoint sample_loop (data : list number) (n i : nat) (int16 : list Z) : list Z :=
  match n with
  | O => int16
  | S n' =>
      match data !! i with
      | Some x => sample_loop data n' (S i) (<[i := ToInt16 (sample_value x)]> int16)
      | None => int16
      end
  end.

(** [for (let i = 0; i < len; i++) binary += String.fromCharCode(bytes[i])]. *)
Fixpoint binary_loop (p : endianness) (int16 : list Z) (n i : nat) (binary : string) : string :=
  match n with
  | O => binary
  | S n' =>
      match buffer_byte p int16 i with
      | Some b => binary_loop p int16 n' (S i) (binary ++ fromCharCode b)
      | None => binary
      end
  end.

Definition createPcmData (p : endianness) (data : list number) : string :=
  let l := length data in
  let int16 := sample_loop data l 0%nat (replicate l 0) in
  let len := (2 * length int16)%nat in
  btoa (binary_loop p int16 len 0%nat EmptyString).

(** The encoder as the specification words it: clamp to [-1, 1], scale
    negative values by 32768 and the others by 32767, keep a signed 16-bit
    integer, lay each one out low byte first, encode in base64. *)
Definition spec_clamp (x : number) : number :=
  if lt x (of_Z (-1)) then of_Z (-1)
  else if lt (of_Z 1) x then of_Z 1
  else x.

Definition spec_sample (x : number) : Z :=
  let s := spec_clamp x in
  ToInt16 (if lt s (of_Z 0) then mul s (of_Z 32768) else mul s (of_Z 32767)).

Definition spec_pair (v : Z) : string :=
  let w := v mod 65536 in
  String (ascii_of_N (Z.to_N (w mod 256)))
    (String (ascii_of_N (Z.to_N (w / 256))) EmptyString).

Fixpoint spec_bytes (vs : list Z) : string :=
  match vs with
  | [] => EmptyString
  | v :: vs' => spec_pair v ++ spec_bytes vs'
  end.

Definition spec_encode (data : list number) : string :=
  btoa (spec_bytes (map spec_sample data)).

(** The exact product of a sample and its scale factor, rounded towards
    zero: the value [m * 2 ^ e] times 32768 or 32767. *)
Definition scaled (x : number) : Z :=
  match x with
  | S754_finite s m e =>
      if s then - (Z.pos m * 32768 / 2 ^ (- e)) else Z.pos m * 32767 / 2 ^ (- e)
  | _ => 0
  end.

(** The numbers between -1 and 1 whose mantissa fits in 24 bits, which is
    what an element of a [Float32Array] in that range is: a zero, or a normal
    binary64 number with the 29 low bits of its mantissa clear. *)
Definition short_sample (x : number) : bool :=
  match x with
  | S754_zero _ => true
  | S754_finite _ m e =>
      (Z.pos (digits2_pos m) =? 53) && (Z.pos m mod 2 ^ 29 =? 0) && (-1074 <=? e) &&
      ((e <=? -53) || ((Z.pos m =? 4503599627370496) && (e =? -52)))
  | _ => false
  end.

End Pcm.

(* ====================================================================== *)
(** ** Browser objects and the fields of [GeminiLiveService] *)

Module Live.

(** An [AudioBuffer]: its length in frames. *)
Record AudioBuffer := { buf_length : N }.

Definition duration (b : AudioBuffer) : Z := Z.of_N (buf_length b).

Inductive ContextState := suspended | running | closed.

Record AudioContext := {
  sampleRate : Z;
  currentTime : Z;
  state : ContextState
}.

(** An [AudioBufferSourceNode]: [startedAt] is the argument of [start],
    [stopped] records a call of [stop] that found it playing or scheduled,
    [ended] that the browser fired [onended]. *)
Record SourceNode := {
  buffer : AudioBuffer;
  output : option nat;
  startedAt : option Z;
  stopped : bool;
  ended : bool
}.

Record GainNode := { gain : Z }.

(** A [MediaStream]: for each track, whether it is live. *)
Record MediaStream := { tracks : list bool }.

(** The channel session the SDK hands out. *)
Record Session := { isOpen : bool }.

Record Error := { message : string }.

(** Which callbacks the owner of the service passed in. *)
Record LiveServiceCallbacks := {
  onOpen : bool;
  onClose : bool;
  onError : bool;
  onAudioData : bool;
  onInputAudioData : bool;
  onSubtitle : bool;
  onResponse : bool;
  onLog : bool
}.

(** What the service does to the outside, in order. *)
Inductive Effect :=
| console_log (line : string)
| console_error (line : string)
| call_onLog (msg : string)
| call_onOpen
| call_onClose
| call_onError (e : Error)
| call_onAudioData (analyser : nat)
| call_onInputAudioData (analyser : nat)
| call_onSubtitle (text : string)
| call_onResponse
| live_connect (systemInstruction : string)
| getUserMedia
| sendRealtimeInput (session : nat) (mimeType data : string)
| requestAnimationFrame.

(** Where an [async] method of the service is suspended. *)
Inductive Task :=
| AwaitLiveConnect
| AwaitGetUserMedia
| AwaitInputClose
| AwaitSessionClose
| AwaitOutputClose.

Record Service := {
  session : option nat;
  audioContext : option nat;
  audioQueueNextStartTime : Z;
  gainNode : option nat;
  analyserNode : option nat;
  callbacks : LiveServiceCallbacks;
  isConnected : bool;
  activeSources : list nat;
  inputAudioContext : option nat;
  inputMediaStream : option nat;
  inputProcessor : option nat;
  inputSource : option nat;
  inputAnalyser : option nat
}.

(** The objects of the browser. [plainNodes] counts the nodes that carry
    no state of interest (analysers, the script processor, the stream
    source); [nextContext] is what the next [new AudioContext] does. *)
Record Browser := {
  contexts : list AudioContext;
  sources : list SourceNode;
  gains : list GainNode;
  streams : list MediaStream;
  sessions : list Session;
  plainNodes : nat;
  nextContext : Error + ContextState
}.

Record World := {
  this : Service;
  browser : Browser;
  trace : list Effect;
  tasks : list Task
}.

(** *** Field updates *)

Definition set_session v (s : Service) : Service :=
  {| session := v; audioContext := audioContext s;
     audioQueueNextStartTime := audioQueueNextStartTime s;
     gainNode := gainNode s; analyserNode := analyserNode s;
     callbacks := callbacks s; isConnected := isConnected s;
     activeSources := activeSources s;
     inputAudioContext := inputAudioContext s;
     inputMediaStream := inputMediaStream s;
     inputProcessor := inputProcessor s; inputSource := inputSource s;
     inputAnalyser := inputAnalyser s |}.

Definition set_audioContext v (s : Service) : Service :=
  {| session := session s; audioContext := v;
     audioQueueNextStartTime := audioQueueNextStartTime s;
     gainNode := gainNode s; analyserNode := analyserNode s;
     callbacks := callbacks s; isConnected := isConnected s;
     activeSources := activeSources s;
     inputAudioContext := inputAudioContext s;
     inputMediaStream := inputMediaStream s;
     inputProcessor := inputProcessor s; inputSource := inputSource s;
     inputAnalyser := inputAnalyser s |}.

Definition set_audioQueueNextStartTime v (s : Service) : Service :=
  {| session := session s; audioContext := audioContext s;
     audioQueueNextStartTime := v;
     gainNode := gainNode s; analyserNode := analyserNode s;
     callbacks := callbacks s; isConnected := isConnected s;
     activeSources := activeSources s;
     inputAudioContext := inputAudioContext s;
     inputMediaStream := inputMediaStream s;
     inputProcessor := inputProcessor s; inputSource := inputSource s;
     inputAnalyser := inputAnalyser s |}.

Definition set_gainNode v (s : Service) : Service :=
  {| session := session s; audioContext := audioContext s;
     audioQueueNextStartTime := audioQueueNextStartTime s;
     gainNode := v; analyserNode := analyserNode s;
     callbacks := callbacks s; isConnected := isConnected s;
     activeSources := activeSources s;
     inputAudioContext := inputAudioContext s;
     inputMediaStream := inputMediaStream s;
     inputProcessor := inputProcessor s; inputSource := inputSource s;
     inputAnalyser := inputAnalyser s |}.

Definition set_analyserNode v (s : Service) : Service :=
  {| session := session s; audioContext := audioContext s;
     audioQueueNextStartTime := audioQueueNextStartTime s;
     gainNode := gainNode s; analyserNode := v;
     callbacks := callbacks s; isConnected := isConnected s;
     activeSources := activeSources s;
     inputAudioContext := inputAudioContext s;
     inputMediaStream := inputMediaStream s;
     inputProcessor := inputProcessor s; inputSource := inputSource s;
     inputAnalyser := inputAnalyser s |}.

Definition set_isConnected v (s : Service) : Service :=
  {| session := session s; audioContext := audioContext s;
     audioQueueNextStartTime := audioQueueNextStartTime s;
     gainNode := gainNode s; analyserNode := analyserNode s;
     callbacks := callbacks s; isConnected := v;
     activeSources := activeSources s;
     inputAudioContext := inputAudioContext s;
     inputMediaStream := inputMediaStream s;
     inputProcessor := inputProcessor s; inputSource := inputSource s;
     inputAnalyser := inputAnalyser s |}.

Definition set_activeSources v (s : Service) : Service :=
  {| session := session s; audioContext := audioContext s;
     audioQueueNextStartTime := audioQueueNextStartTime s;
     gainNode := gainNode s; analyserNode := analyserNode s;
     callbacks := callbacks s; isConnected := isConnected s;
     activeSources := v;
     inputAudioContext := inputAudioContext s;
     inputMediaStream := inputMediaStream s;
     inputProcessor := inputProcessor s; inputSource := inputSource s;
     inputAnalyser := inputAnalyser s |}.

Definition set_inputAudioContext v (s : Service) : Service :=
  {| session := session s; audioContext := audioContext s;
     audioQueueNextStartTime := audioQueueNextStartTime s;
     gainNode := gainNode s; analyserNode := analyserNode s;
     callbacks := callbacks s; isConnected := isConnected s;
     activeSources := activeSources s;
     inputAudioContext := v;
     inputMediaStream := inputMediaStream s;
     inputProcessor := inputProcessor s; inputSource := inputSource s;
     inputAnalyser := inputAnalyser s |}.

Definition set_inputMediaStream v (s : Service) : Service :=
  {| session := session s; audioContext := audioContext s;
     audioQueueNextStartTime := audioQueueNextStartTime s;
     gainNode := gainNode s; analyserNode := analyserNode s;
     callbacks := callbacks s; isConnected := isConnected s;
     activeSources := activeSources s;
     inputAudioContext := inputAudioContext s;
     inputMediaStream := v;
     inputProcessor := inputProcessor s; inputSource := inputSource s;
     inputAnalyser := inputAnalyser s |}.

(** The three nodes of the input graph are assigned together. *)
Definition set_inputNodes src an pr (s : Service) : Service :=
  {| session := session s; audioContext := audioContext s;
     audioQueueNextStartTime := audioQueueNextStartTime s;
     gainNode := gainNode s; analyserNode := analyserNode s;
     callbacks := callbacks s; isConnected := isConnected s;
     activeSources := activeSources s;
     inputAudioContext := inputAudioContext s;
     inputMediaStream := inputMediaStream s;
     inputProcessor := pr; inputSource := src;
     inputAnalyser := an |}.

Definition set_contexts v (b : Browser) : Browser :=
  {| contexts := v; sources := sources b; gains := gains b;
     streams := streams b; sessions := sessions b;
     plainNodes := plainNodes b; nextContext := nextContext b |}.

Definition set_sources v (b : Browser) : Browser :=
  {| contexts := contexts b; sources := v; gains := gains b;
     streams := streams b; sessions := sessions b;
     plainNodes := plainNodes b; nextContext := nextContext b |}.

Definition set_gains v (b : Browser) : Browser :=
  {| contexts := contexts b; sources := sources b; gains := v;
     streams := streams b; sessions := sessions b;
     plainNodes := plainNodes b; nextContext := nextContext b |}.

Definition set_streams v (b : Browser) : Browser :=
  {| contexts := contexts b; sources := sources b; gains := gains b;
     streams := v; sessions := sessions b;
     plainNodes := plainNodes b; nextContext := nextContext b |}.

Definition set_sessions v (b : Browser) : Browser :=
  {| contexts := contexts b; sources := sources b; gains := gains b;
     streams := streams b; sessions := v;
     plainNodes := plainNodes b; nextContext := nextContext b |}.

Definition set_plainNodes v (b : Browser) : Browser :=
  {| contexts := contexts b; sources := sources b; gains := gains b;
     streams := streams b; sessions := sessions b;
     plainNodes := v; nextContext := nextContext b |}.

Definition set_nextContext v (b : Browser) : Browser :=
  {| contexts := contexts b; sources := sources b; gains := gains b;
     streams := streams b; sessions := sessions b;
     plainNodes := plainNodes b; nextContext := v |}.

Definition with_this (f : Service -> Service) (w : World) : World :=
  {| this := f (this w); browser := browser w;
     trace := trace w; tasks := tasks w |}.

Definition with_browser (f : Browser -> Browser) (w : World) : World :=
  {| this := this w; browser := f (browser w);
     trace := trace w; tasks := tasks w |}.

Definition with_trace (f : list Effect -> list Effect) (w : World) : World :=
  {| this := this w; browser := browser w;
     trace := f (trace w); tasks := tasks w |}.

Definition with_tasks (f : list Task -> list Task) (w : World) : World :=
  {| this := this w; browser := browser w;
     trace := trace w; tasks := f (tasks w) |}.

(** *** Statements: a state and exception monad over the world *)

Inductive Completion (A : Type) :=
| Normal (a : A)
| Throw (e : Error).
Arguments Normal {A} a.
Arguments Throw {A} e.

Definition M (A : Type) : Type := World -> Completion A * World.

Definition ret {A} (a : A) : M A := fun w => (Normal a, w).

Definition bind {A B} (m : M A) (k : A -> M B) : M B :=
  fun w =>
    match m w with
    | (Normal a, w') => k a w'
    | (Throw e, w') => (Throw e, w')
    end.

Definition throw {A} (e : Error) : M A := fun w => (Throw e, w).

(** [try { m } catch (e) { h e }]: what [m] did before it threw stays. *)
Definition try_catch {A} (m : M A) (h : Error -> M A) : M A :=
  fun w =>
    match m w with
    | (Normal a, w') => (Normal a, w')
    | (Throw e, w') => h e w'
    end.

Notation "x <- m ;; k" := (bind m (fun x => k))
  (at level 100, m at next level, right associativity).
Notation "m ;; k" := (bind m (fun _ => k))
  (at level 100, right associativity).

Definition gets {A} (f : Service -> A) : M A := fun w => (Normal (f (this w)), w).
Definition browse {A} (f : Browser -> A) : M A := fun w => (Normal (f (browser w)), w).
Definition assign (f : Service -> Service) : M unit := fun w => (Normal tt, with_this f w).
Definition update (f : Browser -> Browser) : M unit := fun w => (Normal tt, with_browser f w).
Definition emit (e : Effect) : M unit := fun w => (Normal tt, with_trace (fun t => t ++ [e]) w).
Definition suspend (t : Task) : M unit := fun w => (Normal tt, with_tasks (fun ts => ts ++ [t]) w).
Definition lift {A} (r : Error + A) : M A :=
  match r with inl e => throw e | inr a => ret a end.
Definition when (b : bool) (m : M unit) : M unit := if b then m else ret tt.

(** [xs.forEach(f)] *)
Fixpoint forEach {A} (xs : list A) (f : A -> M unit) : M unit :=
  match xs with
  | [] => ret tt
  | x :: xs' => f x ;; forEach xs' f
  end.

(** JavaScript truthiness of an optional string. *)
Definition truthy (o : option string) : bool :=
  match o with
  | Some EmptyString => false
  | Some _ => true
  | None => false
  end.

(** *** What the browser does on the calls the service makes *)

Definition InvalidStateError : Error := {| message := "InvalidStateError" |}.

(** [new AudioContext({ sampleRate })] *)
Definition new_AudioContext (rate : Z) : M nat :=
  next <- browse nextContext ;;
  st <- lift next ;;
  id <- browse (fun b => length (contexts b)) ;;
  update (fun b => set_contexts
    (contexts b ++ [{| sampleRate := rate; currentTime := 0; state := st |}]) b) ;;
  ret id.

Definition context_currentTime (c : nat) : M Z :=
  browse (fun b => default 0 (currentTime <$> contexts b !! c)).

Definition context_state (c : nat) : M ContextState :=
  browse (fun b => default closed (state <$> contexts b !! c)).

Definition set_state (st : ContextState) (c : AudioContext) : AudioContext :=
  {| sampleRate := sampleRate c; currentTime := currentTime c; state := st |}.

(** [ctx.close()]: the context is closed; the promise settles later. *)
Definition context_close (c : nat) : M unit :=
  update (fun b => set_contexts (alter (set_state closed) c (contexts b)) b).

(** [ctx.resume()]: a closed context stays closed. *)
Definition context_resume (c : nat) : M unit :=
  update (fun b => set_contexts
    (alter (fun x => match state x with closed => x | _ => set_state running x end) c
       (contexts b)) b).

Definition createGain (value : Z) : M nat :=
  id <- browse (fun b => length (gains b)) ;;
  update (fun b => set_gains (gains b ++ [{| gain := value |}]) b) ;;
  ret id.

(** [gain.setValueAtTime(v, now)] *)
Definition gain_setValue (g : nat) (v : Z) : M unit :=
  update (fun b => set_gains (<[g := {| gain := v |}]> (gains b)) b).

(** An analyser, the script processor or the stream source. *)
Definition createPlainNode : M nat :=
  id <- browse plainNodes ;;
  update (fun b => set_plainNodes (S (plainNodes b)) b) ;;
  ret id.

(** [source = ctx.createBufferSource(); source.buffer = b; source.connect(g)] *)
Definition createBufferSource (b : AudioBuffer) (g : nat) : M nat :=
  id <- browse (fun br => length (sources br)) ;;
  update (fun br => set_sources
    (sources br ++ [{| buffer := b; output := Some g; startedAt := None;
                       stopped := false; ended := false |}]) br) ;;
  ret id.

(** [source.start(when)] *)
Definition source_start (n : nat) (t : Z) : M unit :=
  update (fun br => set_sources
    (alter (fun nd => {| buffer := buffer nd; output := output nd;
                         startedAt := Some t; stopped := stopped nd;
                         ended := ended nd |}) n (sources br)) br).

Definition mark_stopped (nd : SourceNode) : SourceNode :=
  {| buffer := buffer nd; output := output nd; startedAt := startedAt nd;
     stopped := negb (ended nd) || stopped nd; ended := ended nd |}.

Definition mark_ended (nd : SourceNode) : SourceNode :=
  {| buffer := buffer nd; output := output nd; startedAt := startedAt nd;
     stopped := stopped nd; ended := true |}.

(** [source.stop()]: an error on a node that was never started, nothing
    on one that has already ended. *)
Definition source_stop (n : nat) : M unit :=
  nd <- browse (fun br => sources br !! n) ;;
  match nd with
  | Some node =>
      match startedAt node with
      | Some _ => update (fun br => set_sources (alter mark_stopped n (sources br)) br)
      | None => throw InvalidStateError
      end
  | None => throw InvalidStateError
  end.

(** [stream.getTracks().forEach(t => t.stop())] *)
Definition stream_stopTracks (st : nat) : M unit :=
  update (fun b => set_streams
    (alter (fun m => {| tracks := map (fun _ => false) (tracks m) |}) st (streams b)) b).

(** The stream [getUserMedia({ audio: true })] resolves with. *)
Definition new_MediaStream : M nat :=
  id <- browse (fun b => length (streams b)) ;;
  update (fun b => set_streams (streams b ++ [{| tracks := [true] |}]) b) ;;
  ret id.

(** The session [client.live.connect] resolves with. *)
Definition new_Session : M nat :=
  id <- browse (fun b => length (sessions b)) ;;
  update (fun b => set_sessions (sessions b ++ [{| isOpen := true |}]) b) ;;
  ret id.

(** [session.close()] *)
Definition session_close (sid : nat) : M unit :=
  update (fun b => set_sessions (<[sid := {| isOpen := false |}]> (sessions b)) b).

(** [session.sendRealtimeInput({ media })]; [fault] is the error the
    transport raises on this call, if any. *)
Definition session_send (sid : nat) (mime data : string) (fault : option Error) : M unit :=
  match fault with
  | Some e => throw e
  | None => emit (sendRealtimeInput sid mime data)
  end.

(** *** Inbound messages *)

(** The three parts of a [LiveServerMessage] the service reads:
    [serverContent?.modelTurn?.parts?.[0]?.inlineData?.data],
    [serverContent?.outputTranscription?.text] and
    [serverContent?.interrupted]. *)
Record LiveServerMessage := {
  inlineData : option string;
  outputTranscription : option string;
  interrupted : bool
}.

(** *** The methods of [GeminiLiveService] *)

Section Methods.

(** The two helpers of [utils/audioUtils]; either may throw. The decode
    step of [handleMessage] is taken as one uninterrupted step. *)
Variable decodeBase64 : string -> Error + list Z.
Variable decodeAudioData : list Z -> Error + AudioBuffer.

(** Byte order of the machine the page runs on. *)
Variable platform : Pcm.endianness.

Definition log (msg : string) : M unit :=
  emit (console_log ("[GeminiLive] " ++ msg)) ;;
  cb <- gets callbacks ;;
  when (onLog cb) (emit (call_onLog msg)).

Definition startVisualizer : M unit :=
  connected <- gets isConnected ;;
  analyser <- gets analyserNode ;;
  match connected, analyser with
  | true, Some a =>
      emit requestAnimationFrame ;;
      cb <- gets callbacks ;;
      when (onAudioData cb) (emit (call_onAudioData a))
  | _, _ => ret tt
  end.

(** **** disconnect *)

(** Stop every active source, then empty the list. *)
Definition stopAll : M unit :=
  active <- gets activeSources ;;
  forEach active (fun s => try_catch (source_stop s) (fun _ => ret tt)) ;;
  assign (set_activeSources []).

Definition disconnect_output : M unit :=
  ctx <- gets audioContext ;;
  match ctx with
  | Some c => context_close c ;; suspend AwaitOutputClose
  | None => ret tt
  end.

Definition disconnect_output_settled (r : option Error) : M unit :=
  when (bool_decide (is_Some r)) (emit (console_error "Error closing audio context")) ;;
  assign (set_audioContext None).

Definition disconnect_session : M unit :=
  s <- gets session ;;
  match s with
  | Some _ =>
      log "Closing session..." ;;
      s' <- gets session ;;
      match s' with
      | Some sid => session_close sid ;; suspend AwaitSessionClose
      | None => assign (set_session None) ;; disconnect_output
      end
  | None => disconnect_output
  end.

Definition disconnect_session_settled (r : option Error) : M unit :=
  when (bool_decide (is_Some r)) (emit (console_error "Error closing Live session")) ;;
  assign (set_session None) ;;
  disconnect_output.

Definition disconnect_input : M unit :=
  ctx <- gets inputAudioContext ;;
  match ctx with
  | Some c => context_close c ;; suspend AwaitInputClose
  | None => disconnect_session
  end.

Definition disconnect_input_settled (r : option Error) : M unit :=
  assign (set_inputAudioContext None) ;;
  disconnect_session.

(** [disconnect()] up to its first [await]. *)
Definition disconnect : M unit :=
  assign (set_isConnected false) ;;
  stopAll ;;
  stream <- gets inputMediaStream ;;
  match stream with
  | Some st => stream_stopTracks st ;; assign (set_inputMediaStream None)
  | None => ret tt
  end ;;
  disconnect_input.

(** **** connect and startAudioInput *)

Definition connect_catch (error : Error) : M unit :=
  log ("Connection Failed: " ++ message error) ;;
  cb <- gets callbacks ;;
  when (onError cb) (emit (call_onError error)) ;;
  disconnect.

(** [connect(systemInstruction)] up to [await this.client.live.connect]. *)
Definition connect (systemInstruction : string) : M unit :=
  try_catch
    (log "Initializing Audio Context..." ;;
     ctx <- new_AudioContext 24000 ;;
     assign (set_audioContext (Some ctx)) ;;
     g <- createGain 1 ;;
     assign (set_gainNode (Some g)) ;;
     a <- createPlainNode ;;
     assign (set_analyserNode (Some a)) ;;
     startVisualizer ;;
     log "Connecting to Gemini Live API..." ;;
     emit (live_connect systemInstruction) ;;
     suspend AwaitLiveConnect)
    connect_catch.

(** [startAudioInput()] up to [await getUserMedia]. *)
Definition startAudioInput : M unit :=
  emit getUserMedia ;;
  suspend AwaitGetUserMedia.

Definition connect_settled (r : option Error) : M unit :=
  try_catch
    (match r with
     | Some e => throw e
     | None =>
         sid <- new_Session ;;
         assign (set_session (Some sid)) ;;
         startAudioInput
     end)
    connect_catch.

(** The rest of [startAudioInput], inside its own [try], and then the
    end of [connect]'s [try]. *)
Definition startAudioInput_settled (r : option Error) : M unit :=
  try_catch
    (try_catch
       (match r with
        | Some e => throw e
        | None =>
            st <- new_MediaStream ;;
            assign (set_inputMediaStream (Some st)) ;;
            ctx <- new_AudioContext 16000 ;;
            assign (set_inputAudioContext (Some ctx)) ;;
            src <- createPlainNode ;;
            an <- createPlainNode ;;
            pr <- createPlainNode ;;
            assign (set_inputNodes (Some src) (Some an) (Some pr)) ;;
            cb <- gets callbacks ;;
            when (onInputAudioData cb) (emit (call_onInputAudioData an)) ;;
            _ <- createGain 0 ;;
            log "Microphone connected & streaming."
        end)
       (fun _ => log "Microphone access denied or error. (Check permissions)"))
    connect_catch.

(** The [onaudioprocess] handler of the script processor. *)
Definition onaudioprocess (inputData : list Num.number) (fault : option Error) : M unit :=
  connected <- gets isConnected ;;
  s <- gets session ;;
  match connected, s with
  | true, Some sid =>
      let pcmData := Pcm.createPcmData platform inputData in
      session_send sid "audio/pcm;rate=16000" pcmData fault
  | _, _ => ret tt
  end.

(** **** handleMessage *)

(** [// 1. Handle Audio Output] *)
Definition handleAudio (msg : LiveServerMessage) : M unit :=
  if truthy (inlineData msg) then
    log "Received Audio Chunk" ;;
    ctx <- gets audioContext ;;
    g <- gets gainNode ;;
    match ctx, g with
    | Some c, Some gn =>
        try_catch
          (audioData <- lift (decodeBase64 (default EmptyString (inlineData msg))) ;;
           audioBuffer <- lift (decodeAudioData audioData) ;;
           source <- createBufferSource audioBuffer gn ;;
           now <- context_currentTime c ;;
           cursor <- gets audioQueueNextStartTime ;;
           when (cursor <? now) (assign (set_audioQueueNextStartTime now)) ;;
           cursor <- gets audioQueueNextStartTime ;;
           source_start source cursor ;;
           assign (set_audioQueueNextStartTime (cursor + duration audioBuffer)) ;;
           active <- gets activeSources ;;
           assign (set_activeSources (active ++ [source])))
          (fun _ =>
             emit (console_error "Error decoding audio") ;;
             log "Error decoding audio chunk")
    | _, _ => ret tt
    end
  else ret tt.

(** [// 2. Handle Text (Subtitles)] *)
Definition handleText (msg : LiveServerMessage) : M unit :=
  if truthy (outputTranscription msg) then
    cb <- gets callbacks ;;
    when (onSubtitle cb)
      (emit (call_onSubtitle (default EmptyString (outputTranscription msg))))
  else ret tt.

(** [// 3. Handle Interruption] *)
Definition handleInterruption (msg : LiveServerMessage) : M unit :=
  if interrupted msg then
    log "Model Interrupted." ;;
    stopAll ;;
    ctx <- gets audioContext ;;
    match ctx with
    | Some c =>
        now <- context_currentTime c ;;
        assign (set_audioQueueNextStartTime now)
    | None => ret tt
    end
  else ret tt.

Definition handleMessage (msg : LiveServerMessage) : M unit :=
  cb <- gets callbacks ;;
  when (onResponse cb) (emit call_onResponse) ;;
  handleAudio msg ;;
  handleText msg ;;
  handleInterruption msg.

(** [source.onended]: the node leaves [activeSources]. *)
Fixpoint splice_first (n : nat) (xs : list nat) : list nat :=
  match xs with
  | [] => []
  | x :: xs' => if Nat.eqb x n then xs' else x :: splice_first n xs'
  end.

Definition onended (source : nat) : M unit :=
  update (fun br => set_sources (alter mark_ended source (sources br)) br) ;;
  active <- gets activeSources ;;
  assign (set_activeSources (splice_first source active)).

Definition sendVideoFrame (base64Data : string) (fault : option Error) : M unit :=
  connected <- gets isConnected ;;
  s <- gets session ;;
  match connected, s with
  | true, Some sid =>
      try_catch
        (session_send sid "image/jpeg" base64Data fault)
        (fun e => log ("Error sending frame: " ++ message e))
  | _, _ => ret tt
  end.

Definition mute (muted : bool) : M unit :=
  g <- gets gainNode ;;
  ctx <- gets audioContext ;;
  match g, ctx with
  | Some gn, Some c =>
      gain_setValue gn (if muted then 0 else 1) ;;
      st <- context_state c ;;
      match muted, st with
      | false, suspended => context_resume c
      | _, _ => ret tt
      end
  | _, _ => ret tt
  end.

(** The callbacks the service hands to the channel. *)
Definition session_onopen : M unit :=
  assign (set_isConnected true) ;;
  log "Session Opened." ;;
  cb <- gets callbacks ;;
  when (onOpen cb) (emit call_onOpen).

Definition session_onclose : M unit :=
  assign (set_isConnected false) ;;
  log "Session Closed." ;;
  cb <- gets callbacks ;;
  when (onClose cb) (emit call_onClose).

Definition session_onerror (err_message : option string) : M unit :=
  log ("Error: " ++ default "undefined"%string err_message) ;;
  cb <- gets callbacks ;;
  when (onError cb)
    (emit (call_onError
       {| message := if truthy err_message
                     then default EmptyString err_message
                     else "Network error" |})).

(** **** The event loop *)

(** What can happen to a service: calls of its owner, callbacks of the
    channel and of the browser, a suspended method resuming with the
    outcome of what it awaited ([None]: fulfilled, [Some e]: rejected),
    and moves of the browser itself. *)
Inductive Event :=
| ev_connect (systemInstruction : string)
| ev_disconnect
| ev_mute (muted : bool)
| ev_sendVideoFrame (base64Data : string) (fault : option Error)
| ev_settle (i : nat) (r : option Error)
| ev_onopen
| ev_onclose
| ev_onerror (err_message : option string)
| ev_onmessage (msg : LiveServerMessage)
| ev_audioprocess (inputData : list Num.number) (fault : option Error)
| ev_ended (source : nat)
| ev_animationFrame
| ev_clock (ctx : nat) (frames : N)
| ev_policy (next : Error + ContextState).

Definition resume (t : Task) (r : option Error) : M unit :=
  match t with
  | AwaitLiveConnect => connect_settled r
  | AwaitGetUserMedia => startAudioInput_settled r
  | AwaitInputClose => disconnect_input_settled r
  | AwaitSessionClose => disconnect_session_settled r
  | AwaitOutputClose => disconnect_output_settled r
  end.

Definition advance (frames : N) (c : AudioContext) : AudioContext :=
  {| sampleRate := sampleRate c;
     currentTime := currentTime c + Z.of_N frames;
     state := state c |}.

(** The browser fires [ended] on a node that was started and has not
    ended yet. *)
Definition can_end (w : World) (n : nat) : bool :=
  match sources (browser w) !! n with
  | Some nd => bool_decide (is_Some (startedAt nd)) && negb (ended nd)
  | None => false
  end.

Definition handle (e : Event) : M unit :=
  match e with
  | ev_connect i => connect i
  | ev_disconnect => disconnect
  | ev_mute b => mute b
  | ev_sendVideoFrame d f => sendVideoFrame d f
  | ev_settle i r =>
      fun w =>
        match tasks w !! i with
        | Some t => resume t r (with_tasks (delete i) w)
        | None => (Normal tt, w)
        end
  | ev_onopen => session_onopen
  | ev_onclose => session_onclose
  | ev_onerror m => session_onerror m
  | ev_onmessage m => handleMessage m
  | ev_audioprocess d f => onaudioprocess d f
  | ev_ended n => fun w => if can_end w n then onended n w else (Normal tt, w)
  | ev_animationFrame => startVisualizer
  | ev_clock c n => update (fun b => set_contexts (alter (advance n) c (contexts b)) b)
  | ev_policy p => update (set_nextContext p)
  end.

Definition step (w : World) (e : Event) : World := snd (handle e w).

Definition run (w : World) (es : list Event) : World := fold_left step es w.

(** [new GeminiLiveService(callbacks)] in a browser with nothing in it. *)
Definition constructor (cb : LiveServiceCallbacks) : Service :=
  {| session := None; audioContext := None; audioQueueNextStartTime := 0;
     gainNode := None; analyserNode := None; callbacks := cb;
     isConnected := false; activeSources := [];
     inputAudioContext := None; inputMediaStream := None;
     inputProcessor := None; inputSource := None; inputAnalyser := None |}.

Definition boot (cb : LiveServiceCallbacks) : World :=
  {| this := constructor cb;
     browser := {| contexts := []; sources := []; gains := []; streams := [];
                   sessions := []; plainNodes := 0; nextContext := inr running |};
     trace := [];
     tasks := [] |}.

Definition reachable (w : World) : Prop :=
  exists cb es, w = run (boot cb) es.

(** **** Reading the output timeline *)

Definition cursor (w : World) : Z := audioQueueNextStartTime (this w).

(** The clock of the output context the service holds. *)
Definition now (w : World) : Z :=
  match audioContext (this w) with
  | Some c => default 0 (currentTime <$> contexts (browser w) !! c)
  | None => 0
  end.

(** Start time and duration of every unit handed to the output device,
    oldest first. *)
Definition scheduled (w : World) : list (Z * Z) :=
  omap (fun nd => match startedAt nd with
                  | Some t => Some (t, duration (buffer nd))
                  | None => None
                  end) (sources (browser w)).

(** **** Sequences of inbound audio units *)

(** A unit on its way in: how far the clock moves before it arrives, the
    message that carries it, and the buffer its payload decodes to. *)
Record Unit := {
  delay : N;
  message_of : LiveServerMessage;
  decoded : AudioBuffer
}.

Definition carries (msg : LiveServerMessage) (b : AudioBuffer) : Prop :=
  truthy (inlineData msg) = true /\
  exists bytes,
    decodeBase64 (default EmptyString (inlineData msg)) = inr bytes /\
    decodeAudioData bytes = inr b.

Definition delivered (u : Unit) : Prop :=
  carries (message_of u) (decoded u) /\ interrupted (message_of u) = false.

Definition arrivals (c : nat) (us : list Unit) : list Event :=
  flat_map (fun u => [ev_clock c (delay u); ev_onmessage (message_of u)]) us.

Definition durations (us : list Unit) : list Z := map (fun u => duration (decoded u)) us.

Definition total (ds : list Z) : Z := fold_right Z.add 0 ds.

(** The clock readings at which the units arrive, from reading [t]. *)
Fixpoint arrival_times (t : Z) (us : list Unit) : list Z :=
  match us with
  | [] => []
  | u :: us' => (t + Z.of_N (delay u)) :: arrival_times (t + Z.of_N (delay u)) us'
  end.

(** Every unit arrives while the cursor, which is at [cur] when the clock
    reads [t], has not fallen behind the clock. *)
Fixpoint timely (t cur : Z) (us : list Unit) : Prop :=
  match us with
  | [] => True
  | u :: us' =>
      t + Z.of_N (delay u) <= cur /\
      timely (t + Z.of_N (delay u)) (cur + duration (decoded u)) us'
  end.

(** Units of durations [ds] laid end to end from [t]. *)
Fixpoint back_to_back (t : Z) (ds : list Z) : list (Z * Z) :=
  match ds with
  | [] => []
  | d :: ds' => (t, d) :: back_to_back (t + d) ds'
  end.

(** Properties of a schedule, a list of (start, duration). *)
Definition contiguous (sch : list (Z * Z)) : Prop :=
  forall i a b, sch !! i = Some a -> sch !! S i = Some b -> b.1 = a.1 + a.2.

Definition no_overlap (sch : list (Z * Z)) : Prop :=
  forall i j a b, (i < j)%nat -> sch !! i = Some a -> sch !! j = Some b -> a.1 + a.2 <= b.1.

Definition span (sch : list (Z * Z)) : Z :=
  match sch, last sch with
  | first :: _, Some final => final.1 + final.2 - first.1
  | _, _ => 0
  end.

(** **** Well-formed worlds *)

(** Node [n] of the store has been started and has not ended. *)
Definition playing (srcs : list SourceNode) (n : nat) : Prop :=
  exists nd, srcs !! n = Some nd /\ is_Some (startedAt nd) /\ ended nd = false.

Definition valid {A} (ref : option nat) (store : list A) : Prop :=
  forall r, ref = Some r -> (r < length store)%nat.

Record wf (w : World) : Prop := {
  wf_audioContext : valid (audioContext (this w)) (contexts (browser w));
  wf_inputAudioContext : valid (inputAudioContext (this w)) (contexts (browser w));
  wf_gainNode : valid (gainNode (this w)) (gains (browser w));
  wf_inputMediaStream : valid (inputMediaStream (this w)) (streams (browser w));
  wf_session : valid (session (this w)) (sessions (browser w));
  wf_active : Forall (playing (sources (browser w))) (activeSources (this w));
  wf_nodup : NoDup (activeSources (this w))
}.

(** **** After an interruption *)

(** Events that keep the output device: anything but a new [connect]. *)
Definition same_device (e : Event) : Prop :=
  match e with
  | ev_connect _ => False
  | _ => True
  end.

(** Every node of the store from index [from] on that was started was
    started at [t0] or later. *)
Definition late (t0 : Z) (from : nat) (srcs : list SourceNode) : Prop :=
  forall i nd t, (from <= i)%nat -> srcs !! i = Some nd -> startedAt nd = Some t -> t0 <= t.

(** Context [c] of the store reads [t0] or later. *)
Definition ticking (t0 : Z) (c : nat) (ctxs : list AudioContext) : Prop :=
  exists x, ctxs !! c = Some x /\ t0 <= currentTime x.

(** What holds from an interruption at time [t0] of context [c] on. *)
Record since (t0 : Z) (c from : nat) (w : World) : Prop := {
  since_context : audioContext (this w) = Some c \/ audioContext (this w) = None;
  since_clock : ticking t0 c (contexts (browser w));
  since_cursor : t0 <= audioQueueNextStartTime (this w);
  since_late : late t0 from (sources (browser w))
}.

(** What [stopAll] leaves of the source nodes. *)
Definition stop_one (srcs : list SourceNode) (n : nat) : list SourceNode :=
  match srcs !! n with
  | Some nd =>
      match startedAt nd with
      | Some _ => alter mark_stopped n srcs
      | None => srcs
      end
  | None => srcs
  end.

Definition stop_sources (active : list nat) (srcs : list SourceNode) : list SourceNode :=
  fold_left stop_one active srcs.

(** Node [n] of the store has been stopped. *)
Definition halted (srcs : list SourceNode) (n : nat) : Prop :=
  exists nd, srcs !! n = Some nd /\ stopped nd = true.

(** **** Teardown *)

(** The completions of the handlers along a run. *)
Fixpoint outcomes (w : World) (es : list Event) : list (Completion unit) :=
  match es with
  | [] => []
  | e :: es' => fst (handle e w) :: outcomes (step w e) es'
  end.

(** [disconnect()] called in world [w], followed by the settling of what it
    awaits with outcomes [r1], [r2], [r3] before anything else runs. Its
    suspended rest is the last of the tasks each time. *)
Definition teardown (r1 r2 r3 : option Error) (w : World) : list Event :=
  let k := length (tasks w) in
  [ev_disconnect; ev_settle k r1; ev_settle k r2; ev_settle k r3].

(** The service holds nothing. *)
Record torn_down (s : Service) : Prop := {
  td_isConnected : isConnected s = false;
  td_activeSources : activeSources s = [];
  td_inputMediaStream : inputMediaStream s = None;
  td_inputAudioContext : inputAudioContext s = None;
  td_session : session s = None;
  td_audioContext : audioContext s = None
}.

Definition context_closed (ctxs : list AudioContext) (c : nat) : Prop :=
  exists x, ctxs !! c = Some x /\ state x = closed.

Definition stream_stopped (sts : list MediaStream) (st : nat) : Prop :=
  exists m, sts !! st = Some m /\ Forall (fun live => live = false) (tracks m).

Definition session_closed (ses : list Session) (s : nat) : Prop :=
  exists x, ses !! s = Some x /\ isOpen x = false.

(** Events that are not calls by the owner of the service: the browser and
    the channel moving on. *)
Definition spontaneous (e : Event) : Prop :=
  match e with
  | ev_connect _ | ev_disconnect | ev_mute _ | ev_sendVideoFrame _ _ => False
  | _ => True
  end.

(** C5 as the specification reads: whenever [disconnect] has been called
    and nothing is suspended any more, the service holds nothing. *)
Definition disconnect_is_final : Prop :=
  forall w es,
    reachable w ->
    Forall spontaneous es ->
    tasks (run w (ev_disconnect :: es)) = [] ->
    torn_down (this (run w (ev_disconnect :: es))).

(** The two places where [connect] can fail with [e]: building the output
    context, and the channel, when the promise of [live.connect] rejects.
    ([startAudioInput] handles its own errors.) *)
Definition connect_fails (w : World) (ev : Event) (e : Error) : Prop :=
  (exists systemInstruction,
     ev = ev_connect systemInstruction /\ nextContext (browser w) = inl e) \/
  (exists k, ev = ev_settle k (Some e) /\ tasks w !! k = Some AwaitLiveConnect).

(** Everything the service held in [w] is released in [w']. *)
Record released (w w' : World) : Prop := {
  rel_sources : forall n, n ∈ activeSources (this w) -> halted (sources (browser w')) n;
  rel_stream : forall st, inputMediaStream (this w) = Some st ->
                          stream_stopped (streams (browser w')) st;
  rel_input : forall c, inputAudioContext (this w) = Some c ->
                        context_closed (contexts (browser w')) c;
  rel_session : forall s, session (this w) = Some s ->
                          session_closed (sessions (browser w')) s;
  rel_output : forall c, audioContext (this w) = Some c ->
                         context_closed (contexts (browser w')) c
}.

End Methods.

End Live.

(* ====================================================================== *)
(** ** The video frame sampler: the frame streaming effect of LiveCaster and
       [VideoPlayer.getFrame] *)

Module Sampler.

Record VideoElement := { readyState : nat }.

(** The part of the LiveCaster component the effect works on. [inFlight]
    lists the captures whose [canvas.toBlob] has not called back yet, that
    is the calls of [getFrame] whose promise is still pending. The size of
    the canvas plays no role here and is left out. *)
Record LiveCaster := {
  isConnected : bool;
  videoRef : option VideoElement;
  canvasContext : bool;
  liveServiceRef : option Live.World;
  frameIntervalRef : option nat;
  intervals : list nat;
  timersMade : nat;
  inFlight : list nat;
  capturesMade : nat;
  framesSent : nat;
  console : list string
}.

Definition set_liveServiceRef v (c : LiveCaster) : LiveCaster :=
  {| isConnected := isConnected c; videoRef := videoRef c;
     canvasContext := canvasContext c; liveServiceRef := v;
     frameIntervalRef := frameIntervalRef c; intervals := intervals c;
     timersMade := timersMade c; inFlight := inFlight c;
     capturesMade := capturesMade c; framesSent := framesSent c;
     console := console c |}.

Definition set_interval v ivs made (c : LiveCaster) : LiveCaster :=
  {| isConnected := isConnected c; videoRef := videoRef c;
     canvasContext := canvasContext c; liveServiceRef := liveServiceRef c;
     frameIntervalRef := v; intervals := ivs;
     timersMade := made; inFlight := inFlight c;
     capturesMade := capturesMade c; framesSent := framesSent c;
     console := console c |}.

Definition set_inFlight v made (c : LiveCaster) : LiveCaster :=
  {| isConnected := isConnected c; videoRef := videoRef c;
     canvasContext := canvasContext c; liveServiceRef := liveServiceRef c;
     frameIntervalRef := frameIntervalRef c; intervals := intervals c;
     timersMade := timersMade c; inFlight := v;
     capturesMade := made; framesSent := framesSent c;
     console := console c |}.

Definition set_framesSent v (c : LiveCaster) : LiveCaster :=
  {| isConnected := isConnected c; videoRef := videoRef c;
     canvasContext := canvasContext c; liveServiceRef := liveServiceRef c;
     frameIntervalRef := frameIntervalRef c; intervals := intervals c;
     timersMade := timersMade c; inFlight := inFlight c;
     capturesMade := capturesMade c; framesSent := v;
     console := console c |}.

Definition set_isConnected v (c : LiveCaster) : LiveCaster :=
  {| isConnected := v; videoRef := videoRef c;
     canvasContext := canvasContext c; liveServiceRef := liveServiceRef c;
     frameIntervalRef := frameIntervalRef c; intervals := intervals c;
     timersMade := timersMade c; inFlight := inFlight c;
     capturesMade := capturesMade c; framesSent := framesSent c;
     console := console c |}.

Definition set_console v (c : LiveCaster) : LiveCaster :=
  {| isConnected := isConnected c; videoRef := videoRef c;
     canvasContext := canvasContext c; liveServiceRef := liveServiceRef c;
     frameIntervalRef := frameIntervalRef c; intervals := intervals c;
     timersMade := timersMade c; inFlight := inFlight c;
     capturesMade := capturesMade c; framesSent := framesSent c;
     console := v |}.

(** [getFrame()] up to the call of [canvas.toBlob]: [None] when it returns
    [null] at once, [Some c'] when capture number [capturesMade c] is now
    pending. [drawFails]: [drawImage] throws (a tainted canvas). *)
Definition getFrame (drawFails : bool) (c : LiveCaster) : LiveCaster * bool :=
  match videoRef c with
  | None => (c, false)
  | Some video =>
      if (readyState video <? 2)%nat then (c, false)
      else if negb (canvasContext c) then (c, false)
      else if drawFails then
        (set_console (console c ++ ["Frame capture failed (likely tainted canvas):"%string]) c,
         false)
      else
        (set_inFlight (inFlight c ++ [capturesMade c]) (S (capturesMade c)) c, true)
  end.

(** [sendFrame()] up to [await videoRef.current.getFrame()]. *)
Definition sendFrame (drawFails : bool) (c : LiveCaster) : LiveCaster :=
  match videoRef c, liveServiceRef c with
  | Some _, Some _ => fst (getFrame drawFails c)
  | _, _ => c
  end.

(** The rest of [sendFrame], once [toBlob] has called back for capture
    [id] with [blob] already turned into base64 ([None]: no blob). *)
Definition sendFrame_settled (id : nat) (blob : option string) (fault : option Live.Error)
    (c : LiveCaster) : LiveCaster :=
  if bool_decide (id ∈ inFlight c) then
    let c := set_inFlight (filter (fun x => x <> id) (inFlight c)) (capturesMade c) c in
    if Live.truthy blob then
      match liveServiceRef c with
      | Some w =>
          let w' := snd (Live.sendVideoFrame (default EmptyString blob) fault w) in
          set_framesSent (S (framesSent c)) (set_liveServiceRef (Some w') c)
      | None => c
      end
    else c
  else c.

(** The cleanup of the effect. *)
Definition cleanup (c : LiveCaster) : LiveCaster :=
  match frameIntervalRef c with
  | Some t => set_interval (frameIntervalRef c) (filter (fun x => x <> t) (intervals c))
                (timersMade c) c
  | None => c
  end.

(** The effect body, run when [isConnected] changes. *)
Definition effect (c : LiveCaster) : LiveCaster :=
  if isConnected c then
    set_interval (Some (S (timersMade c))) (intervals c ++ [S (timersMade c)])
      (S (timersMade c)) c
  else c.

Inductive Event :=
| ev_connected (b : bool)
| ev_tick (timer : nat) (drawFails : bool)
| ev_blob (capture : nat) (blob : option string) (fault : option Live.Error).

Definition step (c : LiveCaster) (e : Event) : LiveCaster :=
  match e with
  | ev_connected b =>
      if Bool.eqb b (isConnected c) then c
      else effect (set_isConnected b (cleanup c))
  | ev_tick t drawFails =>
      if bool_decide (t ∈ intervals c) then sendFrame drawFails c else c
  | ev_blob id blob fault => sendFrame_settled id blob fault c
  end.

Definition run (c : LiveCaster) (es : list Event) : LiveCaster := fold_left step es c.

(** The component once mounted, with a playing video and a service. *)
Definition mounted (w : Live.World) : LiveCaster :=
  {| isConnected := false; videoRef := Some {| readyState := 4 |};
     canvasContext := true; liveServiceRef := Some w;
     frameIntervalRef := None; intervals := []; timersMade := 0;
     inFlight := []; capturesMade := 0; framesSent := 0; console := [] |}.

End Sampler.

(* ====================================================================== *)
(** ** A concrete setting for the examples *)

Module Sample.
Import Live.

(** A stand-in for the two decoding helpers: the payload ["corrupt"] is
    rejected, any other decodes to one frame per character. *)
Definition decodeBase64 (s : string) : Error + list Z :=
  if String.eqb s "corrupt" then inl {| message := "invalid payload" |}
  else inr (map (fun c => Z.of_N (N_of_ascii c)) (list_ascii_of_string s)).

Definition decodeAudioData (bytes : list Z) : Error + AudioBuffer :=
  inr {| buf_length := N.of_nat (length bytes) |}.

Definition callbacks : LiveServiceCallbacks :=
  {| onOpen := true; onClose := true; onError := true; onAudioData := true;
     onInputAudioData := true; onSubtitle := true; onResponse := true;
     onLog := true |}.

Definition run : World -> list Event -> World :=
  Live.run decodeBase64 decodeAudioData Pcm.LittleEndian.

(** A service whose [connect] is waiting for the channel. *)
Definition connecting : World := run (boot callbacks) [ev_connect "Cast the match."].

(** A session that is streaming, five frames into the output clock. *)
Definition streaming : World :=
  run connecting [ev_onopen; ev_settle 0 None; ev_settle 0 None; ev_clock 0 5].

Definition audio (payload : string) : LiveServerMessage :=
  {| inlineData := Some payload; outputTranscription := None; interrupted := false |}.

Definition first_unit : Unit :=
  {| delay := 3; message_of := audio "abc"; decoded := {| buf_length := 3 |} |}.

Definition second_unit : Unit :=
  {| delay := 2; message_of := audio "defg"; decoded := {| buf_length := 4 |} |}.

(** The streaming session with two units scheduled. *)
Definition playing_two : World := run streaming (arrivals 0 [first_unit; second_unit]).

Definition barge_in : LiveServerMessage :=
  {| inlineData := None; outputTranscription := None; interrupted := true |}.

(** [disconnect] is called while [connect] waits for the channel and runs
    to its end; then the channel opens and [connect] goes on. *)
Definition disconnect_then_resolve : list Event :=
  [ev_disconnect; ev_settle 1 None; ev_onopen; ev_settle 0 None; ev_settle 0 None].

(** The LiveCaster component over the service that waits for its channel,
    once the channel has reported open. *)
Definition casting : Sampler.LiveCaster :=
  Sampler.run (Sampler.mounted connecting) [Sampler.ev_connected true].

End Sample.

(* ====================================================================== *)
(** ** Reading an encoded chunk back

    The inverse of what [createPcmData] does after the samples are stored:
    [atob] undoes [btoa], [words] reads a binary string as 16-bit integers in
    the byte order of the platform. They serve to show that the encoding
    loses nothing; the service itself never decodes what it sends. *)

Module Base64.
Import Num Pcm.

Fixpoint index_of (c : ascii) (s : string) (i : Z) : Z :=
  match s with
  | EmptyString => 0
  | String x s' => if Ascii.eqb x c then i else index_of c s' (i + 1)
  end.

(** The six bits a character of the alphabet stands for. *)
Definition b64_value (c : ascii) : Z := index_of c b64_alphabet 0.

Definition chr (b : Z) : string := String (ascii_of_N (Z.to_N b)) EmptyString.

Fixpoint atob (s : string) : string :=
  match s with
  | String a (String b (String c (String d rest))) =>
      let va := b64_value a in
      let vb := b64_value b in
      let vc := b64_value c in
      let vd := b64_value d in
      let b1 := Z.lor (Z.shiftl va 2) (Z.shiftr vb 4) in
      let b2 := Z.lor (Z.shiftl (Z.land vb 15) 4) (Z.shiftr vc 2) in
      let b3 := Z.lor (Z.shiftl (Z.land vc 3) 6) vd in
      if Ascii.eqb c "=" then chr b1
      else if Ascii.eqb d "=" then (chr b1 ++ chr b2)%string
      else (chr b1 ++ chr b2 ++ chr b3 ++ atob rest)%string
  | _ => EmptyString
  end.

(** The two bytes [new Uint8Array(int16.buffer)] shows for one element. *)
Definition pair (p : endianness) (v : Z) : string :=
  let w := v mod 65536 in
  let low := fromCharCode (Z.land w 255) in
  let high := fromCharCode (Z.shiftr w 8) in
  match p with
  | LittleEndian => (low ++ high)%string
  | BigEndian => (high ++ low)%string
  end.

Fixpoint pairs (p : endianness) (vs : list Z) : string :=
  match vs with
  | [] => EmptyString
  | v :: vs' => (pair p v ++ pairs p vs')%string
  end.

Definition signed (w : Z) : Z := if w >=? 32768 then w - 65536 else w.

(** A binary string read as signed 16-bit integers. *)
Fixpoint words (p : endianness) (s : string) : list Z :=
  match s with
  | String x (String y rest) =>
      let first := code x in
      let second := code y in
      signed match p with
             | LittleEndian => first + 256 * second
             | BigEndian => second + 256 * first
             end :: words p rest
  | _ => []
  end.

(** The byte values and the six-bit values, for checks by enumeration. *)
Definition bytes256 : list Z := map Z.of_nat (seq 0 256).
Definition sextets : list Z := map Z.of_nat (seq 0 64).

Definition all_bytes (f : Z -> bool) : bool := forallb f bytes256.
Definition all_byte_pairs (f : Z -> Z -> bool) : bool :=
  forallb (fun a => forallb (f a) bytes256) bytes256.

End Base64.

(* ====================================================================== *)
(** ** What an observer of the service sees *)

Module Observed.
Import Live.

(** The effects that stay on the page: console lines and the log callback. *)
Definition local (e : Effect) : Prop :=
  match e with
  | console_log _ | console_error _ | call_onLog _ => True
  | _ => False
  end.

Definition realtime_input (e : Effect) : option (nat * string * string) :=
  match e with
  | sendRealtimeInput s mimeType data => Some (s, mimeType, data)
  | _ => None
  end.

(** What has been put on the channel, oldest first: session, MIME type and
    payload of every [sendRealtimeInput]. *)
Definition sent (w : World) : list (nat * string * string) :=
  omap realtime_input (trace w).

(** The calls a channel makes back into the service. *)
Definition channel_event (e : Event) : Prop :=
  match e with
  | ev_onopen | ev_onclose | ev_onerror _ | ev_onmessage _ => True
  | _ => False
  end.

(** Node [n] of the store is sounding or about to: started, not ended, not
    stopped. *)
Definition audible (srcs : list SourceNode) (n : nat) : Prop :=
  exists nd, srcs !! n = Some nd /\ is_Some (startedAt nd) /\
             ended nd = false /\ stopped nd = false.

(** The context a field refers to, if any, runs at [rate]. *)
Definition rate_of (ctxs : list AudioContext) (ref : option nat) (rate : Z) : Prop :=
  forall c, ref = Some c -> exists x, ctxs !! c = Some x /\ sampleRate x = rate.

(** What the visualizer does: the animation frames it asks for and the
    analyser it hands out. *)
Definition animation (e : Effect) : option Effect :=
  match e with
  | requestAnimationFrame | call_onAudioData _ => Some e
  | _ => None
  end.

Definition visualized (w : World) : list Effect := omap animation (trace w).

Definition frame_request (e : Effect) : option unit :=
  match e with
  | requestAnimationFrame => Some tt
  | _ => None
  end.

Definition frame_requests (w : World) : nat := length (omap frame_request (trace w)).

Definition is_connect (e : Event) : Prop :=
  match e with
  | ev_connect _ => True
  | _ => False
  end.

Definition is_settle (e : Event) : Prop :=
  match e with
  | ev_settle _ _ => True
  | _ => False
  end.

Section Runs.

Variable decodeBase64 : string -> Error + list Z.
Variable decodeAudioData : list Z -> Error + AudioBuffer.
Variable platform : Pcm.endianness.

(** An input of the two kinds the service produces, sent on one of the
    first [n] sessions: a JPEG frame, or a window of microphone samples as
    [createPcmData] encodes it, declared as 16 kHz PCM. *)
Definition well_sent (n : nat) (x : nat * string * string) : Prop :=
  (x.1.1 < n)%nat /\
  (x.1.2 = "image/jpeg"%string \/
   (x.1.2 = "audio/pcm;rate=16000"%string /\
    exists inputData, x.2 = Pcm.createPcmData platform inputData)).

(** The payload of [msg], if it has one, cannot be played in [w]: there is
    no output context or no gain node, or one of the decoding steps throws. *)
Definition unplayable (w : World) (msg : LiveServerMessage) : Prop :=
  audioContext (this w) = None \/
  gainNode (this w) = None \/
  (exists e, decodeBase64 (default EmptyString (inlineData msg)) = inl e) \/
  (exists bytes e,
     decodeBase64 (default EmptyString (inlineData msg)) = inr bytes /\
     decodeAudioData bytes = inl e).

(** The browser calls back at most once for each animation frame that was
    requested: along [es], run from [w], every [ev_animationFrame] answers a
    request not answered yet. [served] counts the callbacks made so far. *)
Fixpoint answered (w : World) (served : nat) (es : list Event) : Prop :=
  match es with
  | [] => True
  | e :: es' =>
      match e with
      | ev_animationFrame =>
          (served < frame_requests w)%nat /\
          answered (step decodeBase64 decodeAudioData platform w e) (S served) es'
      | _ => answered (step decodeBase64 decodeAudioData platform w e) served es'
      end
  end.

End Runs.

End Observed.

(* ====================================================================== *)
(** ** Resuming the audio contexts: [isAudioSuspended], [resumeAudio] and
       [ensureAudioRunning] of [GeminiLiveService] *)

Module Resume.
Import Live.

(** Where [resumeAudio] is suspended. *)
Inductive ResumeTask :=
| AwaitOutputResume
| AwaitInputResume.

(** [get isAudioSuspended()]: [this.audioContext?.state === 'suspended'] *)
Definition isAudioSuspended : M bool :=
  ctx <- gets audioContext ;;
  match ctx with
  | Some c =>
      st <- context_state c ;;
      ret match st with suspended => true | _ => false end
  | None => ret false
  end.

(** The second half of [resumeAudio], up to its [await]: [None] when the
    method has returned, [Some t] when it is suspended at [t]. *)
Definition resumeAudio_input : M (option ResumeTask) :=
  ctx <- gets inputAudioContext ;;
  match ctx with
  | Some c =>
      st <- context_state c ;;
      match st with
      | suspended => context_resume c ;; ret (Some AwaitInputResume)
      | _ => ret None
      end
  | None => ret None
  end.

(** [resumeAudio()] up to its first [await]. *)
Definition resumeAudio : M (option ResumeTask) :=
  ctx <- gets audioContext ;;
  match ctx with
  | Some c =>
      st <- context_state c ;;
      match st with
      | suspended => context_resume c ;; ret (Some AwaitOutputResume)
      | _ => resumeAudio_input
      end
  | None => resumeAudio_input
  end.

(** The method resumed with the outcome of the [resume()] it awaited
    ([None]: fulfilled, [Some e]: rejected and caught). *)
Definition resumeAudio_settled (t : ResumeTask) (r : option Error) : M (option ResumeTask) :=
  match t with
  | AwaitOutputResume =>
      match r with
      | None => log "Output Audio Context Resumed."
      | Some _ => emit (console_error "Failed to resume AudioContext")
      end ;;
      resumeAudio_input
  | AwaitInputResume =>
      match r with
      | None => log "Input Audio Context Resumed."
      | Some _ => emit (console_error "Failed to resume Input AudioContext")
      end ;;
      ret None
  end.

(** [ensureAudioRunning()] is [await this.resumeAudio()]. *)
Definition ensureAudioRunning : M (option ResumeTask) := resumeAudio.

(** The whole method when each [resume()] it awaits settles, with outcomes
    [r1] and [r2], before anything else runs. *)
Definition resumeAudio_through (r1 r2 : option Error) : M unit :=
  t <- resumeAudio ;;
  match t with
  | Some AwaitOutputResume =>
      t' <- resumeAudio_settled AwaitOutputResume r1 ;;
      match t' with
      | Some t'' => resumeAudio_settled t'' r2 ;; ret tt
      | None => ret tt
      end
  | Some AwaitInputResume => resumeAudio_settled AwaitInputResume r2 ;; ret tt
  | None => ret tt
  end.

(** The test [resumeAudio] makes on a field: it holds a context and that
    context is suspended. *)
Definition suspended_at (ctxs : list AudioContext) (ref : option nat) : bool :=
  match ref with
  | Some c =>
      match default closed (state <$> ctxs !! c) with
      | suspended => true
      | _ => false
      end
  | None => false
  end.

(** No context the service holds is suspended. *)
Definition awake (w : World) : Prop :=
  suspended_at (contexts (browser w)) (audioContext (this w)) = false /\
  suspended_at (contexts (browser w)) (inputAudioContext (this w)) = false.

End Resume.

(* ====================================================================== *)
(** ** State updates of the LiveCaster component *)

Module Caster.

(** [setLogs(prev => [msg, ...prev].slice(0, 50))] *)
Definition addLog (msg : string) (prev : list string) : list string :=
  take 50 (msg :: prev).

(** [s.slice(n)] for [0 <= n]: the string from index [n] on. *)
Fixpoint slice (n : nat) (s : string) : string :=
  match n, s with
  | O, _ => s
  | S n', String _ s' => slice n' s'
  | S _, EmptyString => EmptyString
  end.

(** The [onSubtitle] callback:
    [setSubtitles(prev => { const next = prev + " " + text;
       return next.length > 150 ? "..." + next.slice(next.length - 150) : next; })].
    A string is the sequence of its code units. *)
Definition onSubtitle (text prev : string) : string :=
  let next := (prev ++ " " ++ text)%string in
  if (150 <? String.length next)%nat
  then ("..." ++ slice (String.length next - 150) next)%string
  else next.

(** The safety timeout of the effect that creates the service:
    [if (!liveServiceRef.current?.audioContext)
       setConnectionError("Connection timed out. Check API Key.")].
    The connection error shown after the timeout has fired. *)
Definition safetyTimeout (liveServiceRef : option Live.World)
    (connectionError : option string) : option string :=
  match liveServiceRef with
  | Some w =>
      match Live.audioContext (Live.this w) with
      | Some _ => connectionError
      | None => Some "Connection timed out. Check API Key."%string
      end
  | None => Some "Connection timed out. Check API Key."%string
  end.

End Caster.

(* ====================================================================== *)
(** ** types.ts and App.tsx: the three screens *)

Module App.

Inductive CasterStyle := PRO | HYPE | FRIEND | ANALYTIC.

Inductive GameEventType := DANGER | TURN | CLUTCH | OBJ | STREAK | USER_PICK | NORMAL.

Definition type_name (t : GameEventType) : string :=
  match t with
  | DANGER => "DANGER" | TURN => "TURN" | CLUTCH => "CLUTCH" | OBJ => "OBJ"
  | STREAK => "STREAK" | USER_PICK => "USER_PICK" | NORMAL => "NORMAL"
  end.

Record GameEvent := {
  id : string;
  timestamp : Num.number;
  type : GameEventType;
  description : string
}.

Inductive InputType := SAMPLE | SCREEN | LOCAL.

(** [mediaSource]: a URL, or a [MediaStream] by its reference. *)
Record AppConfig := {
  style : CasterStyle;
  hypeLevel : Z;
  inputType : InputType;
  mediaSource : option (string + nat);
  showSubtitles : bool
}.

Inductive Screen := HOME | LIVE | RESULTS.

(** The three pieces of state of the [App] component. *)
Record State := {
  screen : Screen;
  config : option AppConfig;
  sessionEvents : list GameEvent
}.

Definition initial : State :=
  {| screen := HOME; config := None; sessionEvents := [] |}.

Definition handleStart (cfg : AppConfig) (a : State) : State :=
  {| screen := LIVE; config := Some cfg; sessionEvents := sessionEvents a |}.

Definition handleFinish (events : list GameEvent) (a : State) : State :=
  {| screen := RESULTS; config := config a; sessionEvents := events |}.

Definition handleRestart (a : State) : State :=
  {| screen := HOME; config := None; sessionEvents := [] |}.

(** What [App] renders. *)
Inductive View :=
| ShowHome
| ShowLiveCaster (cfg : AppConfig)
| ShowResultReport (events : list GameEvent)
| Blank.

Definition render (a : State) : View :=
  match screen a with
  | HOME => ShowHome
  | LIVE =>
      match config a with
      | Some cfg => ShowLiveCaster cfg
      | None => Blank
      end
  | RESULTS => ShowResultReport (sessionEvents a)
  end.

(** What the user can bring about: a child calls the handler it was given,
    and only a child that is rendered can. *)
Inductive Action :=
| start (cfg : AppConfig)
| finish (events : list GameEvent)
| restart.

Definition step (a : State) (act : Action) : State :=
  match render a, act with
  | ShowHome, start cfg => handleStart cfg a
  | ShowLiveCaster _, finish events => handleFinish events a
  | ShowResultReport _, restart => handleRestart a
  | _, _ => a
  end.

Definition run (a : State) (acts : list Action) : State := fold_left step acts a.

End App.

(* ====================================================================== *)
(** ** geminiTextService.ts: the post-game report *)

Module TextService.
Import App.

Record Highlight := {
  title : string;
  hl_timestamp : string;
  hl_description : string
}.

Record PlayStyle := {
  archetype : string;
  strengths : list string;
  improvement : string
}.

Record AnalysisResult := {
  highlights : list Highlight;
  playStyle : PlayStyle
}.

Definition newline : string := String (ascii_of_nat 10) EmptyString.

(** [xs.join(sep)] *)
Fixpoint join (sep : string) (xs : list string) : string :=
  match xs with
  | [] => EmptyString
  | [x] => x
  | x :: xs' => (x ++ sep ++ join sep xs')%string
  end.

Definition placeholder : string :=
  "The match was standard play with no specific marked highlights.".

Definition fallback : AnalysisResult :=
  {| highlights := [];
     playStyle := {| archetype := "Unknown Player";
                     strengths := ["Consistency"%string];
                     improvement := "Try to generate more distinct plays next time." |} |}.

Section Report.

(** [`${Math.floor(x)}`]: the text of the integral part of a number. *)
Variable floor_text : Num.number -> string.

(** [JSON.parse(text) as AnalysisResult]; it may throw. *)
Variable JSON_parse : string -> Live.Error + AnalysisResult.

Definition line (e : GameEvent) : string :=
  ("Time: " ++ floor_text (timestamp e) ++ "s, Type: " ++ type_name (type e) ++
   ", Detail: " ++ description e)%string.

Definition eventsSummary (events : list GameEvent) : string :=
  join newline (map line events).

Definition effectiveSummary (events : list GameEvent) : string :=
  let summary := eventsSummary events in
  if (0 <? String.length summary)%nat then summary else placeholder.

Definition prompt (events : list GameEvent) : string :=
  (newline ++
   "    You are an esports analyst. Based on the following log of gameplay events, generate a post-match summary card." ++ newline ++
   "    " ++ newline ++
   "    Event Log:" ++ newline ++
   "    " ++ effectiveSummary events ++ newline ++
   "    " ++ newline ++
   "    Return the result in JSON format." ++ newline ++
   "  ")%string.

(** [generatePostGameReport] from the point where [generateContent] has
    settled: with an error, or with a response whose [text] may be missing.
    The result and what is written to the console. *)
Definition generatePostGameReport_settled (response : Live.Error + option string)
    : AnalysisResult * list string :=
  let outcome :=
    match response with
    | inl e => inl e
    | inr text =>
        if Live.truthy text then JSON_parse (default EmptyString text)
        else inl {| Live.message := "No data returned" |}
    end in
  match outcome with
  | inr result => (result, [])
  | inl _ => (fallback, ["Failed to generate report"%string])
  end.

End Report.

End TextService.

(* ====================================================================== *)
(** ** The Home component: the screen share wizard *)

Module Wizard.
Import App.

Inductive WizardStep := IDLE | GUIDE | PREVIEW.

(** The state of the component, the streams [getDisplayMedia] has handed
    out so far (for each track, whether it is live; the video track comes
    first), and the calls of [startScreenShare] that still wait for the
    picker, each with the [screenStream] its closure captured. *)
Record Home := {
  style : CasterStyle;
  hypeLevel : Z;
  subtitles : bool;
  screenStream : option nat;
  screenStep : WizardStep;
  streamKeepAliveRef : bool;
  mounted : bool;
  streams : list (list bool);
  requests : list (option nat);
  started : list AppConfig;
  console : list string
}.

Definition initial : Home :=
  {| style := PRO; hypeLevel := 50; subtitles := true; screenStream := None;
     screenStep := IDLE; streamKeepAliveRef := false; mounted := true;
     streams := []; requests := []; started := []; console := [] |}.

Definition set_config s l b (h : Home) : Home :=
  {| style := s; hypeLevel := l; subtitles := b; screenStream := screenStream h;
     screenStep := screenStep h; streamKeepAliveRef := streamKeepAliveRef h;
     mounted := mounted h; streams := streams h; requests := requests h;
     started := started h; console := console h |}.

(** [setScreenStream] and [setScreenStep]: nothing on an unmounted
    component. *)
Definition setScreenStream (v : option nat) (h : Home) : Home :=
  if mounted h then
    {| style := style h; hypeLevel := hypeLevel h; subtitles := subtitles h;
       screenStream := v; screenStep := screenStep h;
       streamKeepAliveRef := streamKeepAliveRef h; mounted := mounted h;
       streams := streams h; requests := requests h; started := started h;
       console := console h |}
  else h.

Definition setScreenStep (v : WizardStep) (h : Home) : Home :=
  if mounted h then
    {| style := style h; hypeLevel := hypeLevel h; subtitles := subtitles h;
       screenStream := screenStream h; screenStep := v;
       streamKeepAliveRef := streamKeepAliveRef h; mounted := mounted h;
       streams := streams h; requests := requests h; started := started h;
       console := console h |}
  else h.

Definition set_keepAlive (v : bool) (h : Home) : Home :=
  {| style := style h; hypeLevel := hypeLevel h; subtitles := subtitles h;
     screenStream := screenStream h; screenStep := screenStep h;
     streamKeepAliveRef := v; mounted := mounted h;
     streams := streams h; requests := requests h; started := started h;
     console := console h |}.

Definition set_mounted (v : bool) (h : Home) : Home :=
  {| style := style h; hypeLevel := hypeLevel h; subtitles := subtitles h;
     screenStream := screenStream h; screenStep := screenStep h;
     streamKeepAliveRef := streamKeepAliveRef h; mounted := v;
     streams := streams h; requests := requests h; started := started h;
     console := console h |}.

Definition set_streams (v : list (list bool)) (h : Home) : Home :=
  {| style := style h; hypeLevel := hypeLevel h; subtitles := subtitles h;
     screenStream := screenStream h; screenStep := screenStep h;
     streamKeepAliveRef := streamKeepAliveRef h; mounted := mounted h;
     streams := v; requests := requests h; started := started h;
     console := console h |}.

Definition set_requests (v : list (option nat)) (h : Home) : Home :=
  {| style := style h; hypeLevel := hypeLevel h; subtitles := subtitles h;
     screenStream := screenStream h; screenStep := screenStep h;
     streamKeepAliveRef := streamKeepAliveRef h; mounted := mounted h;
     streams := streams h; requests := v; started := started h;
     console := console h |}.

Definition set_started (v : list AppConfig) (h : Home) : Home :=
  {| style := style h; hypeLevel := hypeLevel h; subtitles := subtitles h;
     screenStream := screenStream h; screenStep := screenStep h;
     streamKeepAliveRef := streamKeepAliveRef h; mounted := mounted h;
     streams := streams h; requests := requests h; started := v;
     console := console h |}.

Definition print (line : string) (h : Home) : Home :=
  {| style := style h; hypeLevel := hypeLevel h; subtitles := subtitles h;
     screenStream := screenStream h; screenStep := screenStep h;
     streamKeepAliveRef := streamKeepAliveRef h; mounted := mounted h;
     streams := streams h; requests := requests h; started := started h;
     console := console h ++ [line] |}.

(** [stream.getTracks().forEach(t => t.stop())] *)
Definition stopTracks (s : nat) (h : Home) : Home :=
  set_streams (alter (map (fun _ => false)) s (streams h)) h.

(** [if (screenStream) screenStream.getTracks().forEach(t => t.stop())] *)
Definition stopIfAny (stream : option nat) (h : Home) : Home :=
  match stream with
  | Some s => stopTracks s h
  | None => h
  end.

(** The cleanup of the effect on [screenStream], created by the render in
    which [screenStream] was [stream]. *)
Definition cleanup (stream : option nat) (h : Home) : Home :=
  match stream with
  | Some s =>
      if streamKeepAliveRef h then h
      else print "Screen stream stopped on cleanup" (stopTracks s h)
  | None => h
  end.

(** After a handler has run on a component whose [screenStream] was
    [before]: when the handler changed it, the cleanup of the old effect
    runs. *)
Definition rerender (before : option nat) (h : Home) : Home :=
  if bool_decide (screenStream h = before) then h else cleanup before h.

(** The component leaves the page. *)
Definition unmount (h : Home) : Home :=
  if mounted h then set_mounted false (cleanup (screenStream h) h) else h.

(** [startScreenShare] up to [await getDisplayMedia]. *)
Definition startScreenShare (h : Home) : Home :=
  set_requests (requests h ++ [screenStream h]) h.

(** The rest of [startScreenShare] when the picker returned a stream with a
    video track and [others] more tracks; [captured] is the [screenStream] of
    the render the call was made in. *)
Definition startScreenShare_resolved (captured : option nat) (others : nat) (h : Home) : Home :=
  let stream := length (streams h) in
  let h := set_streams (streams h ++ [replicate (S others) true]) h in
  let h := stopIfAny captured h in
  let h := setScreenStream (Some stream) h in
  let h := setScreenStep PREVIEW h in
  set_keepAlive false h.

(** The [catch] of [startScreenShare]. *)
Definition startScreenShare_rejected (h : Home) : Home :=
  setScreenStep IDLE (print "Screen share cancelled" h).

(** [handleStart]; [onStart] is [App.handleStart], which takes Home off the
    page. *)
Definition handleStart (h : Home) : Home :=
  match screenStream h with
  | Some s =>
      let h := set_keepAlive true h in
      let h := set_started
                 (started h ++
                  [{| App.style := style h; App.hypeLevel := hypeLevel h;
                      inputType := SCREEN; mediaSource := Some (inr s);
                      showSubtitles := subtitles h |}]) h in
      unmount h
  | None => h
  end.

(** The close button of the wizard, and RETAKE. *)
Definition closeWizard (h : Home) : Home :=
  setScreenStep IDLE (setScreenStream None (stopIfAny (screenStream h) h)).

Definition retake (h : Home) : Home :=
  setScreenStep GUIDE (setScreenStream None (stopIfAny (screenStream h) h)).

(** The [onended] handler [startScreenShare] puts on the video track. *)
Definition onended (h : Home) : Home :=
  setScreenStep IDLE (setScreenStream None h).

(** The browser ends the video track of stream [s] (the user stops sharing). *)
Definition endVideoTrack (s : nat) (h : Home) : Home :=
  set_streams (alter (fun ts => match ts with
                                | _ :: rest => false :: rest
                                | [] => []
                                end) s (streams h)) h.

Inductive Event :=
| ev_style (s : CasterStyle)
| ev_hype (level : Z)
| ev_subtitles
| ev_openGuide
| ev_viewPreview
| ev_select
| ev_resolve (i : nat) (others : nat)
| ev_reject (i : nat)
| ev_close
| ev_retake
| ev_start
| ev_trackEnded (s : nat).

(** The buttons exist while the component is on the page; the picker calls
    back whenever it does, and a video track that is live can end. *)
Definition handle (e : Event) (h : Home) : Home :=
  match e with
  | ev_style s => if mounted h then set_config s (hypeLevel h) (subtitles h) h else h
  | ev_hype l => if mounted h then set_config (style h) l (subtitles h) h else h
  | ev_subtitles =>
      if mounted h then set_config (style h) (hypeLevel h) (negb (subtitles h)) h else h
  | ev_openGuide => setScreenStep GUIDE h
  | ev_viewPreview => setScreenStep PREVIEW h
  | ev_select => if mounted h then startScreenShare h else h
  | ev_resolve i others =>
      match requests h !! i with
      | Some captured =>
          startScreenShare_resolved captured others (set_requests (delete i (requests h)) h)
      | None => h
      end
  | ev_reject i =>
      match requests h !! i with
      | Some _ => startScreenShare_rejected (set_requests (delete i (requests h)) h)
      | None => h
      end
  | ev_close => if mounted h then closeWizard h else h
  | ev_retake => if mounted h then retake h else h
  | ev_start => if mounted h then handleStart h else h
  | ev_trackEnded s =>
      match streams h !! s with
      | Some (true :: _) => onended (endVideoTrack s h)
      | _ => h
      end
  end.

Definition step (h : Home) (e : Event) : Home := rerender (screenStream h) (handle e h).

Definition run (h : Home) (es : list Event) : Home := fold_left step es h.

(** Every track of stream [s] of the store has been stopped or has ended. *)
Definition silent (sts : list (list bool)) (s : nat) : Prop :=
  exists ts, sts !! s = Some ts /\ Forall (fun live => live = false) ts.

Definition stopped (h : Home) (s : nat) : Prop := silent (streams h) s.

(** At most one capture is live, the one the component holds; the
    references it keeps are valid. *)
Record tidy (h : Home) : Prop := {
  tidy_keepAlive : streamKeepAliveRef h = false;
  tidy_current : forall s, screenStream h = Some s -> (s < length (streams h))%nat;
  tidy_requests : forall s, Some s ∈ requests h -> (s < length (streams h))%nat;
  tidy_others : forall s, (s < length (streams h))%nat -> screenStream h <> Some s ->
                          stopped h s
}.

Definition is_trackEnded (e : Event) : Prop :=
  match e with
  | ev_trackEnded _ => True
  | _ => False
  end.

End Wizard.

(* ====================================================================== *)
(** * Properties *)

(** ** The hype modifier *)

Example hype_examples :
  HYPE_MODIFIER 0 = " Keep it calm."%string /\
  HYPE_MODIFIER 29 = " Keep it calm."%string /\
  HYPE_MODIFIER 30 = " Balanced energy."%string /\
  HYPE_MODIFIER 70 = " Balanced energy."%string /\
  HYPE_MODIFIER 100 = " MAXIMUM VOLUME AND SPEED."%string.
Proof. repeat split; reflexivity. Qed.

(** C10. The modifier depends on the level through the two thresholds 30
    and 70 only: below 30 it is the calm one, above 70 the maximum-energy
    one, from 30 to 70 the balanced one; the three texts differ, so every
    level gets exactly one of them. *)
Theorem hype_modifier_thresholds (level : Z) :
  (level < 30 <-> HYPE_MODIFIER level = " Keep it calm."%string) /\
  (70 < level <-> HYPE_MODIFIER level = " MAXIMUM VOLUME AND SPEED."%string) /\
  (30 <= level <= 70 <-> HYPE_MODIFIER level = " Balanced energy."%string).
Proof.
  unfold HYPE_MODIFIER.
  destruct (Z.ltb_spec level 30) as [Hlo | Hlo].
  - repeat split; intros; (lia || discriminate || reflexivity).
  - destruct (level >? 70) eqn:Hhi.
    + apply Z.gtb_lt in Hhi.
      repeat split; intros; (lia || discriminate || reflexivity).
    + assert (level <= 70) by (rewrite Z.gtb_ltb in Hhi; apply Z.ltb_ge in Hhi; lia).
      repeat split; intros; (lia || discriminate || reflexivity).
Qed.

(** ** The PCM encoder *)

Module PcmFacts.
Import Num Pcm.

Example boundary_samples :
  createPcmData LittleEndian [of_Z 1; of_Z (-1); of_Z 0] = "/38AgAAA"%string /\
  createPcmData BigEndian [of_Z 1; of_Z (-1); of_Z 0] = "f/+AAAAA"%string /\
  createPcmData LittleEndian [S754_infinity false; S754_infinity true; S754_nan]
  = "/38AgAAA"%string.
Proof. repeat split; vm_compute; reflexivity. Qed.

(** [btoa] on the test vectors of RFC 4648. *)
Example btoa_vectors :
  btoa "" = ""%string /\ btoa "f" = "Zg=="%string /\ btoa "fo" = "Zm8="%string /\
  btoa "foo" = "Zm9v"%string /\ btoa "foob" = "Zm9vYg=="%string /\
  btoa "fooba" = "Zm9vYmE="%string /\ btoa "foobar" = "Zm9vYmFy"%string.
Proof. repeat split; reflexivity. Qed.

(** *** The clamp *)

Lemma one_bits : of_Z 1 = S754_finite false 4503599627370496 (-52).
Proof. reflexivity. Qed.

Lemma minus_one_bits : of_Z (-1) = S754_finite true 4503599627370496 (-52).
Proof. reflexivity. Qed.

Lemma zero_bits : of_Z 0 = S754_zero false.
Proof. reflexivity. Qed.

Lemma min_one (x : number) :
  Math_min [of_Z 1; x] = if is_nan x then S754_nan else if lt x (of_Z 1) then x else of_Z 1.
Proof.
  rewrite one_bits. unfold Math_min. cbn [fold_left].
  change (min_step (Some (S754_infinity false)) (S754_finite false 4503599627370496 (-52)))
    with (Some (S754_finite false 4503599627370496 (-52))).
  unfold min_step. destruct (is_nan x); [done |].
  rewrite andb_false_r. by destruct (lt x _).
Qed.

Lemma max_minus_one (y : number) :
  Math_max [of_Z (-1); y] =
  if is_nan y then S754_nan else if lt (of_Z (-1)) y then y else of_Z (-1).
Proof.
  rewrite minus_one_bits. unfold Math_max. cbn [fold_left].
  change (max_step (Some (S754_infinity true)) (S754_finite true 4503599627370496 (-52)))
    with (Some (S754_finite true 4503599627370496 (-52))).
  unfold max_step. destruct (is_nan y); [done |].
  rewrite andb_false_r. by destruct (lt _ y).
Qed.

Lemma compare_flip (m c : positive) :
  PosDef.Pos.compare_cont Eq c m = CompOpp (PosDef.Pos.compare_cont Eq m c).
Proof. exact (Pos.compare_antisym m c). Qed.

Lemma exponent_flip (e c : Z) :
  IntDef.Z.compare c e = CompOpp (IntDef.Z.compare e c).
Proof. exact (Z.compare_antisym e c). Qed.

Lemma exponent_same (e c : Z) : IntDef.Z.compare e c = Eq -> e = c.
Proof. exact (Z.compare_eq e c). Qed.

Lemma compare_same (m c : positive) : PosDef.Pos.compare_cont Eq m c = Eq -> m = c.
Proof. exact (Pos.compare_eq m c). Qed.

Lemma clamp_agrees (x : number) :
  Math_max [of_Z (-1); Math_min [of_Z 1; x]] = spec_clamp x.
Proof.
  rewrite max_minus_one, min_one. unfold spec_clamp.
  rewrite one_bits, minus_one_bits.
  destruct x as [s | s | | s m e]; try (destruct s; reflexivity); try reflexivity.
  unfold lt, SFltb, SFcompare, is_nan.
  destruct s; cbn -[IntDef.Z.compare PosDef.Pos.compare_cont];
    rewrite ?(exponent_flip e (-52)), ?(compare_flip m);
    destruct (IntDef.Z.compare e (-52)) eqn:He;
    cbn -[IntDef.Z.compare PosDef.Pos.compare_cont];
    rewrite ?(exponent_flip e (-52)), ?(compare_flip m), ?He;
    cbn -[IntDef.Z.compare PosDef.Pos.compare_cont]; try reflexivity;
    destruct (PosDef.Pos.compare_cont Eq m 4503599627370496) eqn:Hm; cbn; try reflexivity.
  all: apply exponent_same in He; apply compare_same in Hm; by subst.
Qed.

(** Whatever is a number ends up between -1 and 1. *)
Lemma clamp_in_range (x : number) :
  is_nan x = true \/
  (SFleb (of_Z (-1)) (spec_clamp x) = true /\ SFleb (spec_clamp x) (of_Z 1) = true).
Proof.
  unfold spec_clamp. rewrite one_bits, minus_one_bits.
  destruct x as [s | s | | s m e]; try (destruct s; right; split; reflexivity);
    [by left |].
  right. unfold lt, SFltb, SFleb, SFcompare.
  destruct s; cbn -[IntDef.Z.compare PosDef.Pos.compare_cont];
    rewrite ?(exponent_flip e (-52)), ?(compare_flip m);
    destruct (IntDef.Z.compare e (-52)) eqn:He;
    cbn -[IntDef.Z.compare PosDef.Pos.compare_cont];
    rewrite ?(exponent_flip e (-52)), ?(compare_flip m), ?He;
    cbn -[IntDef.Z.compare PosDef.Pos.compare_cont]; try (split; reflexivity);
    destruct (PosDef.Pos.compare_cont Eq m 4503599627370496) eqn:Hm;
    cbn -[IntDef.Z.compare PosDef.Pos.compare_cont];
    rewrite ?(exponent_flip e (-52)), ?(compare_flip m), ?He, ?Hm;
    cbn; split; reflexivity.
Qed.

(** *** The two loops *)

Lemma sample_loop_invariant (f := fun x => ToInt16 (sample_value x))
    (rest done : list number) :
  sample_loop (done ++ rest) (length rest) (length done)
    (map f done ++ replicate (length rest) 0) =
  map f (done ++ rest).
Proof.
  revert done. induction rest as [| x rest IH]; intros done.
  - cbn. by rewrite !app_nil_r.
  - cbn [length sample_loop].
    rewrite list_lookup_middle by reflexivity.
    change (replicate (S (length rest)) 0) with (0 :: replicate (length rest) 0).
    replace (<[length done := ToInt16 (sample_value x)]> (map f done ++ 0 :: replicate (length rest) 0))
      with (map f (done ++ [x]) ++ replicate (length rest) 0).
    + replace (S (length done)) with (length (done ++ [x])) by (rewrite length_app; cbn; lia).
      replace (done ++ x :: rest) with ((done ++ [x]) ++ rest) by (by rewrite <- app_assoc).
      apply IH.
    + rewrite map_app, <- app_assoc. cbn.
      rewrite insert_app_r_alt by (rewrite length_map; lia).
      rewrite length_map, Nat.sub_diag. reflexivity.
Qed.

Lemma sample_loop_map (data : list number) :
  sample_loop data (length data) 0 (replicate (length data) 0) =
  map (fun x => ToInt16 (sample_value x)) data.
Proof. exact (sample_loop_invariant data []). Qed.

Lemma string_app_assoc (a b c : string) : ((a ++ b) ++ c = a ++ (b ++ c))%string.
Proof. induction a as [| ch a IH]; cbn; [done | by rewrite IH]. Qed.

Lemma string_app_empty (a : string) : (a ++ "" = a)%string.
Proof. induction a as [| ch a IH]; cbn; [done | by rewrite IH]. Qed.

Lemma low_byte (v : Z) :
  fromCharCode (Z.land (v mod 65536) 255) =
  String (ascii_of_N (Z.to_N ((v mod 65536) mod 256))) EmptyString.
Proof.
  unfold fromCharCode. change 255 with (Z.ones 8). rewrite Z.land_ones by lia.
  change (2 ^ 8) with 256. rewrite (Z.mod_small (_ mod 256) 65536); [done |].
  pose proof (Z.mod_pos_bound (v mod 65536) 256). lia.
Qed.

Lemma high_byte (v : Z) :
  fromCharCode (Z.shiftr (v mod 65536) 8) =
  String (ascii_of_N (Z.to_N ((v mod 65536) / 256))) EmptyString.
Proof.
  unfold fromCharCode. rewrite Z.shiftr_div_pow2 by lia.
  change (2 ^ 8) with 256. rewrite (Z.mod_small (_ / 256) 65536); [done |].
  pose proof (Z.mod_pos_bound v 65536).
  split; [apply Z.div_pos; lia | apply Z.div_lt_upper_bound; lia].
Qed.

Lemma binary_loop_invariant (rest done : list Z) (binary : string) :
  binary_loop LittleEndian (done ++ rest) (2 * length rest) (2 * length done) binary =
  (binary ++ spec_bytes rest)%string.
Proof.
  revert done binary. induction rest as [| v rest IH]; intros done binary.
  - cbn. by rewrite string_app_empty.
  - replace (2 * length (v :: rest))%nat with (S (S (2 * length rest))) by (cbn; lia).
    cbn [binary_loop]. unfold buffer_byte.
    replace (2 * length done / 2)%nat with (length done)
      by (apply Nat.div_unique with 0%nat; lia).
    replace (S (2 * length done) / 2)%nat with (length done)
      by (apply Nat.div_unique with 1%nat; lia).
    rewrite list_lookup_middle by reflexivity.
    replace (Nat.even (2 * length done)) with true
      by (symmetry; apply Nat.even_spec; by exists (length done)).
    replace (Nat.even (S (2 * length done))) with false
      by (symmetry; rewrite Nat.even_succ, <- Nat.negb_even;
          apply negb_false_iff, Nat.even_spec; by exists (length done)).
    rewrite low_byte, high_byte.
    replace (S (S (2 * length done))) with (2 * length (done ++ [v]))%nat
      by (rewrite length_app; cbn; lia).
    replace (done ++ v :: rest) with ((done ++ [v]) ++ rest) by (by rewrite <- app_assoc).
    rewrite IH. cbn [spec_bytes]. unfold spec_pair.
    rewrite !string_app_assoc. reflexivity.
Qed.

Lemma binary_loop_bytes (int16 : list Z) :
  binary_loop LittleEndian int16 (2 * length int16) 0 EmptyString = spec_bytes int16.
Proof. exact (binary_loop_invariant int16 [] EmptyString). Qed.

(** *** The range of a stored sample *)

Lemma ToInt16_range (x : number) : -32768 <= ToInt16 x <= 32767.
Proof.
  unfold ToInt16. pose proof (Z.mod_pos_bound (truncate x) 65536).
  destruct (Z.geb_spec (truncate x mod 65536) 32768); lia.
Qed.

(** *** Exact products *)

Lemma digits_bounds (m : positive) :
  2 ^ (Z.pos (digits2_pos m) - 1) <= Z.pos m < 2 ^ Z.pos (digits2_pos m).
Proof.
  induction m as [m IH | m IH |]; cbn [digits2_pos].
  - rewrite Pos2Z.inj_succ.
    replace (Z.succ (Z.pos (digits2_pos m)) - 1) with (Z.succ (Z.pos (digits2_pos m) - 1)) by lia.
    rewrite !Z.pow_succ_r by lia. lia.
  - rewrite Pos2Z.inj_succ.
    replace (Z.succ (Z.pos (digits2_pos m)) - 1) with (Z.succ (Z.pos (digits2_pos m) - 1)) by lia.
    rewrite !Z.pow_succ_r by lia. lia.
  - cbn. lia.
Qed.

Lemma digits_unique (m : positive) (d : Z) :
  2 ^ (d - 1) <= Z.pos m < 2 ^ d -> Z.pos (digits2_pos m) = d.
Proof.
  intros [Hlo Hhi]. pose proof (digits_bounds m) as [Hlo' Hhi'].
  assert (0 < d).
  { destruct (Z.ltb_spec 0 d) as [| Hd]; [done |]. exfalso.
    assert (2 ^ d <= 1); [| lia].
    destruct (Z.eq_dec d 0) as [-> |]; [cbn; lia |]. rewrite Z.pow_neg_r by lia. lia. }
  destruct (Z.lt_trichotomy (Z.pos (digits2_pos m)) d) as [Hlt | [Heq | Hgt]]; [| done |].
  - assert (2 ^ Z.pos (digits2_pos m) <= 2 ^ (d - 1)) by (apply Z.pow_le_mono_r; lia). lia.
  - assert (2 ^ d <= 2 ^ (Z.pos (digits2_pos m) - 1)) by (apply Z.pow_le_mono_r; lia). lia.
Qed.

Lemma shr_1_even (y : Z) :
  0 <= y ->
  shr_1 {| shr_m := 2 * y; shr_r := false; shr_s := false |} =
  {| shr_m := y; shr_r := false; shr_s := false |}.
Proof. intros Hy. destruct y as [| q | q]; [reflexivity | reflexivity | lia]. Qed.

Lemma shr_exact (p : positive) (y : Z) :
  0 <= y ->
  SpecFloat.iter_pos shr_1 p {| shr_m := y * 2 ^ Z.pos p; shr_r := false; shr_s := false |} =
  {| shr_m := y; shr_r := false; shr_s := false |}.
Proof.
  revert y. induction p as [p IH | p IH |]; intros y Hy; cbn [SpecFloat.iter_pos].
  - replace (y * 2 ^ Z.pos p~1) with (2 * ((y * 2 ^ Z.pos p) * 2 ^ Z.pos p)).
    + rewrite shr_1_even by nia. rewrite IH by nia. by apply IH.
    + replace (Z.pos p~1) with (Z.pos p + Z.pos p + 1) by lia.
      rewrite !Z.pow_add_r by lia. change (2 ^ 1) with 2. ring.
  - replace (y * 2 ^ Z.pos p~0) with ((y * 2 ^ Z.pos p) * 2 ^ Z.pos p).
    + rewrite IH by nia. by apply IH.
    + replace (Z.pos p~0) with (Z.pos p + Z.pos p) by lia.
      rewrite !Z.pow_add_r by lia. ring.
  - change (2 ^ 1) with 2. rewrite Z.mul_comm. by apply shr_1_even.
Qed.

(** Rounding a mantissa whose bits beyond the 53rd are all zero drops those
    bits and nothing else. *)
Lemma round_exact (s : bool) (q : positive) (n E : Z) :
  0 <= n ->
  Z.pos (digits2_pos q) = 53 ->
  -1074 <= E + n <= 971 ->
  binary_round_aux prec emax s (Z.pos q * 2 ^ n) E loc_Exact =
  S754_finite s q (E + n).
Proof.
  intros Hn Hq HE.
  assert (Hdig : forall k, 0 <= k -> Zdigits2 (Z.pos q * 2 ^ k) = 53 + k).
  { intros k Hk. pose proof (digits_bounds q) as Hb. rewrite Hq in Hb.
    assert (0 < 2 ^ k) by (apply Z.pow_pos_nonneg; lia).
    destruct (Z.pos q * 2 ^ k) as [| r | r] eqn:Hr; try lia.
    cbn [Zdigits2]. apply digits_unique. rewrite <- Hr.
    replace (53 + k - 1) with (52 + k) by lia. rewrite !Z.pow_add_r by lia. nia. }
  unfold binary_round_aux, shr_fexp. rewrite (Hdig n Hn).
  unfold fexp, emin, prec, emax, shr_record_of_loc.
  replace (Z.max (53 + n + E - 53) (3 - 1024 - 53) - E) with n by lia.
  assert (Hsecond : forall r,
            shr {| shr_m := Z.pos q; shr_r := false; shr_s := false |} (E + n)
              (Z.max (Zdigits2 (Z.pos q) + (E + n) - 53) (3 - 1024 - 53) - (E + n)) = r ->
            r = ({| shr_m := Z.pos q; shr_r := false; shr_s := false |}, E + n)).
  { intros r <-. cbn [Zdigits2]. rewrite Hq.
    replace (Z.max (53 + (E + n) - 53) (3 - 1024 - 53) - (E + n)) with 0 by lia.
    reflexivity. }
  destruct n as [| p | p]; [| | lia].
  - rewrite Z.mul_1_r, Z.add_0_r in *. cbn [shr shr_m loc_of_shr_record round_nearest_even].
    rewrite (Hsecond _ eq_refl). cbn [shr_m].
    destruct (Z.leb_spec E (1024 - 53)); [done | lia].
  - cbn [shr]. rewrite shr_exact by lia.
    cbn [shr_m loc_of_shr_record round_nearest_even].
    rewrite (Hsecond _ eq_refl). cbn [shr_m].
    destruct (Z.leb_spec (E + Z.pos p) (1024 - 53)); [done | lia].
Qed.

Lemma mul_32768 (m : positive) (e : Z) :
  Z.pos (digits2_pos m) = 53 ->
  -1074 <= e <= -52 ->
  mul (S754_finite true m e) (of_Z 32768) = S754_finite true m (e + 15).
Proof.
  intros Hm He.
  change (of_Z 32768) with (S754_finite false 4503599627370496 (-37)).
  unfold mul, SFmul. cbn [xorb].
  replace (Z.pos (m * 4503599627370496)) with (Z.pos m * 2 ^ 52) by (by rewrite Pos2Z.inj_mul).
  rewrite (round_exact true m 52 (e + -37)) by lia. f_equal. lia.
Qed.

Lemma mul_32767 (m : positive) (e : Z) :
  Z.pos (digits2_pos m) = 53 ->
  Z.pos m mod 2 ^ 29 = 0 ->
  -1074 <= e <= -52 ->
  exists q n,
    mul (S754_finite false m e) (of_Z 32767) = S754_finite false q (e - 38 + n) /\
    (n = 52 \/ n = 53) /\
    Z.pos q * 2 ^ n = Z.pos m * 32767 * 2 ^ 38.
Proof.
  intros Hm Hsingle He.
  change (of_Z 32767) with (S754_finite false 9006924376834048 (-38)).
  unfold mul, SFmul. cbn [xorb].
  pose proof (digits_bounds m) as Hb. rewrite Hm in Hb.
  apply Z.mod_divide in Hsingle; [| lia]. destruct Hsingle as [a Ha].
  change (2 ^ (53 - 1)) with 4503599627370496 in Hb.
  change (2 ^ 53) with 9007199254740992 in Hb.
  change (2 ^ 29) with 536870912 in Ha.
  set (c := a * 32767).
  destruct (Z.lt_ge_cases c (2 ^ 38)) as [Hc | Hc].
  - (* 38 digits *)
    assert (Hq : 0 < c * 2 ^ 15) by (subst c; lia).
    destruct (c * 2 ^ 15) as [| q | q] eqn:Eq; try lia.
    exists q, 52.
    assert (Hdq : Z.pos (digits2_pos q) = 53).
    { apply digits_unique. rewrite <- Eq. subst c.
      change (2 ^ 38) with 274877906944 in Hc. change (2 ^ 15) with 32768.
      change (2 ^ (53 - 1)) with 4503599627370496.
      change (2 ^ 53) with 9007199254740992. lia. }
    replace (Z.pos (m * 9006924376834048)) with (Z.pos q * 2 ^ 52).
    + rewrite (round_exact false q 52 (e + -38)) by lia.
      split; [f_equal; lia |]. split; [by left |].
      rewrite <- Eq. subst c. rewrite Ha.
      change (2 ^ 15) with 32768. change (2 ^ 52) with 4503599627370496.
      change (2 ^ 38) with 274877906944. lia.
    + rewrite <- Eq, Pos2Z.inj_mul, Ha. subst c.
      change (2 ^ 15) with 32768. change (2 ^ 52) with 4503599627370496. lia.
  - (* 39 digits *)
    assert (Hq : 0 < c * 2 ^ 14) by (subst c; lia).
    destruct (c * 2 ^ 14) as [| q | q] eqn:Eq; try lia.
    exists q, 53.
    assert (Hdq : Z.pos (digits2_pos q) = 53).
    { apply digits_unique. rewrite <- Eq. subst c.
      change (2 ^ 38) with 274877906944 in Hc. change (2 ^ 14) with 16384.
      change (2 ^ (53 - 1)) with 4503599627370496.
      change (2 ^ 53) with 9007199254740992. lia. }
    replace (Z.pos (m * 9006924376834048)) with (Z.pos q * 2 ^ 53).
    + rewrite (round_exact false q 53 (e + -38)) by lia.
      split; [f_equal; lia |]. split; [by right |].
      rewrite <- Eq. subst c. rewrite Ha.
      change (2 ^ 14) with 16384. change (2 ^ 53) with 9007199254740992.
      change (2 ^ 38) with 274877906944. lia.
    + rewrite <- Eq, Pos2Z.inj_mul, Ha. subst c.
      change (2 ^ 14) with 16384. change (2 ^ 53) with 9007199254740992. lia.
Qed.

Lemma inside_clamp (s : bool) (m : positive) (e : Z) :
  e <= -53 -> spec_clamp (S754_finite s m e) = S754_finite s m e.
Proof.
  intros He. unfold spec_clamp, lt, SFltb, SFcompare.
  rewrite one_bits, minus_one_bits.
  assert (Hlt : IntDef.Z.compare e (-52) = Lt) by (apply Z.compare_lt_iff; lia).
  destruct s; cbn -[IntDef.Z.compare PosDef.Pos.compare_cont];
    rewrite ?(exponent_flip e (-52)), ?Hlt; reflexivity.
Qed.

Lemma shiftl_down (a e : Z) : e <= 0 -> Z.shiftl a e = a / 2 ^ (- e).
Proof.
  intros He. replace e with (- - e) at 1 by lia.
  rewrite Z.shiftl_opp_r. apply Z.shiftr_div_pow2. lia.
Qed.

Lemma sample_exact (s : bool) (m : positive) (e : Z) :
  Z.pos (digits2_pos m) = 53 ->
  Z.pos m mod 2 ^ 29 = 0 ->
  -1074 <= e ->
  e <= -53 \/ (m = 4503599627370496%positive /\ e = -52) ->
  ToInt16 (sample_value (S754_finite s m e)) = scaled (S754_finite s m e).
Proof.
  intros Hm Hsingle Hlow [He | [-> ->]]; [| destruct s; vm_compute; reflexivity].
  unfold sample_value. rewrite clamp_agrees, inside_clamp by done.
  replace (lt (S754_finite s m e) (of_Z 0)) with s by (by destruct s).
  pose proof (digits_bounds m) as Hb. rewrite Hm in Hb.
  change (2 ^ (53 - 1)) with 4503599627370496 in Hb.
  change (2 ^ 53) with 9007199254740992 in Hb.
  assert (Hpow : 9007199254740992 <= 2 ^ (- e)).
  { change 9007199254740992 with (2 ^ 53). apply Z.pow_le_mono_r; lia. }
  destruct s; unfold scaled.
  - rewrite mul_32768 by (done || lia). unfold ToInt16, truncate.
    rewrite shiftl_down by lia.
    replace (Z.pos m * 32768 / 2 ^ (- e)) with (Z.pos m / 2 ^ (- (e + 15))).
    + set (b := Z.pos m / 2 ^ (- (e + 15))).
      assert (Hb' : 0 <= b < 32768).
      { subst b. split; [apply Z.div_pos; lia |].
        apply Z.div_lt_upper_bound; [lia |].
        replace (- e) with (- (e + 15) + 15) in Hpow by lia.
        rewrite Z.pow_add_r in Hpow by lia. change (2 ^ 15) with 32768 in Hpow. lia. }
      clearbody b. pose proof (Z.mod_pos_bound (- b) 65536 eq_refl) as Hr.
      pose proof (Z.div_mod (- b) 65536) as Hdiv.
      destruct (Z.geb_spec ((- b) mod 65536) 32768); lia.
    + replace (- e) with (15 + - (e + 15)) by lia.
      rewrite Z.pow_add_r by lia. change (2 ^ 15) with 32768.
      rewrite (Z.mul_comm (Z.pos m)). rewrite Z.div_mul_cancel_l; lia.
  - destruct (mul_32767 m e) as (q & n & Hmul & Hn & Hq); [done | done | lia |].
    rewrite Hmul. unfold ToInt16, truncate.
    rewrite shiftl_down by lia.
    assert (Hsame : Z.pos q / 2 ^ (- (e - 38 + n)) = Z.pos m * 32767 / 2 ^ (- e)).
    { replace (- e) with ((n - 38) + - (e - 38 + n)) by lia.
      rewrite Z.pow_add_r by lia.
      replace (Z.pos m * 32767) with (2 ^ (n - 38) * Z.pos q).
      - rewrite Z.div_mul_cancel_l; lia.
      - change (2 ^ 38) with 274877906944 in Hq.
        destruct Hn as [-> | ->]; cbn in Hq |- *; lia. }
    rewrite Hsame.
    set (v := Z.pos m * 32767 / 2 ^ (- e)).
    assert (Hv : 0 <= v < 32767).
    { subst v. split; [apply Z.div_pos; lia |].
      apply Z.div_lt_upper_bound; lia. }
    clearbody v. rewrite Z.mod_small by lia.
    destruct (Z.geb_spec v 32768); lia.
Qed.

Example half_samples :
  ToInt16 (sample_value (S754_finite false 4503599627370496 (-53))) = 16383 /\
  ToInt16 (sample_value (S754_finite true 4503599627370496 (-53))) = -16384.
Proof. split; reflexivity. Qed.

(** The same for every sample [short_sample] accepts. *)
Lemma short_sample_exact (x : number) :
  short_sample x = true -> ToInt16 (sample_value x) = scaled x.
Proof.
  destruct x as [s | s | | s m e]; cbn [short_sample]; try done.
  - by destruct s.
  - intros H.
    apply andb_prop in H as [H Hrange]. apply andb_prop in H as [H Hlow].
    apply andb_prop in H as [Hm Hsingle].
    apply Z.eqb_eq in Hm. apply Z.eqb_eq in Hsingle. apply Z.leb_le in Hlow.
    apply sample_exact; try done.
    apply orb_prop in Hrange as [He | H]; [left; by apply Z.leb_le |].
    apply andb_prop in H as [Hone He].
    apply Z.eqb_eq in Hone. apply Z.eqb_eq in He. right. split; [congruence | done].
Qed.



End PcmFacts.

(** ** The service *)

Module LiveFacts.
Import Live.

Section Facts.

Variable decodeBase64 : string -> Error + list Z.
Variable decodeAudioData : list Z -> Error + AudioBuffer.
Variable platform : Pcm.endianness.

Local Abbreviation handle := (Live.handle decodeBase64 decodeAudioData platform).
Local Abbreviation step := (Live.step decodeBase64 decodeAudioData platform).
Local Abbreviation run := (Live.run decodeBase64 decodeAudioData platform).
Local Abbreviation reachable := (Live.reachable decodeBase64 decodeAudioData platform).
Local Abbreviation handleMessage := (Live.handleMessage decodeBase64 decodeAudioData).
Local Abbreviation onaudioprocess := (Live.onaudioprocess platform).
Local Abbreviation outcomes := (Live.outcomes decodeBase64 decodeAudioData platform).
Local Abbreviation carries := (Live.carries decodeBase64 decodeAudioData).
Local Abbreviation delivered := (Live.delivered decodeBase64 decodeAudioData).
Local Abbreviation handleAudio := (Live.handleAudio decodeBase64 decodeAudioData).

(** Unfolds the statements of a method down to the world they yield. *)
Ltac exec :=
  cbv beta iota delta
    [bind ret throw try_catch gets browse assign update emit suspend lift when
     log new_AudioContext context_currentTime context_state context_close
     context_resume createGain gain_setValue createPlainNode createBufferSource
     source_start new_MediaStream new_Session session_close session_send
     stream_stopTracks with_this with_browser with_trace with_tasks fst snd].

(** Splits on whether a callback was passed in. *)
Ltac split_callbacks :=
  match goal with
  | |- context [if ?f ?cb then _ else _] =>
      match type of cb with
      | LiveServiceCallbacks => destruct (f cb) eqn:?
      end
  end.

Ltac exec_all := exec; cbn; repeat (split_callbacks; exec; cbn).

Local Arguments Live.handleAudio : simpl never.
Local Arguments Live.handleText : simpl never.
Local Arguments Live.handleInterruption : simpl never.
Local Arguments Live.stopAll : simpl never.
Local Arguments Live.disconnect : simpl never.
Local Arguments Live.stop_sources : simpl never.

(** Opens a world up into its fields. *)
Ltac open_world w :=
  let t := fresh "svc" in
  let b := fresh "br" in
  destruct w as [t b ? ?]; destruct t; destruct b.

(** *** Stopping the active sources *)

Lemma forEach_stop (active : list nat) (w : World) :
  forEach active (fun s => try_catch (source_stop s) (fun _ => ret tt)) w =
  (Normal tt, with_browser (fun b => set_sources (stop_sources active (sources b)) b) w).
Proof.
  revert w. induction active as [| n active IH]; intros w.
  - open_world w. reflexivity.
  - cbn [forEach]. unfold bind at 1.
    assert (Hone : try_catch (source_stop n) (fun _ => ret tt) w =
              (Normal tt, with_browser (fun b => set_sources (stop_one (sources b) n) b) w)).
    { open_world w. unfold source_stop, stop_one. exec. cbn.
      match goal with |- context [?l !! n] => destruct (l !! n) as [nd |] end;
        [| reflexivity].
      destruct (startedAt nd); reflexivity. }
    rewrite Hone, IH. open_world w. reflexivity.
Qed.

Lemma stopAll_spec (w : World) :
  stopAll w =
  (Normal tt,
   with_this (set_activeSources [])
     (with_browser
        (fun b => set_sources (stop_sources (activeSources (this w)) (sources b)) b) w)).
Proof.
  unfold stopAll. unfold bind at 1. unfold gets at 1.
  unfold bind at 1. rewrite forEach_stop. open_world w. reflexivity.
Qed.

Lemma length_stop_one srcs n : length (stop_one srcs n) = length srcs.
Proof.
  unfold stop_one. destruct (srcs !! n) as [nd |]; [| reflexivity].
  destruct (startedAt nd); [apply length_alter | reflexivity].
Qed.

Lemma length_stop_sources active srcs : length (stop_sources active srcs) = length srcs.
Proof.
  revert srcs. unfold stop_sources.
  induction active as [| n active IH]; intros srcs; [reflexivity |].
  cbn. rewrite IH. apply length_stop_one.
Qed.

(** A stop changes no start time and no buffer. *)
Lemma stop_one_lookup srcs n i :
  stop_one srcs n !! i =
  (fun nd => if bool_decide (i = n) && bool_decide (is_Some (startedAt nd))
             then mark_stopped nd else nd) <$> srcs !! i.
Proof.
  unfold stop_one. destruct (decide (i = n)) as [-> | Hne].
  - destruct (srcs !! n) as [nd |] eqn:Hn; [| by rewrite Hn].
    destruct (startedAt nd) as [t |] eqn:Ht.
    + rewrite list_lookup_alter_eq, Hn. cbn. rewrite Ht.
      by rewrite !bool_decide_eq_true_2 by eauto.
    + rewrite Hn. cbn. rewrite Ht.
      rewrite (bool_decide_eq_false_2 (is_Some None)) by (by intros [? ?]).
      by rewrite andb_false_r.
  - transitivity (srcs !! i).
    + destruct (srcs !! n) as [nd |]; [| done].
      destruct (startedAt nd); [| done]. by apply list_lookup_alter_ne.
    + destruct (srcs !! i) as [x |]; [| done]. cbn.
      by rewrite (bool_decide_eq_false_2 (i = n)) by done.
Qed.

(** *** One unit of audio *)

Lemma alter_last {A} (f : A -> A) (l : list A) (x : A) :
  alter f (length l) (l ++ [x]) = l ++ [f x].
Proof.
  rewrite alter_app_r_alt by lia. by rewrite Nat.sub_diag.
Qed.

(** What a playable payload does to the timeline: one more node, started at
    the cursor or at the clock if the cursor is behind it, and the cursor
    moved to its end. *)
Lemma handleAudio_delivers (w : World) msg b c g :
  audioContext (this w) = Some c ->
  gainNode (this w) = Some g ->
  carries msg b ->
  exists tr,
    handleAudio msg w =
    (Normal tt,
     {| this :=
          set_activeSources (activeSources (this w) ++ [length (sources (browser w))])
            (set_audioQueueNextStartTime (Z.max (cursor w) (now w) + duration b) (this w));
        browser :=
          set_sources
            (sources (browser w) ++
               [{| buffer := b; output := Some g;
                   startedAt := Some (Z.max (cursor w) (now w));
                   stopped := false; ended := false |}])
            (browser w);
        trace := tr;
        tasks := tasks w |}).
Proof.
  intros Hc Hg (Htruthy & bytes & Hbytes & Hbuf).
  open_world w. cbn in Hc, Hg. subst.
  unfold Live.handleAudio, cursor, now. rewrite Htruthy. exec_all;
    rewrite Hbytes, Hbuf; exec_all.
  all: match goal with
       | |- context [if ?a <? ?b then _ else _] => destruct (Z.ltb_spec a b)
       end; exec_all; rewrite ?alter_last.
  all: (rewrite Z.max_r by lia) || (rewrite Z.max_l by lia); eexists; reflexivity.
Qed.

Lemma step_delivered (w : World) msg b c g :
  audioContext (this w) = Some c ->
  gainNode (this w) = Some g ->
  carries msg b ->
  interrupted msg = false ->
  let start := Z.max (cursor w) (now w) in
  let w' := step w (ev_onmessage msg) in
  this w' =
    set_activeSources (activeSources (this w) ++ [length (sources (browser w))])
      (set_audioQueueNextStartTime (start + duration b) (this w)) /\
  browser w' =
    set_sources
      (sources (browser w) ++
         [{| buffer := b; output := Some g; startedAt := Some start;
             stopped := false; ended := false |}])
      (browser w) /\
  tasks w' = tasks w.
Proof.
  intros Hc Hg Hcar Hint. cbv zeta.
  unfold Live.step, Live.handle, Live.handleMessage, Live.handleInterruption,
    Live.handleText.
  rewrite Hint. open_world w. cbn in Hc, Hg. subst.
  exec_all.
  all: match goal with
       | H : carries ?m ?bf |- context [Live.handleAudio _ _ ?m ?w1] =>
           destruct (handleAudio_delivers w1 m bf _ _ eq_refl eq_refl H) as [tr ->]
       end.
  all: destruct (truthy (outputTranscription msg)); exec_all; by repeat split.
Qed.

(** *** Reachable worlds are well formed *)

Lemma handleAudio_cases (w : World) msg :
  exists tr,
    handleAudio msg w = (Normal tt, with_trace (fun _ => tr) w) \/
    exists c g b,
      audioContext (this w) = Some c /\ gainNode (this w) = Some g /\ carries msg b /\
      handleAudio msg w =
      (Normal tt,
       {| this :=
            set_activeSources (activeSources (this w) ++ [length (sources (browser w))])
              (set_audioQueueNextStartTime (Z.max (cursor w) (now w) + duration b) (this w));
          browser :=
            set_sources
              (sources (browser w) ++
                 [{| buffer := b; output := Some g;
                     startedAt := Some (Z.max (cursor w) (now w));
                     stopped := false; ended := false |}])
              (browser w);
          trace := tr;
          tasks := tasks w |}).
Proof.
  destruct (truthy (inlineData msg)) eqn:Htruthy.
  - destruct (audioContext (this w)) as [c |] eqn:Hc.
    + destruct (gainNode (this w)) as [g |] eqn:Hg.
      * destruct (decodeBase64 (default EmptyString (inlineData msg))) as [e | bytes] eqn:Hb.
        -- open_world w. cbn in Hc, Hg. subst. unfold Live.handleAudio.
           rewrite Htruthy. exec_all; rewrite Hb; exec_all.
           all: eexists; left; reflexivity.
        -- destruct (decodeAudioData bytes) as [e | b] eqn:Hd.
           ++ open_world w. cbn in Hc, Hg. subst. unfold Live.handleAudio.
              rewrite Htruthy. exec_all; rewrite Hb; exec_all; rewrite Hd; exec_all.
              all: eexists; left; reflexivity.
           ++ assert (Hcar : carries msg b) by (split; eauto).
              destruct (handleAudio_delivers w msg b c g Hc Hg Hcar) as [tr Htr].
              exists tr. right. exists c, g, b. auto.
      * open_world w. cbn in Hc, Hg. subst. unfold Live.handleAudio.
        rewrite Htruthy. exec_all.
        all: eexists; left; reflexivity.
    + open_world w. cbn in Hc. subst. unfold Live.handleAudio.
      rewrite Htruthy. exec_all.
        all: eexists; left; reflexivity.
  - open_world w. unfold Live.handleAudio. rewrite Htruthy. eexists; left; reflexivity.
Qed.

Lemma playing_lt srcs n : playing srcs n -> (n < length srcs)%nat.
Proof. intros (nd & Hn & _). by eapply lookup_lt_Some. Qed.

Lemma playing_app srcs extra n : playing srcs n -> playing (srcs ++ extra) n.
Proof.
  intros (nd & Hn & Hs). exists nd. split; [| done]. by apply lookup_app_l_Some.
Qed.

Lemma playing_new srcs b g t :
  playing (srcs ++ [{| buffer := b; output := g; startedAt := Some t;
                       stopped := false; ended := false |}]) (length srcs).
Proof.
  eexists. split; [apply list_lookup_middle; reflexivity |]. cbn. eauto.
Qed.

Lemma playing_alter_ne srcs f n m :
  n <> m -> playing srcs m -> playing (alter f n srcs) m.
Proof.
  intros Hne (nd & Hn & Hs). exists nd. split; [| done].
  by rewrite list_lookup_alter_ne.
Qed.

Lemma splice_first_subset n xs x : x ∈ splice_first n xs -> x ∈ xs.
Proof.
  induction xs as [| y xs IH]; cbn; [done |].
  destruct (Nat.eqb_spec y n) as [-> | Hne]; intros Hx.
  - by apply elem_of_cons; right.
  - apply elem_of_cons in Hx as [-> | Hx]; [by left | right; auto].
Qed.

Lemma splice_first_NoDup n xs : NoDup xs -> NoDup (splice_first n xs) /\ n ∉ splice_first n xs.
Proof.
  induction 1 as [| y xs Hy Hnd IH]; cbn; [split; [constructor | apply not_elem_of_nil] |].
  destruct (Nat.eqb_spec y n) as [-> | Hne]; [done |].
  destruct IH as [IH1 IH2]. split.
  - constructor; [| done]. intros Hin. apply Hy. by eapply splice_first_subset.
  - intros Hin. apply elem_of_cons in Hin as [-> | Hin]; [done | by apply IH2].
Qed.

(** Splits on a test the code makes whose outcome is not known. *)
Ltac split_stuck :=
  match goal with
  | |- context [match ?x with _ => _ end] =>
      lazymatch type of x with
      | bool => destruct x eqn:?
      | option _ => destruct x eqn:?
      | sum _ _ => destruct x eqn:?
      | ContextState => destruct x eqn:?
      | Task => destruct x eqn:?
      end
  end.

Ltac split_audio :=
  match goal with
  | |- context [Live.handleAudio _ _ ?m ?w1] =>
      let tr := fresh "tr" in
      destruct (handleAudio_cases w1 m) as [tr [-> | (? & ? & ? & ? & ? & ? & ->)]]
  end.

Ltac crunch :=
  exec; cbn;
  repeat (first [rewrite stopAll_spec | split_audio | split_stuck]; exec; cbn).

Ltac unfold_methods :=
  unfold Live.step, Live.handle, Live.resume,
    Live.connect, Live.connect_settled, Live.connect_catch, Live.startAudioInput,
    Live.startAudioInput_settled, Live.disconnect, Live.disconnect_input,
    Live.disconnect_input_settled, Live.disconnect_session,
    Live.disconnect_session_settled, Live.disconnect_output,
    Live.disconnect_output_settled, Live.mute, Live.sendVideoFrame,
    Live.onaudioprocess, Live.session_onopen, Live.session_onclose,
    Live.session_onerror, Live.startVisualizer, Live.onended, Live.can_end,
    Live.handleMessage, Live.handleText, Live.handleInterruption.

Ltac solve_valid :=
  unfold valid in *; cbn in *; intros ? ?;
  rewrite ?length_app, ?length_alter, ?length_insert, ?length_stop_sources;
  cbn; simplify_eq;
  repeat match goal with
         | H : forall r, Some ?x = Some r -> _ |- _ => specialize (H _ eq_refl)
         end;
  eauto with lia.

Lemma Forall_playing_app srcs extra active :
  Forall (playing srcs) active -> Forall (playing (srcs ++ extra)) active.
Proof. intros H. eapply Forall_impl; [exact H |]. intros n. apply playing_app. Qed.

Lemma NoDup_push srcs active :
  Forall (playing srcs) active -> NoDup active -> NoDup (active ++ [length srcs]).
Proof.
  intros Hp Hnd. apply NoDup_app. split; [done |]. split; [| apply NoDup_singleton].
  intros n Hn Hin. apply list_elem_of_singleton in Hin as ->.
  rewrite Forall_forall in Hp. apply Hp, playing_lt in Hn. lia.
Qed.

Lemma Forall_playing_splice srcs active n :
  Forall (playing srcs) active -> NoDup active ->
  Forall (playing (alter mark_ended n srcs)) (splice_first n active).
Proof.
  intros Hp Hnd. apply Forall_forall. intros m Hm.
  destruct (splice_first_NoDup n active Hnd) as [_ Hn].
  apply playing_alter_ne; [by intros -> |].
  rewrite Forall_forall in Hp. by apply Hp, (splice_first_subset n).
Qed.

Ltac solve_active :=
  cbn in *;
  first
    [ assumption
    | by constructor
    | apply Forall_app; split;
      [by apply Forall_playing_app | repeat constructor; apply playing_new]
    | by apply Forall_playing_app
    | by apply NoDup_push
    | by apply Forall_playing_splice
    | by apply splice_first_NoDup ].

Ltac solve_wf := constructor; [solve_valid.. | solve_active | solve_active].

Lemma step_wf (w : World) (e : Event) : wf w -> wf (step w e).
Proof.
  intros [H1 H2 H3 H4 H5 H6 H7].
  destruct e; unfold_methods; open_world w; cbn in *; crunch.
  all: solve_wf.
Qed.

Lemma boot_wf cb : wf (boot cb).
Proof. constructor; cbn; try done; constructor. Qed.

Lemma run_wf (w : World) (es : list Event) : wf w -> wf (run w es).
Proof.
  revert w. induction es as [| e es IH]; intros w Hw; [done |].
  cbn. apply IH. by apply step_wf.
Qed.

(** Every reachable world is well formed. *)
Lemma reachable_wf (w : World) : reachable w -> wf w.
Proof. intros (cb & es & ->). apply run_wf, boot_wf. Qed.

Lemma reachable_run (w : World) (es : list Event) : reachable w -> reachable (run w es).
Proof.
  intros (cb & es0 & ->). exists cb, (es0 ++ es).
  unfold Live.run. by rewrite fold_left_app.
Qed.

(** *** Schedules laid end to end *)

Lemma back_to_back_starts t ds j b :
  Forall (fun d => 0 <= d) ds -> back_to_back t ds !! j = Some b -> t <= b.1.
Proof.
  intros Hds. revert t j. induction Hds as [| d ds Hd Hds IH]; intros t j; [done |].
  destruct j as [| j]; cbn.
  - intros [= <-]. cbn. lia.
  - intros Hj. apply IH in Hj. lia.
Qed.

Lemma back_to_back_contiguous t ds : contiguous (back_to_back t ds).
Proof.
  revert t. induction ds as [| d ds IH]; intros t i a b; [done |].
  destruct i as [| i]; cbn.
  - intros [= <-]. destruct ds; cbn; [done |]. by intros [= <-].
  - apply IH.
Qed.

Lemma back_to_back_no_overlap t ds :
  Forall (fun d => 0 <= d) ds -> no_overlap (back_to_back t ds).
Proof.
  intros Hds. revert t. induction Hds as [| d ds Hd Hds IH]; intros t i j a b Hij; [done |].
  destruct j as [| j]; [lia |]. destruct i as [| i]; cbn.
  - intros [= <-] Hb. cbn. by eapply back_to_back_starts.
  - apply IH. lia.
Qed.

Lemma back_to_back_span t ds : span (back_to_back t ds) = total ds.
Proof.
  unfold span. destruct ds as [| d ds]; [done |]. cbn [back_to_back].
  assert (H : forall t0 d0, exists x,
            last ((t0, d0) :: back_to_back (t0 + d0) ds) = Some x /\
            x.1 + x.2 = t0 + d0 + total ds).
  { induction ds as [| d' ds IH]; intros t0 d0.
    - exists (t0, d0). cbn. split; [done | lia].
    - destruct (IH (t0 + d0) d') as (x & Hx & Hsum).
      exists x. cbn [back_to_back]. rewrite last_cons_cons. split; [done |].
      unfold total in *. cbn. lia. }
  destruct (H t d) as (x & -> & Hx). unfold total in *. cbn. lia.
Qed.

Lemma durations_nonneg us : Forall (fun d => 0 <= d) (durations us).
Proof.
  unfold Live.durations. apply Forall_forall. intros d Hd.
  apply list_elem_of_fmap in Hd as (u & -> & _). unfold duration. lia.
Qed.

(** *** Runs of timely units *)

Lemma scheduled_push (w w' : World) nd :
  sources (browser w') = sources (browser w) ++ [nd] ->
  scheduled w' =
  scheduled w ++ match startedAt nd with
                 | Some t => [(t, duration (buffer nd))]
                 | None => []
                 end.
Proof.
  intros H. unfold scheduled. rewrite H, omap_app. cbn.
  by destruct (startedAt nd).
Qed.

Lemma step_clock (w : World) c frames :
  audioContext (this w) = Some c ->
  (c < length (contexts (browser w)))%nat ->
  let w' := step w (ev_clock c frames) in
  now w' = now w + Z.of_N frames /\
  this w' = this w /\
  sources (browser w') = sources (browser w) /\
  length (contexts (browser w')) = length (contexts (browser w)).
Proof.
  intros Hc Hlt. open_world w. cbn in *. subst. unfold now. cbn.
  rewrite list_lookup_alter_eq, length_alter.
  destruct (lookup_lt_is_Some_2 _ _ Hlt) as [x ->]. by cbn.
Qed.

Lemma run_timely (us : list Unit) (w : World) c g :
  audioContext (this w) = Some c ->
  gainNode (this w) = Some g ->
  (c < length (contexts (browser w)))%nat ->
  Forall delivered us ->
  timely (now w) (cursor w) us ->
  let w' := run w (arrivals c us) in
  scheduled w' = scheduled w ++ back_to_back (cursor w) (durations us) /\
  cursor w' = cursor w + total (durations us) /\
  Forall2 (fun t unit => t <= unit.1)
    (arrival_times (now w) us) (back_to_back (cursor w) (durations us)).
Proof.
  revert w. induction us as [| u us IH]; intros w Hc Hg Hlt Hdel Htimely.
  - cbn. rewrite app_nil_r. split; [done |]. split; [unfold total; cbn; lia | constructor].
  - apply Forall_cons in Hdel as [[Hcar Hint] Hdel]. destruct Htimely as [Hle Htimely].
    cbn [arrivals flat_map app Live.run fold_left].
    destruct (step_clock w c (delay u) Hc Hlt) as (Hnow & Hthis & Hsrc & Hlen).
    set (w1 := step w (ev_clock c (delay u))) in *.
    assert (Hc1 : audioContext (this w1) = Some c) by (by rewrite Hthis).
    assert (Hg1 : gainNode (this w1) = Some g) by (by rewrite Hthis).
    destruct (step_delivered w1 _ _ c g Hc1 Hg1 Hcar Hint) as (Hthis2 & Hbr2 & _).
    set (w2 := step w1 (ev_onmessage (message_of u))) in *.
    clearbody w2. clearbody w1.
    assert (Hcur1 : cursor w1 = cursor w) by (unfold cursor; by rewrite Hthis).
    assert (Hmax : Z.max (cursor w1) (now w1) = cursor w) by lia.
    rewrite Hmax in Hthis2, Hbr2.
    assert (Hcur2 : cursor w2 = cursor w + duration (decoded u))
      by (unfold cursor at 1; by rewrite Hthis2).
    assert (Hnow2 : now w2 = now w + Z.of_N (delay u)).
    { rewrite <- Hnow. unfold now. rewrite Hthis2, Hbr2. cbn. by rewrite Hc1. }
    assert (Hsch2 : scheduled w2 = scheduled w ++ [(cursor w, duration (decoded u))]).
    { rewrite (scheduled_push w1 w2 _ ltac:(rewrite Hbr2; reflexivity)). cbn.
      unfold scheduled. by rewrite Hsrc. }
    destruct (IH w2) as (Hs & Hcu & Hf).
    + by rewrite Hthis2.
    + by rewrite Hthis2.
    + rewrite Hbr2. cbn. lia.
    + done.
    + by rewrite Hnow2, Hcur2.
    + fold (arrivals c us). fold (run w2 (arrivals c us)).
      rewrite Hs, Hcu, Hsch2, Hcur2, <- app_assoc.
      rewrite Hnow2, Hcur2 in Hf. unfold Live.durations, total in *. cbn.
      split; [done |]. split; [lia |]. constructor; [cbn; lia | done].
Qed.


(** *** After an interruption *)

Lemma ticking_alter t0 c ctxs f n :
  (forall x, currentTime x <= currentTime (f x)) ->
  ticking t0 c ctxs -> ticking t0 c (alter f n ctxs).
Proof.
  intros Hf (x & Hx & Hle). destruct (decide (n = c)) as [-> | Hne].
  - exists (f x). rewrite list_lookup_alter_eq, Hx. split; [done |].
    specialize (Hf x). lia.
  - exists x. by rewrite list_lookup_alter_ne.
Qed.

Lemma ticking_app t0 c ctxs extra : ticking t0 c ctxs -> ticking t0 c (ctxs ++ extra).
Proof. intros (x & Hx & Hle). exists x. split; [by apply lookup_app_l_Some | done]. Qed.

Lemma ticking_now t0 c ctxs :
  ticking t0 c ctxs -> t0 <= default 0 (currentTime <$> ctxs !! c).
Proof. intros (x & -> & Hle). done. Qed.

Lemma late_alter t0 from srcs f n :
  (forall nd, startedAt (f nd) = startedAt nd) ->
  late t0 from srcs -> late t0 from (alter f n srcs).
Proof.
  intros Hf Hl i nd t Hi Hnd Ht. destruct (decide (n = i)) as [-> | Hne].
  - rewrite list_lookup_alter_eq in Hnd.
    destruct (srcs !! i) as [nd0 |] eqn:H0; [| done]. cbn in Hnd. simplify_eq.
    rewrite Hf in Ht. by eapply Hl.
  - rewrite list_lookup_alter_ne in Hnd by done. by eapply Hl.
Qed.

Lemma late_stop_one t0 from srcs n : late t0 from srcs -> late t0 from (stop_one srcs n).
Proof.
  intros Hl. unfold stop_one. destruct (srcs !! n) as [nd |]; [| done].
  destruct (startedAt nd); [| done]. by apply late_alter.
Qed.

Lemma late_stop_sources t0 from active srcs :
  late t0 from srcs -> late t0 from (stop_sources active srcs).
Proof.
  unfold stop_sources. revert srcs.
  induction active as [| n active IH]; intros srcs Hl; [done |].
  cbn. by apply IH, late_stop_one.
Qed.

Lemma late_push t0 from srcs nd :
  (forall t, startedAt nd = Some t -> t0 <= t) ->
  late t0 from srcs -> late t0 from (srcs ++ [nd]).
Proof.
  intros Hnd Hl i x t Hi Hx Ht. apply lookup_app_Some in Hx as [Hx | [_ Hx]].
  - by eapply Hl.
  - apply list_lookup_singleton_Some in Hx as [_ <-]. by apply Hnd.
Qed.

Ltac solve_since :=
  constructor; cbn in *;
  [ repeat match goal with
           | H : _ \/ _ |- _ => destruct H
           end; simplify_eq; (by left) || (by right)
  | repeat first [ assumption
                 | apply ticking_app
                 | apply ticking_alter;
                   [intros [? ? st]; try destruct st; cbn; lia |] ]
  | repeat match goal with
           | H : _ \/ _ |- _ => destruct H
           | H : ticking _ _ _ |- _ => apply ticking_now in H
           end; simplify_eq; cbn in *; unfold duration; try lia
  | repeat first [ assumption
                 | apply late_stop_sources
                 | apply late_alter; [by intros [] |]
                 | apply late_push;
                   [cbn; intros ? ?; simplify_eq;
                    repeat match goal with
                           | H : _ \/ _ |- _ => destruct H
                           | H : ticking _ _ _ |- _ => apply ticking_now in H
                           end; simplify_eq; cbn in *; unfold duration; try lia |] ] ].

Lemma step_since t0 c from (w : World) (e : Event) :
  same_device e -> since t0 c from w -> since t0 c from (step w e).
Proof.
  intros He [H1 H2 H3 H4].
  destruct e; [done |..]; unfold_methods; open_world w; cbn in *; crunch.
  all: solve_since.
Qed.

Lemma run_since t0 c from (w : World) (es : list Event) :
  Forall same_device es -> since t0 c from w -> since t0 c from (run w es).
Proof.
  revert w. induction es as [| e es IH]; intros w Hes Hw; [done |].
  apply Forall_cons in Hes as [He Hes]. cbn. apply IH; [done |]. by apply step_since.
Qed.

(** A stop marks a playing node as stopped, and what is stopped stays so. *)
Lemma stop_one_halts srcs n : playing srcs n -> halted (stop_one srcs n) n.
Proof.
  intros (nd & Hn & [t Ht] & He). exists (mark_stopped nd).
  rewrite stop_one_lookup, Hn. cbn. rewrite Ht.
  rewrite !bool_decide_eq_true_2 by eauto. cbn. by rewrite He.
Qed.

Lemma stop_one_playing srcs n i : playing srcs i -> playing (stop_one srcs n) i.
Proof.
  intros (nd & Hn & Hs & He). unfold playing. rewrite stop_one_lookup, Hn. cbn.
  eexists. split; [done |]. by destruct (_ && _).
Qed.

Lemma stop_one_halted srcs n i : halted srcs i -> halted (stop_one srcs n) i.
Proof.
  intros (nd & Hn & Hs). unfold halted. rewrite stop_one_lookup, Hn. cbn.
  eexists. split; [done |]. destruct (_ && _); [| done]. cbn. rewrite Hs. apply orb_true_r.
Qed.

Lemma stop_sources_halted active srcs i : halted srcs i -> halted (stop_sources active srcs) i.
Proof.
  unfold stop_sources. revert srcs.
  induction active as [| n active IH]; intros srcs H; [done |].
  cbn. by apply IH, stop_one_halted.
Qed.

Lemma stop_sources_halts active srcs n :
  n ∈ active -> playing srcs n -> halted (stop_sources active srcs) n.
Proof.
  unfold stop_sources. revert srcs.
  induction active as [| m active IH]; intros srcs Hin Hp; [by apply elem_of_nil in Hin |].
  cbn. apply elem_of_cons in Hin as [-> | Hin].
  - by apply (stop_sources_halted active), stop_one_halts.
  - by apply IH, stop_one_playing.
Qed.

Lemma handleInterruption_spec (w : World) msg c :
  interrupted msg = true ->
  audioContext (this w) = Some c ->
  exists tr,
    Live.handleInterruption msg w =
    (Normal tt,
     {| this := set_audioQueueNextStartTime (now w) (set_activeSources [] (this w));
        browser :=
          set_sources (stop_sources (activeSources (this w)) (sources (browser w)))
            (browser w);
        trace := tr;
        tasks := tasks w |}).
Proof.
  intros Hint Hc. unfold Live.handleInterruption, now. rewrite Hint.
  open_world w. cbn in Hc. subst. crunch; eexists; reflexivity.
Qed.

Lemma late_beyond t0 srcs : late t0 (length srcs) srcs.
Proof.
  intros i nd t Hi Hnd _. apply lookup_lt_Some in Hnd. lia.
Qed.

Lemma halted_fresh srcs active b g t n :
  (length srcs <= n < length srcs + 1)%nat ->
  halted
    (stop_sources (active ++ [length srcs])
       (srcs ++ [{| buffer := b; output := g; startedAt := Some t;
                    stopped := false; ended := false |}])) n.
Proof.
  intros Hn. assert (n = length srcs) as -> by lia.
  apply stop_sources_halts; [apply elem_of_app; right; by left | apply playing_new].
Qed.


(** *** Teardown *)

Lemma lookup_end {A} (l : list A) : l !! length l = None.
Proof. by apply lookup_ge_None_2. Qed.

Lemma delete_end {A} (l : list A) (x : A) : delete (length l) (l ++ [x]) = l.
Proof. by rewrite delete_middle, app_nil_r. Qed.

Lemma when_emit (b : bool) (e : Effect) (w : World) :
  when b
    (fun v : World =>
       (Normal tt,
        {| this := this v; browser := browser v; trace := trace v ++ [e];
           tasks := tasks v |})) w =
  (Normal tt,
   {| this := this w; browser := browser w;
      trace := trace w ++ (if b then [e] else []); tasks := tasks w |}).
Proof.
  destruct b; unfold when, ret; [done |]. destruct w. cbn. by rewrite app_nil_r.
Qed.

(** As [exec], but a guarded effect is kept as one step. *)
Ltac exec_guarded :=
  cbv beta iota delta
    [bind ret throw try_catch gets browse assign update emit suspend lift
     log new_AudioContext context_currentTime context_state context_close
     context_resume createGain gain_setValue createPlainNode createBufferSource
     source_start new_MediaStream new_Session session_close session_send
     stream_stopTracks with_this with_browser with_trace with_tasks fst snd].

Ltac crunch_tasks :=
  exec_guarded; cbn;
  repeat (first [ rewrite when_emit
                | rewrite list_lookup_middle by reflexivity
                | rewrite delete_end
                | rewrite lookup_end
                | rewrite stopAll_spec ]; exec_guarded; cbn).

(** Runs the innermost handler of the goal on the world it is applied to. *)
Ltac eval_handle :=
  match goal with
  | |- context [Live.handle ?a ?b ?p ?e (Build_World ?t ?br ?tr ?tk)] =>
      let H := fresh "Hstep" in
      eassert (H : Live.handle a b p e (Build_World t br tr tk) = _);
      [ unfold_methods; crunch_tasks; reflexivity
      | rewrite !H; clear H; cbn [fst snd] ]
  end.

Lemma context_closed_alter ctxs n c :
  context_closed ctxs c -> context_closed (alter (set_state closed) n ctxs) c.
Proof.
  intros (x & Hx & Hs). destruct (decide (n = c)) as [-> | Hne].
  - exists (set_state closed x). by rewrite list_lookup_alter_eq, Hx.
  - exists x. by rewrite list_lookup_alter_ne.
Qed.

Lemma context_closed_here ctxs c :
  (c < length ctxs)%nat -> context_closed (alter (set_state closed) c ctxs) c.
Proof.
  intros Hlt. destruct (lookup_lt_is_Some_2 _ _ Hlt) as [x Hx].
  exists (set_state closed x). by rewrite list_lookup_alter_eq, Hx.
Qed.

Lemma stream_stopped_here sts st :
  (st < length sts)%nat ->
  stream_stopped
    (alter (fun m => {| tracks := map (fun _ => false) (tracks m) |}) st sts) st.
Proof.
  intros Hlt. destruct (lookup_lt_is_Some_2 _ _ Hlt) as [m Hm].
  eexists. rewrite list_lookup_alter_eq, Hm. split; [done |]. cbn.
  apply Forall_forall. intros b Hb. by apply list_elem_of_fmap in Hb as (? & -> & _).
Qed.

Lemma session_closed_here ses s :
  (s < length ses)%nat -> session_closed (<[s := {| isOpen := false |}]> ses) s.
Proof.
  intros Hlt. eexists. by rewrite list_lookup_insert_eq.
Qed.

Ltac solve_released :=
  constructor; cbn in *; intros ? ?; simplify_eq;
  repeat match goal with
         | H : valid (Some ?x) _ |- _ => specialize (H _ eq_refl)
         end;
  first
    [ by apply stop_sources_halts;
        [| match goal with H : Forall _ _ |- _ => rewrite Forall_forall in H; by apply H end]
    | by apply stream_stopped_here
    | by apply session_closed_here
    | repeat first [ by (apply context_closed_here; rewrite ?length_alter)
                   | apply context_closed_alter ] ].

Lemma teardown_releases (w : World) r1 r2 r3 :
  wf w ->
  let w' := run w (teardown r1 r2 r3 w) in
  Forall (fun c => c = Normal tt) (outcomes w (teardown r1 r2 r3 w)) /\
  torn_down (this w') /\
  released w w' /\
  tasks w' = tasks w /\
  handle ev_disconnect w' = (Normal tt, w').
Proof.
  intros [H1 H2 H3 H4 H5 H6 H7]. unfold teardown, Live.run, Live.outcomes.
  cbn [fold_left]. unfold Live.step. open_world w. cbn in H1, H2, H3, H4, H5, H6, H7.
  cbn [tasks].
  destruct inputMediaStream0, inputAudioContext0, session0, audioContext0.
  all: repeat eval_handle.
  all: (split; [by repeat constructor |]).
  all: (split; [by constructor |]).
  all: (split; [solve_released |]).
  all: (split; [done |]).
  all: unfold_methods; crunch_tasks; reflexivity.
Qed.

Lemma wf_ext (w v : World) : this v = this w -> browser v = browser w -> wf w -> wf v.
Proof.
  intros Ht Hb [H1 H2 H3 H4 H5 H6 H7]. constructor; rewrite ?Ht, ?Hb; assumption.
Qed.

Lemma released_ext (w v w' : World) : this v = this w -> released v w' -> released w w'.
Proof.
  intros Ht [H1 H2 H3 H4 H5]. rewrite Ht in *. by constructor.
Qed.

(** No segment of [disconnect] throws, whatever the world and whatever the
    outcome of what it awaited. *)
Lemma disconnect_total (w : World) :
  fst (handle ev_disconnect w) = Normal tt /\
  forall k r,
    tasks w !! k ∈ [Some AwaitInputClose; Some AwaitSessionClose; Some AwaitOutputClose] ->
    fst (handle (ev_settle k r) w) = Normal tt.
Proof.
  split.
  - unfold_methods. open_world w. by crunch.
  - intros k r Hk. cbn [Live.handle].
    destruct (tasks w !! k) as [t |] eqn:Ht; [| done].
    destruct t;
      try (exfalso; repeat (apply elem_of_cons in Hk as [Hk | Hk]; [discriminate |]);
           by apply elem_of_nil in Hk).
    all: unfold_methods; open_world w; by crunch.
Qed.

Lemma app_suffix_step {A} (xs ys zs suffix : list A) :
  ys = zs ++ suffix -> xs ++ ys = (xs ++ zs) ++ suffix.
Proof. intros ->. by rewrite app_assoc. Qed.

Lemma app_suffix_base {A} (suffix : list A) : suffix = [] ++ suffix.
Proof. done. Qed.

(** C5, as the code has it. Called in any reachable world, [disconnect]
    throws nothing, in none of its segments and whatever the closes it
    awaits come to. When those settle before anything else runs, the
    service is left holding nothing: not connected, no active source, no
    stream, no context, no session; what it held when called is released:
    the active sources stopped, the tracks of the microphone stream
    stopped, both contexts and the session closed; the methods that were
    suspended before the call are still suspended (a connect in flight is
    not cancelled); and a further call changes nothing at all. *)
Theorem disconnect_releases_what_is_held (w : World) r1 r2 r3 :
  reachable w ->
  let w' := run w (teardown r1 r2 r3 w) in
  Forall (fun c => c = Normal tt) (outcomes w (teardown r1 r2 r3 w)) /\
  torn_down (this w') /\
  released w w' /\
  tasks w' = tasks w /\
  handle ev_disconnect w' = (Normal tt, w').
Proof.
  intros Hreach. by apply teardown_releases, reachable_wf.
Qed.

(** C9. When [connect] fails with [e], in the audio setup or because the
    channel cannot be established, nothing is thrown to the caller; the
    failure is logged, the error callback (if there is one) is called with
    [e] and [disconnect] is called next, in a world [mid] that holds what
    the failed connect held; once the closes it awaits have settled the
    service holds nothing and what the partial connect had acquired is
    released, no session among it. *)
Theorem connect_failure_tears_down (w : World) (ev : Event) (e : Error) r1 r2 r3 :
  reachable w ->
  connect_fails w ev e ->
  exists mid,
    handle ev w = handle ev_disconnect mid /\
    fst (handle ev w) = Normal tt /\
    this mid = this w /\
    browser mid = browser w /\
    (exists logged,
       trace mid = trace w ++ logged ++
                   (if onError (callbacks (this w)) then [call_onError e] else []) /\
       forall x, call_onError x ∉ logged) /\
    let w' := run mid (teardown r1 r2 r3 mid) in
    Forall (fun c => c = Normal tt) (outcomes mid (teardown r1 r2 r3 mid)) /\
    torn_down (this w') /\
    released w w'.
Proof.
  intros Hreach Hfail. apply reachable_wf in Hreach.
  assert (Hmid : exists mid,
            handle ev w = handle ev_disconnect mid /\
            this mid = this w /\ browser mid = browser w /\
            exists logged,
              trace mid = trace w ++ logged ++
                          (if onError (callbacks (this w)) then [call_onError e] else []) /\
              forall x, call_onError x ∉ logged).
  { destruct Hfail as [(i & -> & Hnext) | (k & -> & Hk)].
    - open_world w. cbn in Hnext. subst.
      unfold Live.handle, Live.connect, Live.connect_catch.
      exec_guarded; cbn; rewrite !when_emit; exec_guarded; cbn;
        rewrite !when_emit; exec_guarded; cbn.
      eexists. split; [reflexivity |]. cbn. split; [done |]. split; [done |].
      rewrite <- !app_assoc.
      eexists. split; [f_equal; repeat apply app_suffix_step; apply app_suffix_base |].
      intros x Hx. destruct (onLog callbacks0); cbn in Hx;
        repeat (apply elem_of_cons in Hx as [Hx | Hx]; [discriminate |]);
        by apply elem_of_nil in Hx.
    - open_world w. cbn in Hk.
      unfold Live.handle. cbn [tasks]. rewrite Hk.
      unfold Live.resume, Live.connect_settled, Live.connect_catch.
      exec_guarded; cbn; rewrite !when_emit; exec_guarded; cbn.
      eexists. split; [reflexivity |]. cbn. split; [done |]. split; [done |].
      rewrite <- !app_assoc.
      eexists. split; [f_equal; repeat apply app_suffix_step; apply app_suffix_base |].
      intros x Hx. destruct (onLog callbacks0); cbn in Hx;
        repeat (apply elem_of_cons in Hx as [Hx | Hx]; [discriminate |]);
        by apply elem_of_nil in Hx. }
  destruct Hmid as (mid & Heq & Hthis & Hbr & Htrace).
  exists mid. split; [done |]. split; [rewrite Heq; apply disconnect_total |].
  split; [done |]. split; [done |]. split; [done |].
  destruct (teardown_releases mid r1 r2 r3 (wf_ext w mid Hthis Hbr Hreach))
    as (Hout & Htd & Hrel & _).
  split; [done |]. split; [done |]. by apply (released_ext w mid).
Qed.

(** C6. While the channel is not open (the service is not connected, or
    holds no session) the handler of a microphone window returns at once:
    the world is left as it was, so nothing is sent, kept or scheduled for
    a retry. *)
Theorem closed_channel_drops_chunk (w : World) inputData fault :
  isConnected (this w) = false \/ session (this w) = None ->
  onaudioprocess inputData fault w = (Normal tt, w).
Proof.
  intros H. unfold Live.onaudioprocess. exec.
  destruct H as [-> | ->]; [reflexivity |].
  destruct (isConnected (this w)); reflexivity.
Qed.

(** C4. [mute] never fails and leaves the fields of the service (cursor and
    active set among them), every source node with its start time, the
    clock reading, the streams, the sessions, the trace and the suspended
    methods as they were: it sets the gain and, when it unmutes a suspended
    context, resumes that context. *)
Theorem mute_transparent (w : World) (muted : bool) :
  let w' := snd (mute muted w) in
  fst (mute muted w) = Normal tt /\
  this w' = this w /\
  cursor w' = cursor w /\
  activeSources (this w') = activeSources (this w) /\
  sources (browser w') = sources (browser w) /\
  scheduled w' = scheduled w /\
  now w' = now w /\
  streams (browser w') = streams (browser w) /\
  sessions (browser w') = sessions (browser w) /\
  trace w' = trace w /\
  tasks w' = tasks w.
Proof.
  unfold mute, scheduled, cursor, now. exec.
  destruct (gainNode (this w)) as [g|]; [| by repeat split].
  destruct (audioContext (this w)) as [c|] eqn:Hc; [| rewrite ?Hc; by repeat split].
  destruct muted; cbn; rewrite ?Hc; [by repeat split |].
  destruct (contexts (browser w) !! c) as [x |] eqn:Hx; cbn.
  - destruct (state x) eqn:Hst; cbn; rewrite ?Hc, ?list_lookup_alter_eq, ?Hx; cbn;
      rewrite ?Hst; by repeat split.
  - cbn. rewrite ?Hc, ?Hx. by repeat split.
Qed.

(** C7. When [getUserMedia] rejects, the suspended [startAudioInput]
    resumes into its own handler: nothing is thrown, the fields of the
    service and the browser are untouched (the session stays, no teardown
    starts), and the only effect is the logged notice; the error callback
    is not called. More generally, however the microphone path ends, it
    throws nothing, keeps the session and the connection flag, suspends
    nothing and does not call the error callback. *)
Theorem microphone_failure_is_not_fatal (w : World) (i : nat) (e : Error) :
  tasks w !! i = Some AwaitGetUserMedia ->
  let notice := "Microphone access denied or error. (Check permissions)"%string in
  let w' := snd (handle (ev_settle i (Some e)) w) in
  fst (handle (ev_settle i (Some e)) w) = Normal tt /\
  this w' = this w /\
  browser w' = browser w /\
  tasks w' = delete i (tasks w) /\
  trace w' = trace w ++ console_log ("[GeminiLive] " ++ notice)
               :: (if onLog (callbacks (this w)) then [call_onLog notice] else []) /\
  (forall x, call_onError x ∈ trace w' -> call_onError x ∈ trace w) /\
  (forall r,
     let v := snd (handle (ev_settle i r) w) in
     fst (handle (ev_settle i r) w) = Normal tt /\
     session (this v) = session (this w) /\
     isConnected (this v) = isConnected (this w) /\
     audioContext (this v) = audioContext (this w) /\
     tasks v = delete i (tasks w) /\
     (forall x, call_onError x ∈ trace v -> call_onError x ∈ trace w)).
Proof.
  intros Ht. cbn [Live.handle]. rewrite Ht. cbn [resume].
  split; [| split; [| split; [| split; [| split; [| split]]]]].
  1-6: unfold startAudioInput_settled; exec; cbn.
  1-4: by destruct (onLog (callbacks (this w))).
  - destruct (onLog (callbacks (this w))); cbn; by rewrite <- ?app_assoc.
  - intros x Hx. destruct (onLog (callbacks (this w))); cbn in Hx;
      rewrite <- ?app_assoc in Hx; apply elem_of_app in Hx as [Hx | Hx]; try assumption;
      repeat (apply elem_of_cons in Hx as [Hx | Hx]; [discriminate |]);
      by apply elem_of_nil in Hx.
  - intros r. unfold startAudioInput_settled. open_world w. crunch.
    all: repeat (split; [reflexivity |]).
    all: intros x Hx; cbn in Hx; rewrite <- ?app_assoc in Hx;
           apply elem_of_app in Hx as [Hx | Hx]; try assumption;
           repeat (apply elem_of_cons in Hx as [Hx | Hx]; [discriminate |]);
           by apply elem_of_nil in Hx.
Qed.

(** *** What goes out on the channel *)

Import Observed.

Lemma local_unsent (extra : list Effect) :
  Forall local extra -> omap realtime_input extra = [].
Proof.
  induction 1 as [| e extra He _ IH]; [done |].
  cbn. rewrite IH. by destruct e.
Qed.

(** [handleAudio] only adds console lines and log callbacks to the trace. *)
Lemma handleAudio_trace (w : World) msg :
  exists extra, trace (snd (handleAudio msg w)) = trace w ++ extra /\ Forall local extra.
Proof.
  unfold Live.handleAudio.
  destruct (truthy (inlineData msg)); [| exists []; by rewrite app_nil_r].
  open_world w. exec_all.
  all: repeat (split_stuck; exec; cbn).
  all: rewrite <- ?app_assoc; eexists; split; [reflexivity | repeat constructor].
Qed.

(** As [split_audio], keeping what [handleAudio] added to the trace. *)
Ltac split_audio_with added :=
  match goal with
  | |- context [Live.handleAudio _ _ ?m ?w1] =>
      let extra := fresh "extra" in
      let Htr := fresh "Htr" in
      let Hlocal := fresh "Hlocal" in
      let tr := fresh "tr" in
      let Heq := fresh "Heq" in
      destruct (added w1 m) as (extra & Htr & Hlocal);
      destruct (handleAudio_cases w1 m) as [tr [Heq | (? & ? & ? & ? & ? & ? & Heq)]];
      rewrite Heq in Htr |- *; cbn in Htr; subst tr
  end.

Ltac crunch_with added :=
  exec; cbn;
  repeat (first [rewrite stopAll_spec | split_audio_with added | split_stuck]; exec; cbn).

(** Reads a projection of the trace off a world whose trace is spelled out;
    [unseen] says that the projection skips what [handleAudio] added. *)
Ltac observe_with unseen :=
  cbn [trace];
  rewrite ?omap_app;
  repeat match goal with
         | H : Forall _ ?x |- _ => rewrite (unseen x H)
         end;
  cbn; rewrite ?app_nil_r.

Lemma step_sent_closed (w : World) (e : Event) :
  isConnected (this w) = false ->
  e <> ev_onopen ->
  isConnected (this (step w e)) = false /\ sent (step w e) = sent w.
Proof.
  intros Hclosed He.
  destruct e; try done; unfold_methods; open_world w; cbn in Hclosed; subst;
    crunch_with handleAudio_trace.
  all: split; [reflexivity | unfold sent; observe_with local_unsent; reflexivity].
Qed.

Lemma run_sent_closed (es : list Event) (w : World) :
  isConnected (this w) = false ->
  Forall (fun e => e <> ev_onopen) es ->
  isConnected (this (run w es)) = false /\ sent (run w es) = sent w.
Proof.
  revert w. induction es as [| e es IH]; intros w Hclosed Hes; [done |].
  apply Forall_cons in Hes as [He Hes].
  destruct (step_sent_closed w e Hclosed He) as [Hclosed' Hsent].
  change (run w (e :: es)) with (run (step w e) es).
  destruct (IH (step w e) Hclosed' Hes) as [IH1 IH2].
  split; [exact IH1 | by rewrite IH2].
Qed.

(** X1. While the service is not connected nothing is put on the channel,
    whatever its owner calls and whatever the browser and the channel
    deliver, until the channel reports open: from a world in which
    [isConnected] is false, a run without [onopen] leaves the list of
    realtime inputs as it was and [isConnected] false. *)
Theorem nothing_sent_until_open (w : World) (es : list Event) :
  isConnected (this w) = false ->
  Forall (fun e => e <> ev_onopen) es ->
  sent (run w es) = sent w /\ isConnected (this (run w es)) = false.
Proof.
  intros Hclosed Hes. destruct (run_sent_closed es w Hclosed Hes). by split.
Qed.

(** X2. [sendVideoFrame] never throws and changes nothing of the service or
    the browser. With the channel open and a session it puts exactly one
    JPEG input with the given payload on that session; when the transport
    raises, the error is caught and only logged; with the channel closed or
    no session the frame is dropped. *)
Theorem video_frame_is_sent_or_dropped (w : World) (base64Data : string)
    (fault : option Error) :
  let r := sendVideoFrame base64Data fault w in
  fst r = Normal tt /\
  this (snd r) = this w /\ browser (snd r) = browser w /\ tasks (snd r) = tasks w /\
  sent (snd r) =
    sent w ++
    match isConnected (this w), session (this w), fault with
    | true, Some sid, None => [(sid, "image/jpeg"%string, base64Data)]
    | _, _, _ => []
    end /\
  (forall sid e,
     isConnected (this w) = true -> session (this w) = Some sid -> fault = Some e ->
     console_log ("[GeminiLive] Error sending frame: " ++ message e) ∈ trace (snd r)).
Proof.
  cbv zeta. unfold Live.sendVideoFrame. open_world w.
  crunch_with handleAudio_trace.
  all: repeat split; try reflexivity;
    try (unfold sent; observe_with local_unsent; reflexivity); try discriminate.
  all: intros sid e' _ _ [= <-]; cbn; rewrite ?elem_of_app, ?elem_of_cons; auto.
Qed.

(** X3. With the channel open and a session, the [onaudioprocess] handler puts
    exactly one input on that session: the window encoded by [createPcmData],
    declared as 16 kHz PCM. It changes nothing else. An error of the
    transport is not caught there: the handler throws it. *)
Theorem audio_window_is_encoded_and_sent (w : World) (inputData : list Num.number)
    (fault : option Error) (sid : nat) :
  isConnected (this w) = true ->
  session (this w) = Some sid ->
  let r := onaudioprocess inputData fault w in
  this (snd r) = this w /\ browser (snd r) = browser w /\ tasks (snd r) = tasks w /\
  match fault with
  | None =>
      fst r = Normal tt /\
      sent (snd r) =
        sent w ++ [(sid, "audio/pcm;rate=16000"%string, Pcm.createPcmData platform inputData)]
  | Some e => r = (Throw e, w)
  end.
Proof.
  intros Hopen Hsid. cbv zeta. unfold Live.onaudioprocess. open_world w.
  cbn in Hopen, Hsid. subst. crunch_with handleAudio_trace.
  all: repeat split; try reflexivity; unfold sent; observe_with local_unsent; reflexivity.
Qed.

(** *** Payloads that cannot be played *)

Lemma unplayable_not_carried (w : World) msg b :
  unplayable decodeBase64 decodeAudioData w msg -> carries msg b ->
  audioContext (this w) = None \/ gainNode (this w) = None.
Proof.
  intros [Hc | [Hg | [(e & He) | (bytes & e & Hb & He)]]] (_ & bytes' & Hb' & Hd');
    [by left | by right | congruence | ].
  rewrite Hb in Hb'. injection Hb' as <-. congruence.
Qed.

(** X4. An audio payload that cannot be played is dropped: when the service
    has no output context or no gain node, or [decodeBase64] or
    [decodeAudioData] throws, handling the message throws nothing, creates no
    source node and leaves the cursor, the active sources and every other
    field and browser object as they were (a message that also carries the
    interruption flag apart). *)
Theorem unplayable_audio_is_dropped (w : World) (msg : LiveServerMessage) :
  unplayable decodeBase64 decodeAudioData w msg ->
  interrupted msg = false ->
  let r := handleMessage msg w in
  fst r = Normal tt /\
  this (snd r) = this w /\ browser (snd r) = browser w /\ tasks (snd r) = tasks w.
Proof.
  intros Hun Hint. cbv zeta.
  unfold Live.handleMessage, Live.handleInterruption, Live.handleText.
  rewrite Hint. open_world w. exec_all.
  all: match goal with
       | |- context [Live.handleAudio _ _ ?m ?w1] =>
           destruct (handleAudio_cases w1 m) as [tr [-> | (c & g & b & Hc & Hg & Hcar & ->)]]
       end.
  all: try (destruct (unplayable_not_carried _ _ _ Hun Hcar) as [Habs | Habs];
            cbn in Habs, Hc, Hg; congruence).
  all: destruct (truthy (outputTranscription msg)); exec_all; by repeat split.
Qed.

(** *** What the channel callbacks leave alone *)

(** X5. A callback of the channel (open, close, error, or a message,
    interruption included) closes no audio context, stops no track of the
    microphone, closes no session and resumes no suspended method, and the
    service keeps its session, its stream and both contexts: after the
    channel has closed or failed everything stays allocated until
    [disconnect] is called. An error does not even mark the channel as
    closed. *)
Theorem channel_callbacks_release_nothing (w : World) (e : Event) :
  channel_event e ->
  let w' := step w e in
  contexts (browser w') = contexts (browser w) /\
  streams (browser w') = streams (browser w) /\
  sessions (browser w') = sessions (browser w) /\
  tasks w' = tasks w /\
  session (this w') = session (this w) /\
  inputMediaStream (this w') = inputMediaStream (this w) /\
  inputAudioContext (this w') = inputAudioContext (this w) /\
  audioContext (this w') = audioContext (this w) /\
  (forall m, e = ev_onerror m -> isConnected (this w') = isConnected (this w)).
Proof.
  intros He. cbv zeta.
  destruct e; try done; unfold_methods; open_world w; crunch.
  all: repeat split; try reflexivity; by intros ? [=].
Qed.

(** *** The active sources *)

Lemma audible_playing srcs n : audible srcs n -> playing srcs n.
Proof. intros (nd & Hn & Hs & He & _). by exists nd. Qed.

Lemma audible_app srcs extra n : audible srcs n -> audible (srcs ++ extra) n.
Proof.
  intros (nd & Hn & Hs). exists nd. split; [| done]. by apply lookup_app_l_Some.
Qed.

Lemma audible_new srcs b g t :
  audible (srcs ++ [{| buffer := b; output := g; startedAt := Some t;
                       stopped := false; ended := false |}]) (length srcs).
Proof.
  eexists. split; [apply list_lookup_middle; reflexivity |]. cbn. eauto.
Qed.

Lemma audible_alter_ne srcs f n m :
  n <> m -> audible srcs m -> audible (alter f n srcs) m.
Proof.
  intros Hne (nd & Hn & Hs). exists nd. split; [| done].
  by rewrite list_lookup_alter_ne.
Qed.

Lemma Forall_audible_app srcs extra active :
  Forall (audible srcs) active -> Forall (audible (srcs ++ extra)) active.
Proof. intros H. eapply Forall_impl; [exact H |]. intros n. apply audible_app. Qed.

Lemma Forall_audible_splice srcs active n :
  Forall (audible srcs) active -> NoDup active ->
  Forall (audible (alter mark_ended n srcs)) (splice_first n active).
Proof.
  intros Hp Hnd. apply Forall_forall. intros m Hm.
  destruct (splice_first_NoDup n active Hnd) as [_ Hn].
  apply audible_alter_ne; [by intros -> |].
  rewrite Forall_forall in Hp. by apply Hp, (splice_first_subset n).
Qed.

Lemma step_audible (w : World) (e : Event) :
  wf w ->
  Forall (audible (sources (browser w))) (activeSources (this w)) ->
  Forall (audible (sources (browser (step w e)))) (activeSources (this (step w e))).
Proof.
  intros [H1 H2 H3 H4 H5 H6 H7] Ha.
  destruct e; unfold_methods; open_world w; cbn in *; crunch.
  all: cbn in *;
    first
      [ assumption
      | by constructor
      | apply Forall_app; split;
        [by apply Forall_audible_app | repeat constructor; apply audible_new]
      | by apply Forall_audible_app
      | by apply Forall_audible_splice ].
Qed.

Lemma rate_of_app ctxs extra ref r : rate_of ctxs ref r -> rate_of (ctxs ++ extra) ref r.
Proof.
  intros H c Hc. destruct (H c Hc) as (x & Hx & Hr). exists x.
  split; [by apply lookup_app_l_Some | done].
Qed.

Lemma rate_of_new ctxs r st :
  rate_of (ctxs ++ [{| sampleRate := r; currentTime := 0; state := st |}])
    (Some (length ctxs)) r.
Proof.
  intros c [= <-]. eexists. split; [apply list_lookup_middle; reflexivity | done].
Qed.

Lemma rate_of_alter ctxs f n ref r :
  (forall x, sampleRate (f x) = sampleRate x) ->
  rate_of ctxs ref r -> rate_of (alter f n ctxs) ref r.
Proof.
  intros Hf H c Hc. destruct (H c Hc) as (x & Hx & Hr).
  destruct (decide (c = n)) as [-> | Hne].
  - exists (f x). rewrite list_lookup_alter_eq, Hx. split; [done | by rewrite Hf].
  - exists x. by rewrite list_lookup_alter_ne.
Qed.

Lemma rate_of_None ctxs r : rate_of ctxs None r.
Proof. by intros c. Qed.

Lemma step_rates (w : World) (e : Event) :
  rate_of (contexts (browser w)) (audioContext (this w)) 24000 ->
  rate_of (contexts (browser w)) (inputAudioContext (this w)) 16000 ->
  rate_of (contexts (browser (step w e))) (audioContext (this (step w e))) 24000 /\
  rate_of (contexts (browser (step w e))) (inputAudioContext (this (step w e))) 16000.
Proof.
  intros Hout Hin.
  destruct e; unfold_methods; open_world w; cbn in *; crunch.
  all: split; cbn in *;
    repeat first
      [ assumption
      | apply rate_of_None
      | apply rate_of_new
      | apply rate_of_app
      | apply rate_of_alter; [by intros [? ? []] |] ].
Qed.

Lemma run_audible (es : list Event) (w : World) :
  wf w ->
  Forall (audible (sources (browser w))) (activeSources (this w)) ->
  Forall (audible (sources (browser (run w es)))) (activeSources (this (run w es))).
Proof.
  revert w. induction es as [| e es IH]; intros w Hwf Ha; [done |].
  change (run w (e :: es)) with (run (step w e) es).
  apply IH; [by apply step_wf | by apply step_audible].
Qed.

(** X6. In every state the service can reach, each node of [activeSources]
    is a source node that has been started, has not ended and has not been
    stopped, and no node is listed twice: nodes leave the list when they end,
    and a stop always comes with the list being emptied. *)
Theorem active_sources_are_audible (w : World) :
  reachable w ->
  Forall (audible (sources (browser w))) (activeSources (this w)) /\
  NoDup (activeSources (this w)).
Proof.
  intros Hw. split; [| by apply reachable_wf].
  destruct Hw as (cb & es & ->). apply run_audible; [apply boot_wf | constructor].
Qed.

Lemma run_rates (es : list Event) (w : World) :
  rate_of (contexts (browser w)) (audioContext (this w)) 24000 ->
  rate_of (contexts (browser w)) (inputAudioContext (this w)) 16000 ->
  rate_of (contexts (browser (run w es))) (audioContext (this (run w es))) 24000 /\
  rate_of (contexts (browser (run w es))) (inputAudioContext (this (run w es))) 16000.
Proof.
  revert w. induction es as [| e es IH]; intros w Hout Hin; [done |].
  change (run w (e :: es)) with (run (step w e) es).
  destruct (step_rates w e Hout Hin). by apply IH.
Qed.

(** X7. In every state the service can reach, the output context it holds
    runs at 24000 Hz, the rate inbound audio is decoded for, and the input
    context at 16000 Hz, the rate every microphone chunk is declared with. *)
Theorem held_contexts_run_at_the_wire_rates (w : World) :
  reachable w ->
  rate_of (contexts (browser w)) (audioContext (this w)) 24000 /\
  rate_of (contexts (browser w)) (inputAudioContext (this w)) 16000.
Proof.
  intros (cb & es & ->). apply run_rates; apply rate_of_None.
Qed.

Lemma filter_keeps_all (n : nat) (xs : list nat) :
  n ∉ xs -> filter (fun x => x <> n) xs = xs.
Proof.
  induction xs as [| y xs IH]; [done |]. intros Hn.
  apply not_elem_of_cons in Hn as [Hne Hn].
  rewrite filter_cons_True by done. by rewrite IH.
Qed.

Lemma splice_first_filter (n : nat) (xs : list nat) :
  NoDup xs -> splice_first n xs = filter (fun x => x <> n) xs.
Proof.
  induction 1 as [| y xs Hy Hnd IH]; [done |].
  cbn [splice_first]. destruct (Nat.eqb_spec y n) as [-> | Hne].
  - rewrite filter_cons_False by (by intros ?). by rewrite filter_keeps_all.
  - rewrite filter_cons_True by done. by rewrite IH.
Qed.

(** X8. When a source node that was started ends, in a state the service can
    reach, its [onended] handler takes exactly that node out of
    [activeSources] and keeps the others in order; the cursor, the session
    and every other field stay as they were, and no other node changes. A
    node that is no longer listed (an interruption emptied the list) changes
    nothing of the list. *)
Theorem ended_source_leaves_active_set (w : World) (n : nat) :
  reachable w ->
  can_end w n = true ->
  let w' := step w (ev_ended n) in
  activeSources (this w') = filter (fun x => x <> n) (activeSources (this w)) /\
  set_activeSources (activeSources (this w)) (this w') = this w /\
  sources (browser w') = alter mark_ended n (sources (browser w)) /\
  (n ∉ activeSources (this w) -> this w' = this w).
Proof.
  intros Hw Hend. apply reachable_wf in Hw as [_ _ _ _ _ _ Hnd]. cbv zeta.
  unfold Live.step, Live.handle. rewrite Hend. unfold Live.onended.
  open_world w. cbn in Hnd. exec. cbn.
  rewrite splice_first_filter by done.
  repeat split. intros Hn. by rewrite filter_keeps_all.
Qed.

(** *** The visualizer loop *)

Lemma local_unseen (extra : list Effect) :
  Forall local extra -> omap animation extra = [].
Proof.
  induction 1 as [| e extra He _ IH]; [done |].
  cbn. rewrite IH. by destruct e.
Qed.

(** Only [connect] and the animation frame callback run [startVisualizer]. *)
Lemma step_visualized (w : World) (e : Event) :
  ~ is_connect e ->
  e <> ev_animationFrame ->
  visualized (step w e) = visualized w.
Proof.
  intros Hc Ha.
  destruct e; try done; try (by destruct Hc); unfold_methods; open_world w;
    crunch_with handleAudio_trace.
  all: unfold visualized; observe_with local_unseen; reflexivity.
Qed.

Lemma visualized_nil (w : World) :
  visualized w = [] ->
  frame_requests w = 0%nat /\ forall a, call_onAudioData a ∉ trace w.
Proof.
  unfold visualized, frame_requests. induction (trace w) as [| e t IH]; cbn.
  - intros _. split; [done |]. intros a. apply not_elem_of_nil.
  - destruct e; cbn; try discriminate; intros H; destruct (IH H) as [IH1 IH2];
      (split; [done |]); intros a Ha; apply elem_of_cons in Ha as [Ha | Ha];
      try discriminate; by apply (IH2 a).
Qed.

Lemma run_visualized (es : list Event) (w : World) (served : nat) :
  visualized w = [] ->
  Forall (fun e => ~ is_connect e) es ->
  answered decodeBase64 decodeAudioData platform w served es ->
  visualized (run w es) = [].
Proof.
  revert w served. induction es as [| e es IH]; intros w served Hw Hes Hans; [done |].
  apply Forall_cons in Hes as [He Hes].
  change (run w (e :: es)) with (run (step w e) es).
  assert (Hcase : e = ev_animationFrame \/ e <> ev_animationFrame)
    by (destruct e; (by left) || (by right)).
  destruct Hcase as [-> | Hne].
  - destruct Hans as [Hlt _]. apply visualized_nil in Hw as [Hw _]. lia.
  - apply (IH _ served); [by rewrite step_visualized | done |].
    destruct e; try done.
Qed.

(** X9. On a service that is connected once, the visualizer loop never
    starts: [connect] calls [startVisualizer] before the channel can have
    reported open, so it returns at once, and nothing else calls it. However
    the run goes on (as long as [connect] is not called again, and the
    browser only answers animation frames that were requested), no animation
    frame is ever requested and [onAudioData] is never called. *)
Theorem visualizer_never_starts (cb : LiveServiceCallbacks) (systemInstruction : string)
    (es : list Event) :
  Forall (fun e => ~ is_connect e) es ->
  answered decodeBase64 decodeAudioData platform (boot cb) 0
    (ev_connect systemInstruction :: es) ->
  let w := run (boot cb) (ev_connect systemInstruction :: es) in
  frame_requests w = 0%nat /\ forall a, call_onAudioData a ∉ trace w.
Proof.
  intros Hes Hans. cbv zeta. apply visualized_nil.
  change (run (boot cb) (ev_connect systemInstruction :: es))
    with (run (step (boot cb) (ev_connect systemInstruction)) es).
  apply (run_visualized es _ 0%nat); [| done | exact Hans].
  destruct cb as [? ? ? ? ? ? ? []]; reflexivity.
Qed.

(** *** Resuming the contexts *)

Lemma state_after_resume (ctxs : list AudioContext) (n i : nat) :
  default closed
    (state <$>
     alter (fun x => match state x with closed => x | _ => set_state running x end) n ctxs
     !! i) =
  if bool_decide (i = n)
  then match default closed (state <$> ctxs !! i) with
       | suspended => running
       | s => s
       end
  else default closed (state <$> ctxs !! i).
Proof.
  destruct (decide (i = n)) as [-> | Hne].
  - rewrite bool_decide_eq_true_2 by done. rewrite list_lookup_alter_eq.
    destruct (ctxs !! n) as [[r t []] |]; reflexivity.
  - rewrite bool_decide_eq_false_2 by done. by rewrite list_lookup_alter_ne.
Qed.

(** X10. [resumeAudio] never throws or rejects, whatever the two [resume()]
    calls come to: a failure is caught and written to the console. It asks
    the output context and then the input context to resume, each only if it
    is suspended, and touches nothing else: the fields of the service, the
    source nodes, gains, streams, sessions and suspended methods stay as
    they were. When no context the service holds is suspended it does
    nothing at all; when the resumes are fulfilled, none is suspended
    afterwards. *)
Theorem resume_audio_is_contained (w : World) (r1 r2 : option Error) :
  let r := Resume.resumeAudio_through r1 r2 w in
  fst r = Normal tt /\
  this (snd r) = this w /\
  sources (browser (snd r)) = sources (browser w) /\
  gains (browser (snd r)) = gains (browser w) /\
  streams (browser (snd r)) = streams (browser w) /\
  sessions (browser (snd r)) = sessions (browser w) /\
  tasks (snd r) = tasks w /\
  (Resume.awake w -> snd r = w) /\
  (r1 = None -> r2 = None -> Resume.awake (snd r)).
Proof.
  cbv zeta.
  unfold Resume.resumeAudio_through, Resume.resumeAudio, Resume.resumeAudio_settled,
    Resume.resumeAudio_input, Resume.awake, Resume.suspended_at.
  open_world w. destruct r1, r2.
  all: destruct audioContext0 as [c |], inputAudioContext0 as [c' |].
  all: try (destruct (default closed (state <$> contexts0 !! c)) eqn:Hs).
  all: try (destruct (default closed (state <$> contexts0 !! c')) eqn:Hs').
  all: try (destruct (decide (c' = c)) as [-> | Hne]).
  all: exec; cbn.
  all: repeat (first [ rewrite state_after_resume
                     | rewrite bool_decide_eq_true_2 by done
                     | rewrite bool_decide_eq_false_2 by congruence
                     | rewrite Hs
                     | rewrite Hs'
                     | split_callbacks ]; exec; cbn).
  all: repeat split; intros; try reflexivity; try discriminate.
  all: repeat match goal with H : _ /\ _ |- _ => destruct H end; discriminate.
Qed.

(** *** Muting and the timeline *)

Lemma time_after_resume (ctxs : list AudioContext) (n i : nat) :
  default 0
    (currentTime <$>
     alter (fun x => match state x with closed => x | _ => set_state running x end) n ctxs
     !! i) =
  default 0 (currentTime <$> ctxs !! i).
Proof.
  destruct (decide (i = n)) as [-> | Hne].
  - rewrite list_lookup_alter_eq. destruct (ctxs !! n) as [[r t []] |]; reflexivity.
  - by rewrite list_lookup_alter_ne.
Qed.

Lemma carries_functional msg b b' : carries msg b -> carries msg b' -> b = b'.
Proof.
  intros (_ & bytes & Hb & Hd) (_ & bytes' & Hb' & Hd').
  rewrite Hb in Hb'. injection Hb' as <-. congruence.
Qed.

(** [handleAudio] in two worlds that differ only in what [mute] changes. *)
Lemma handleAudio_agree (w v : World) msg :
  this v = this w ->
  sources (browser v) = sources (browser w) ->
  tasks v = tasks w ->
  now v = now w ->
  let w' := snd (handleAudio msg w) in
  let v' := snd (handleAudio msg v) in
  fst (handleAudio msg v) = Normal tt /\ fst (handleAudio msg w) = Normal tt /\
  this v' = this w' /\ sources (browser v') = sources (browser w') /\
  tasks v' = tasks w' /\ now v' = now w' /\
  contexts (browser v') = contexts (browser v) /\
  contexts (browser w') = contexts (browser w).
Proof.
  intros Hthis Hsrc Htasks Hnow. cbv zeta.
  destruct (handleAudio_cases w msg) as [tr1 [E1 | (c1 & g1 & b1 & Hc1 & Hg1 & Hcar1 & E1)]];
    destruct (handleAudio_cases v msg) as [tr2 [E2 | (c2 & g2 & b2 & Hc2 & Hg2 & Hcar2 & E2)]].
  - rewrite E1, E2. unfold now in *. destruct w, v. cbn in *. by subst.
  - exfalso. rewrite Hthis in Hc2, Hg2.
    destruct (handleAudio_delivers w msg b2 c2 g2 Hc2 Hg2 Hcar2) as [tr E].
    rewrite E1 in E. apply (f_equal (fun r => length (sources (browser (snd r))))) in E.
    destruct w as [? [] ? ?]. cbn in E. rewrite length_app in E. cbn in E. lia.
  - exfalso. rewrite <- Hthis in Hc1, Hg1.
    destruct (handleAudio_delivers v msg b1 c1 g1 Hc1 Hg1 Hcar1) as [tr E].
    rewrite E2 in E. apply (f_equal (fun r => length (sources (browser (snd r))))) in E.
    destruct v as [? [] ? ?]. cbn in E. rewrite length_app in E. cbn in E. lia.
  - rewrite E1, E2. rewrite (carries_functional msg b2 b1 Hcar2 Hcar1).
    assert (g2 = g1) by congruence. subst g2.
    unfold cursor. rewrite Hthis, Hsrc, Htasks, Hnow.
    unfold now in *. destruct w as [? [] ? ?], v as [? [] ? ?]. cbn in *. subst.
    cbn. repeat split; try reflexivity. by rewrite Hc1 in *.
Qed.

Lemma handleMessage_stages (w : World) msg :
  handleMessage msg w =
  match handleAudio msg
          (if onResponse (callbacks (this w))
           then with_trace (fun t => t ++ [call_onResponse]) w
           else w)
  with
  | (Normal _, w2) => (handleText msg ;; handleInterruption msg) w2
  | (Throw e, w2) => (Throw e, w2)
  end.
Proof.
  unfold Live.handleMessage. unfold bind at 1. unfold gets at 1. unfold bind at 1.
  destruct (onResponse (callbacks (this w))); cbn [when].
  - unfold emit at 1. unfold bind at 1. reflexivity.
  - unfold ret at 1. unfold bind at 1. reflexivity.
Qed.

Lemma after_audio_agree (w v : World) msg :
  this v = this w ->
  sources (browser v) = sources (browser w) ->
  tasks v = tasks w ->
  now v = now w ->
  let w' := snd ((handleText msg ;; handleInterruption msg) w) in
  let v' := snd ((handleText msg ;; handleInterruption msg) v) in
  this v' = this w' /\ sources (browser v') = sources (browser w') /\ tasks v' = tasks w'.
Proof.
  intros Hthis Hsrc Htasks Hnow. cbv zeta.
  unfold Live.handleText, Live.handleInterruption, now in *.
  destruct w as [tw [] ? ?], v as [tv [] ? ?]. cbn in Hthis, Hsrc, Htasks, Hnow.
  subst. destruct tw. cbn in Hnow.
  destruct (truthy (outputTranscription msg)), (interrupted msg); exec_all;
    rewrite ?stopAll_spec; exec; cbn;
    repeat (split_stuck; exec; cbn); rewrite ?Hnow; by repeat split.
Qed.

Lemma message_agree (w v : World) msg :
  this v = this w ->
  sources (browser v) = sources (browser w) ->
  tasks v = tasks w ->
  now v = now w ->
  this (step v (ev_onmessage msg)) = this (step w (ev_onmessage msg)) /\
  sources (browser (step v (ev_onmessage msg))) =
  sources (browser (step w (ev_onmessage msg))) /\
  tasks (step v (ev_onmessage msg)) = tasks (step w (ev_onmessage msg)).
Proof.
  intros Hthis Hsrc Htasks Hnow.
  unfold Live.step, Live.handle. rewrite !handleMessage_stages. rewrite Hthis.
  set (w1 := if onResponse (callbacks (this w))
             then with_trace (fun t => t ++ [call_onResponse]) w else w).
  set (v1 := if onResponse (callbacks (this w))
             then with_trace (fun t => t ++ [call_onResponse]) v else v).
  assert (H1 : this v1 = this w1 /\ sources (browser v1) = sources (browser w1) /\
               tasks v1 = tasks w1 /\ now v1 = now w1).
  { subst w1 v1. unfold now in *.
    destruct (onResponse (callbacks (this w))); destruct w, v; cbn in *; by subst. }
  destruct H1 as (B1 & B2 & B3 & B4).
  destruct (handleAudio_agree w1 v1 msg B1 B2 B3 B4)
    as (Fv & Fw & Athis & Asrc & Atasks & Anow & _ & _).
  destruct (handleAudio msg w1) as [rw w'].
  destruct (handleAudio msg v1) as [rv v'].
  cbn in Fv, Fw, Athis, Asrc, Atasks, Anow. subst rw rv.
  by apply after_audio_agree.
Qed.

(** X11. Muting drops no audio: a message handled right after [mute] leaves
    the service with the same cursor, the same active sources and the same
    source nodes, with the same start times, as the message handled without
    the call. What arrives while the output is muted is scheduled as usual
    and is heard from wherever playback stands when the gain comes back. *)
Theorem muting_drops_no_audio (w : World) (muted : bool) (msg : LiveServerMessage) :
  let w1 := run w [ev_mute muted; ev_onmessage msg] in
  let w2 := run w [ev_onmessage msg] in
  this w1 = this w2 /\
  sources (browser w1) = sources (browser w2) /\
  scheduled w1 = scheduled w2 /\
  tasks w1 = tasks w2.
Proof.
  cbv zeta. unfold Live.run. cbn [fold_left].
  assert (Hmute : this (step w (ev_mute muted)) = this w /\
                  sources (browser (step w (ev_mute muted))) = sources (browser w) /\
                  tasks (step w (ev_mute muted)) = tasks w /\
                  now (step w (ev_mute muted)) = now w).
  { unfold Live.step, Live.handle, Live.mute, now. open_world w. exec. cbn.
    repeat (split_stuck; exec; cbn); rewrite ?time_after_resume; by repeat split. }
  destruct Hmute as (H1 & H2 & H3 & H4).
  destruct (message_agree w (step w (ev_mute muted)) msg H1 H2 H3 H4) as (A1 & A2 & A3).
  repeat split; try done. unfold scheduled. by rewrite A2.
Qed.

(** *** The safety timeout of LiveCaster *)

(** The output context stays in its field until an awaited promise settles:
    [disconnect] clears the field only after [close()] has been awaited. *)
Lemma step_keeps_context (w : World) (e : Event) :
  ~ is_settle e ->
  is_Some (audioContext (this w)) ->
  is_Some (audioContext (this (step w e))).
Proof.
  intros He [c Hc].
  destruct e; try (by destruct He); unfold_methods; open_world w; cbn in Hc; subst;
    crunch.
  all: by eexists.
Qed.

(** X12. The safety timeout of LiveCaster does not notice a connection that
    hangs: once [connect] has built its output context, the service keeps
    that field set as long as no promise it awaits settles, so a timeout that
    fires while the channel is still being established leaves the error
    shown as it was. It reports "Connection timed out" only when the service
    holds no output context, that is when the context could not be built or
    a failed connect has finished its teardown, and then it replaces
    whatever error was shown. *)
Theorem safety_timeout_misses_a_hanging_connect (cb : LiveServiceCallbacks)
    (systemInstruction : string) (es : list Event) (shown : option string) :
  Forall (fun e => ~ is_settle e) es ->
  Caster.safetyTimeout (Some (run (boot cb) (ev_connect systemInstruction :: es))) shown
  = shown /\
  (forall w, audioContext (this w) = None ->
             Caster.safetyTimeout (Some w) shown =
             Some "Connection timed out. Check API Key."%string).
Proof.
  intros Hes. split; [| intros w Hw; unfold Caster.safetyTimeout; by rewrite Hw].
  assert (H : is_Some (audioContext
                (this (run (boot cb) (ev_connect systemInstruction :: es))))).
  { change (run (boot cb) (ev_connect systemInstruction :: es))
      with (run (step (boot cb) (ev_connect systemInstruction)) es).
    assert (H0 : is_Some (audioContext (this (step (boot cb) (ev_connect systemInstruction)))))
      by (destruct cb as [? ? ? ? ? ? ? []]; by eexists).
    revert H0. generalize (step (boot cb) (ev_connect systemInstruction)).
    induction Hes as [| e es He Hes IH]; intros w Hw; [done |].
    change (run w (e :: es)) with (run (step w e) es).
    by apply IH, step_keeps_context. }
  unfold Caster.safetyTimeout. by destruct H as [c ->].
Qed.

(** *** Everything that is sent *)

Lemma well_sent_more (n m : nat) (xs : list (nat * string * string)) :
  (n <= m)%nat -> Forall (well_sent platform n) xs -> Forall (well_sent platform m) xs.
Proof.
  intros Hnm H. eapply Forall_impl; [exact H |].
  intros [[sid mime] data] [Hsid Hkind]. split; [cbn in *; lia | done].
Qed.

Lemma step_well_sent (w : World) (e : Event) :
  wf w ->
  Forall (well_sent platform (length (sessions (browser w)))) (sent w) ->
  Forall (well_sent platform (length (sessions (browser (step w e))))) (sent (step w e)).
Proof.
  intros [_ _ _ _ Hs _ _] Hsent. unfold sent in Hsent.
  destruct e; unfold_methods; open_world w; cbn in Hs, Hsent; crunch_with handleAudio_trace.
  all: unfold sent; observe_with local_unsent.
  all: rewrite ?length_app, ?length_insert; cbn [length].
  all: try assumption.
  all: try (eapply well_sent_more; [| exact Hsent]; lia).
  all: apply Forall_app; split; [assumption |].
  all: apply Forall_cons; split; [| constructor].
  all: split; cbn; [by apply Hs |].
  all: first [by left | right; split; [done | by eexists]].
Qed.

(** X13. Whatever the service has put on its channel, in any state it can
    reach, is one of two things, sent on a session the SDK had handed out:
    a JPEG frame, or a window of microphone samples encoded by
    [createPcmData] and declared as 16 kHz PCM. It never sends anything
    else. *)
Theorem only_frames_and_windows_are_sent (w : World) :
  reachable w ->
  Forall (well_sent platform (length (sessions (browser w)))) (sent w).
Proof.
  intros (cb & es & ->).
  assert (H : forall w0, wf w0 ->
            Forall (well_sent platform (length (sessions (browser w0)))) (sent w0) ->
            Forall (well_sent platform (length (sessions (browser (run w0 es))))) (sent (run w0 es))).
  { induction es as [| e es IH]; intros w0 Hwf H0; [done |].
    change (run w0 (e :: es)) with (run (step w0 e) es).
    apply IH; [by apply step_wf | by apply step_well_sent]. }
  apply H; [apply boot_wf | constructor].
Qed.

End Facts.

(** *** The theorems at work in the sample setting *)

Lemma sample_streaming_reachable :
  Live.reachable Sample.decodeBase64 Sample.decodeAudioData Pcm.LittleEndian
    Sample.streaming.
Proof.
  exists Sample.callbacks.
  exists [ev_connect "Cast the match."; ev_onopen; ev_settle 0 None; ev_settle 0 None;
          ev_clock 0 5].
  reflexivity.
Defined.


Lemma sample_connecting_reachable :
  Live.reachable Sample.decodeBase64 Sample.decodeAudioData Pcm.LittleEndian
    Sample.connecting.
Proof. exists Sample.callbacks. exists [ev_connect "Cast the match."]. reflexivity. Defined.

Lemma sample_playing_reachable :
  Live.reachable Sample.decodeBase64 Sample.decodeAudioData Pcm.LittleEndian
    Sample.playing_two.
Proof.
  exact (reachable_run Sample.decodeBase64 Sample.decodeAudioData Pcm.LittleEndian
           Sample.streaming (arrivals 0 [Sample.first_unit; Sample.second_unit])
           sample_streaming_reachable).
Defined.


Lemma closed_channel_drops_chunk_witness :
  Live.onaudioprocess Pcm.LittleEndian [Num.of_Z 1] None (boot Sample.callbacks) =
  (Normal tt, boot Sample.callbacks).
Proof.
  apply (closed_channel_drops_chunk Pcm.LittleEndian (boot Sample.callbacks)).
  left. vm_compute. reflexivity.
Defined.

Lemma microphone_failure_is_not_fatal_witness :
  let w := Sample.run Sample.connecting [ev_onopen; ev_settle 0 None] in
  let w' := Sample.run w [ev_settle 0 (Some {| message := "NotAllowedError" |})] in
  this w' = this w /\ session (this w') = Some 0%nat /\ isConnected (this w') = true.
Proof.
  intros w w'.
  destruct (microphone_failure_is_not_fatal Sample.decodeBase64 Sample.decodeAudioData
              Pcm.LittleEndian w 0%nat {| message := "NotAllowedError" |})
    as (_ & Hthis & _).
  - vm_compute. reflexivity.
  - split; [exact Hthis |]. split; vm_compute; reflexivity.
Defined.

Lemma disconnect_releases_what_is_held_witness :
  let w' := Sample.run Sample.streaming (teardown None None None Sample.streaming) in
  torn_down (this w') /\ tasks w' = [].
Proof.
  destruct (disconnect_releases_what_is_held Sample.decodeBase64 Sample.decodeAudioData
              Pcm.LittleEndian Sample.streaming None None None)
    as (_ & Htorn & _ & Htasks & _).
  - exact sample_streaming_reachable.
  - split; [exact Htorn | exact Htasks].
Defined.

Lemma connect_failure_tears_down_witness :
  exists mid,
    Live.handle Sample.decodeBase64 Sample.decodeAudioData Pcm.LittleEndian
      (ev_settle 0 (Some {| message := "401" |})) Sample.connecting =
    Live.handle Sample.decodeBase64 Sample.decodeAudioData Pcm.LittleEndian
      ev_disconnect mid /\
    torn_down (this (Sample.run mid (teardown None None None mid))).
Proof.
  destruct (connect_failure_tears_down Sample.decodeBase64 Sample.decodeAudioData
              Pcm.LittleEndian Sample.connecting
              (ev_settle 0 (Some {| message := "401" |})) {| message := "401" |}
              None None None)
    as (mid & Heq & _ & _ & _ & _ & _ & Htorn & _).
  - exact sample_connecting_reachable.
  - right. exists 0%nat. split; vm_compute; reflexivity.
  - exists mid. split; [exact Heq | exact Htorn].
Defined.

(** C5 does not hold as the specification reads. [disconnect] is called
    while [connect] waits for the channel; it runs to its end and closes
    the output context. Then the channel opens, [connect] resumes, keeps
    the session and opens the microphone: nothing is suspended any more,
    and the service is connected, with an open session and a live
    microphone track that no one will release. *)
Lemma disconnect_does_not_cancel_connect :
  let w' := Sample.run Sample.connecting Sample.disconnect_then_resolve in
  tasks (Sample.run Sample.connecting [ev_disconnect; ev_settle 1 None]) = [AwaitLiveConnect] /\
  tasks w' = [] /\
  isConnected (this w') = true /\
  session (this w') = Some 0%nat /\
  sessions (browser w') !! 0%nat = Some {| isOpen := true |} /\
  inputMediaStream (this w') = Some 0%nat /\
  streams (browser w') !! 0%nat = Some {| tracks := [true] |} /\
  ~ Live.disconnect_is_final Sample.decodeBase64 Sample.decodeAudioData Pcm.LittleEndian.
Proof.
  cbv zeta. repeat (split; [vm_compute; reflexivity |]).
  intros Hfinal.
  specialize (Hfinal Sample.connecting
                [ev_settle 1 None; ev_onopen; ev_settle 0 None; ev_settle 0 None]
                sample_connecting_reachable).
  destruct Hfinal as [Hconn _ _ _ _ _].
  - by repeat constructor.
  - vm_compute. reflexivity.
  - discriminate Hconn.
Qed.

(** *** Further examples *)

Lemma nothing_sent_until_open_witness :
  Observed.sent
    (Sample.run Sample.connecting
       [ev_audioprocess [Num.of_Z 1; Num.of_Z 0] None; ev_sendVideoFrame "frame" None;
        ev_settle 0 None; ev_settle 0 None; ev_onmessage Sample.barge_in]) = [] /\
  isConnected
    (this (Sample.run Sample.connecting
       [ev_audioprocess [Num.of_Z 1; Num.of_Z 0] None; ev_sendVideoFrame "frame" None;
        ev_settle 0 None; ev_settle 0 None; ev_onmessage Sample.barge_in])) = false.
Proof.
  apply (nothing_sent_until_open Sample.decodeBase64 Sample.decodeAudioData
           Pcm.LittleEndian Sample.connecting).
  - reflexivity.
  - repeat constructor; discriminate.
Defined.

Lemma audio_window_is_encoded_and_sent_witness :
  let r := Live.onaudioprocess Pcm.LittleEndian [Num.of_Z 1; Num.of_Z (-1)] None
             Sample.streaming in
  this (snd r) = this Sample.streaming /\
  browser (snd r) = browser Sample.streaming /\
  tasks (snd r) = tasks Sample.streaming /\
  fst r = Normal tt /\
  Observed.sent (snd r) =
    Observed.sent Sample.streaming ++
    [(0%nat, "audio/pcm;rate=16000"%string,
      Pcm.createPcmData Pcm.LittleEndian [Num.of_Z 1; Num.of_Z (-1)])].
Proof.
  exact (audio_window_is_encoded_and_sent Pcm.LittleEndian Sample.streaming
           [Num.of_Z 1; Num.of_Z (-1)] None 0%nat eq_refl eq_refl).
Defined.

Lemma unplayable_audio_is_dropped_witness :
  let r := Live.handleMessage Sample.decodeBase64 Sample.decodeAudioData
             (Sample.audio "corrupt") Sample.streaming in
  fst r = Normal tt /\
  this (snd r) = this Sample.streaming /\
  browser (snd r) = browser Sample.streaming /\
  tasks (snd r) = tasks Sample.streaming.
Proof.
  apply (unplayable_audio_is_dropped Sample.decodeBase64 Sample.decodeAudioData
           Sample.streaming (Sample.audio "corrupt")).
  - right. right. left. eexists. reflexivity.
  - reflexivity.
Defined.

Lemma channel_callbacks_release_nothing_witness :
  let w' := Sample.run Sample.streaming [ev_onerror (Some "socket hang up"%string)] in
  contexts (browser w') = contexts (browser Sample.streaming) /\
  streams (browser w') = streams (browser Sample.streaming) /\
  sessions (browser w') = sessions (browser Sample.streaming) /\
  tasks w' = tasks Sample.streaming /\
  session (this w') = session (this Sample.streaming) /\
  inputMediaStream (this w') = inputMediaStream (this Sample.streaming) /\
  inputAudioContext (this w') = inputAudioContext (this Sample.streaming) /\
  audioContext (this w') = audioContext (this Sample.streaming) /\
  (forall m, ev_onerror (Some "socket hang up"%string) = ev_onerror m ->
             isConnected (this w') = isConnected (this Sample.streaming)).
Proof.
  exact (channel_callbacks_release_nothing Sample.decodeBase64 Sample.decodeAudioData
           Pcm.LittleEndian Sample.streaming (ev_onerror (Some "socket hang up"%string)) I).
Defined.

Lemma active_sources_are_audible_witness :
  Forall (Observed.audible (sources (browser Sample.playing_two)))
    (activeSources (this Sample.playing_two)) /\
  NoDup (activeSources (this Sample.playing_two)).
Proof.
  exact (active_sources_are_audible Sample.decodeBase64 Sample.decodeAudioData
           Pcm.LittleEndian Sample.playing_two sample_playing_reachable).
Defined.

Lemma held_contexts_run_at_the_wire_rates_witness :
  Observed.rate_of (contexts (browser Sample.streaming))
    (audioContext (this Sample.streaming)) 24000 /\
  Observed.rate_of (contexts (browser Sample.streaming))
    (inputAudioContext (this Sample.streaming)) 16000.
Proof.
  exact (held_contexts_run_at_the_wire_rates Sample.decodeBase64 Sample.decodeAudioData
           Pcm.LittleEndian Sample.streaming sample_streaming_reachable).
Defined.

Lemma ended_source_leaves_active_set_witness :
  let w' := Sample.run Sample.playing_two [ev_ended 0%nat] in
  activeSources (this w') =
    filter (fun x => x <> 0%nat) (activeSources (this Sample.playing_two)) /\
  set_activeSources (activeSources (this Sample.playing_two)) (this w') =
    this Sample.playing_two /\
  sources (browser w') = alter mark_ended 0%nat (sources (browser Sample.playing_two)) /\
  (0%nat ∉ activeSources (this Sample.playing_two) -> this w' = this Sample.playing_two).
Proof.
  apply (ended_source_leaves_active_set Sample.decodeBase64 Sample.decodeAudioData
           Pcm.LittleEndian Sample.playing_two 0%nat sample_playing_reachable).
  vm_compute. reflexivity.
Defined.

Lemma visualizer_never_starts_witness :
  let w := Sample.run (boot Sample.callbacks)
             [ev_connect "Cast the match."; ev_onopen; ev_settle 0 None; ev_settle 0 None;
              ev_onmessage (Sample.audio "abc")] in
  Observed.frame_requests w = 0%nat /\ forall a, call_onAudioData a ∉ trace w.
Proof.
  apply (visualizer_never_starts Sample.decodeBase64 Sample.decodeAudioData
           Pcm.LittleEndian Sample.callbacks "Cast the match."
           [ev_onopen; ev_settle 0 None; ev_settle 0 None;
            ev_onmessage (Sample.audio "abc")]).
  - repeat constructor; intros [].
  - vm_compute. exact I.
Defined.

Lemma safety_timeout_misses_a_hanging_connect_witness :
  Caster.safetyTimeout
    (Some (Sample.run (boot Sample.callbacks)
             [ev_connect "Cast the match."; ev_clock 0 360000; ev_mute true]))
    None = None /\
  (forall w, audioContext (this w) = None ->
             Caster.safetyTimeout (Some w) None =
             Some "Connection timed out. Check API Key."%string).
Proof.
  apply (safety_timeout_misses_a_hanging_connect Sample.decodeBase64
           Sample.decodeAudioData Pcm.LittleEndian Sample.callbacks "Cast the match."
           [ev_clock 0 360000; ev_mute true] None).
  repeat constructor; intros [].
Defined.

Lemma only_frames_and_windows_are_sent_witness :
  let w := Sample.run Sample.streaming
             [ev_audioprocess [Num.of_Z 1; Num.of_Z (-1)] None;
              ev_sendVideoFrame "frame" None] in
  Forall (Observed.well_sent Pcm.LittleEndian (length (sessions (browser w))))
    (Observed.sent w).
Proof.
  exact (only_frames_and_windows_are_sent Sample.decodeBase64 Sample.decodeAudioData
           Pcm.LittleEndian _
           (reachable_run Sample.decodeBase64 Sample.decodeAudioData Pcm.LittleEndian
              Sample.streaming
              [ev_audioprocess [Num.of_Z 1; Num.of_Z (-1)] None;
               ev_sendVideoFrame "frame" None]
              sample_streaming_reachable)).
Defined.

End LiveFacts.

(** ** The video frame sampler *)

Module SamplerFacts.
Import Sampler.

Example two_ticks :
  inFlight (run Sample.casting [ev_tick 1 false; ev_tick 1 false]) = [0%nat; 1%nat] /\
  inFlight (run Sample.casting
              [ev_tick 1 false; ev_tick 1 false; ev_blob 0 (Some "frame"%string) None])
  = [1%nat].
Proof. split; vm_compute; reflexivity. Qed.

(** C8, as the code has it. There is no guard on captures in flight: on a
    tick of a timer that is set, when the video element and the service are
    there, the video has data and the frame can be drawn, a new capture
    starts, whatever captures are still running; the tick is never skipped
    and the list of captures in flight grows by one. *)
Theorem tick_starts_a_capture (c : LiveCaster) (timer : nat) (video : VideoElement)
    (w : Live.World) :
  timer ∈ intervals c ->
  videoRef c = Some video ->
  (2 <= readyState video)%nat ->
  canvasContext c = true ->
  liveServiceRef c = Some w ->
  let c' := step c (ev_tick timer false) in
  inFlight c' = inFlight c ++ [capturesMade c] /\
  capturesMade c' = S (capturesMade c) /\
  length (inFlight c') = S (length (inFlight c)).
Proof.
  intros Htimer Hvideo Hready Hcanvas Hservice. cbn.
  rewrite bool_decide_eq_true_2 by done.
  unfold sendFrame, getFrame. rewrite Hvideo, Hservice, Hcanvas.
  destruct (Nat.ltb_spec (readyState video) 2) as [Hlt | _]; [lia |].
  cbn. rewrite length_app. cbn. repeat split; lia.
Qed.

Lemma tick_starts_a_capture_witness :
  inFlight (step (step Sample.casting (ev_tick 1 false)) (ev_tick 1 false)) = [0%nat; 1%nat].
Proof.
  destruct (tick_starts_a_capture (step Sample.casting (ev_tick 1 false)) 1
              {| readyState := 4 |} Sample.connecting) as (Hin & _).
  - vm_compute. by left.
  - reflexivity.
  - cbn. lia.
  - reflexivity.
  - reflexivity.
  - exact Hin.
Defined.

(** C8 does not hold as the specification reads: two ticks in a row, the
    first capture still running, leave two captures in flight. *)
Lemma second_tick_is_not_skipped :
  ~ (forall es, (length (inFlight (run Sample.casting es)) <= 1)%nat).
Proof.
  intros H. specialize (H [ev_tick 1 false; ev_tick 1 false]).
  vm_compute in H. lia.
Qed.

End SamplerFacts.

(** ** What the encoder puts on the wire *)

Module WireFacts.
Import Num Pcm Base64 PcmFacts.

Lemma bytes256_spec (a : Z) : 0 <= a < 256 -> In a bytes256.
Proof.
  intros Ha. unfold bytes256. apply in_map_iff. exists (Z.to_nat a).
  split; [lia |]. apply in_seq. lia.
Qed.

Lemma all_bytes_spec (f : Z -> bool) :
  all_bytes f = true -> forall a, 0 <= a < 256 -> f a = true.
Proof.
  unfold all_bytes. rewrite forallb_forall. intros H a Ha. by apply H, bytes256_spec.
Qed.

Lemma all_byte_pairs_spec (f : Z -> Z -> bool) :
  all_byte_pairs f = true ->
  forall a b, 0 <= a < 256 -> 0 <= b < 256 -> f a b = true.
Proof.
  unfold all_byte_pairs. rewrite forallb_forall. intros H a b Ha Hb.
  specialize (H a (bytes256_spec a Ha)). rewrite forallb_forall in H.
  by apply H, bytes256_spec.
Qed.

(** *** Six bits and back *)

Lemma digit_value (n : Z) :
  0 <= n < 64 -> b64_value (b64_digit n) = n /\ Ascii.eqb (b64_digit n) "=" = false.
Proof.
  intros Hn.
  assert (Hall : forallb (fun k => (b64_value (b64_digit k) =? k) &&
                                   negb (Ascii.eqb (b64_digit k) "=")) sextets = true)
    by (vm_compute; reflexivity).
  rewrite forallb_forall in Hall.
  assert (Hin : In n sextets).
  { unfold sextets. apply in_map_iff. exists (Z.to_nat n). split; [lia |].
    apply in_seq. lia. }
  apply Hall, andb_prop in Hin as [H1 H2].
  split; [by apply Z.eqb_eq | by apply negb_true_iff].
Qed.

Lemma code_range (c : ascii) : 0 <= code c < 256.
Proof.
  unfold code. pose proof (N_ascii_bounded c). lia.
Qed.

Lemma chr_code (c : ascii) : chr (code c) = String c EmptyString.
Proof. unfold chr, code. by rewrite N2Z.id, ascii_N_embedding. Qed.

(** The four digits [btoa] writes for three bytes, and the two short tails. *)
Lemma sextet_ranges (a b : Z) :
  0 <= a < 256 -> 0 <= b < 256 ->
  0 <= Z.shiftr a 2 < 64 /\
  0 <= Z.lor (Z.shiftl (Z.land a 3) 4) (Z.shiftr b 4) < 64 /\
  0 <= Z.lor (Z.shiftl (Z.land a 15) 2) (Z.shiftr b 6) < 64 /\
  0 <= Z.land a 63 < 64 /\
  0 <= Z.shiftl (Z.land a 3) 4 < 64 /\
  0 <= Z.shiftl (Z.land a 15) 2 < 64.
Proof.
  intros Ha Hb.
  pose proof (all_byte_pairs_spec
    (fun a b =>
       let ok v := (0 <=? v) && (v <? 64) in
       ok (Z.shiftr a 2) && ok (Z.lor (Z.shiftl (Z.land a 3) 4) (Z.shiftr b 4)) &&
       ok (Z.lor (Z.shiftl (Z.land a 15) 2) (Z.shiftr b 6)) && ok (Z.land a 63) &&
       ok (Z.shiftl (Z.land a 3) 4) && ok (Z.shiftl (Z.land a 15) 2))
    ltac:(vm_compute; reflexivity) a b Ha Hb) as H.
  cbv zeta beta in H.
  repeat (apply andb_prop in H as [H ?]).
  repeat match goal with
         | X : (_ <=? _) = true |- _ => apply Z.leb_le in X
         | X : (_ <? _) = true |- _ => apply Z.ltb_lt in X
         end.
  lia.
Qed.

Lemma regroup (a b : Z) :
  0 <= a < 256 -> 0 <= b < 256 ->
  Z.shiftr (Z.lor (Z.shiftl (Z.land a 3) 4) (Z.shiftr b 4)) 4 = Z.land a 3 /\
  Z.land (Z.lor (Z.shiftl (Z.land a 3) 4) (Z.shiftr b 4)) 15 = Z.shiftr b 4 /\
  Z.shiftr (Z.lor (Z.shiftl (Z.land a 15) 2) (Z.shiftr b 6)) 2 = Z.land a 15 /\
  Z.land (Z.lor (Z.shiftl (Z.land a 15) 2) (Z.shiftr b 6)) 3 = Z.shiftr b 6 /\
  Z.lor (Z.shiftl (Z.shiftr a 2) 2) (Z.land a 3) = a /\
  Z.lor (Z.shiftl (Z.shiftr a 4) 4) (Z.land a 15) = a /\
  Z.lor (Z.shiftl (Z.shiftr a 6) 6) (Z.land a 63) = a.
Proof.
  intros Ha Hb.
  pose proof (all_byte_pairs_spec
    (fun a b =>
       (Z.shiftr (Z.lor (Z.shiftl (Z.land a 3) 4) (Z.shiftr b 4)) 4 =? Z.land a 3) &&
       (Z.land (Z.lor (Z.shiftl (Z.land a 3) 4) (Z.shiftr b 4)) 15 =? Z.shiftr b 4) &&
       (Z.shiftr (Z.lor (Z.shiftl (Z.land a 15) 2) (Z.shiftr b 6)) 2 =? Z.land a 15) &&
       (Z.land (Z.lor (Z.shiftl (Z.land a 15) 2) (Z.shiftr b 6)) 3 =? Z.shiftr b 6) &&
       (Z.lor (Z.shiftl (Z.shiftr a 2) 2) (Z.land a 3) =? a) &&
       (Z.lor (Z.shiftl (Z.shiftr a 4) 4) (Z.land a 15) =? a) &&
       (Z.lor (Z.shiftl (Z.shiftr a 6) 6) (Z.land a 63) =? a))
    ltac:(vm_compute; reflexivity) a b Ha Hb) as H.
  cbv beta in H.
  repeat (apply andb_prop in H as [H ?]).
  repeat match goal with
         | X : (_ =? _) = true |- _ => apply Z.eqb_eq in X
         end.
  auto 10.
Qed.

(** One group of three bytes. *)
Lemma atob_three (a b c : ascii) (rest : string) :
  atob (btoa (String a (String b (String c rest)))) =
  String a (String b (String c (atob (btoa rest)))).
Proof.
  cbn [btoa].
  pose proof (code_range a) as Ha. pose proof (code_range b) as Hb.
  pose proof (code_range c) as Hc.
  destruct (sextet_ranges (code a) (code b) Ha Hb) as (R1 & R2 & _).
  destruct (sextet_ranges (code b) (code c) Hb Hc) as (_ & _ & R3 & _).
  destruct (sextet_ranges (code c) (code c) Hc Hc) as (_ & _ & _ & R4 & _).
  destruct (digit_value _ R1) as [V1 _]. destruct (digit_value _ R2) as [V2 _].
  destruct (digit_value _ R3) as [V3 E3]. destruct (digit_value _ R4) as [V4 E4].
  cbn [atob]. rewrite E3, E4, V1, V2, V3, V4.
  destruct (regroup (code a) (code b) Ha Hb) as (F & A & _ & _ & G & _).
  destruct (regroup (code b) (code c) Hb Hc) as (_ & _ & B & D & _ & C & _).
  destruct (regroup (code c) (code c) Hc Hc) as (_ & _ & _ & _ & _ & _ & E).
  rewrite F, G, A, B, C, D, E, !chr_code. reflexivity.
Qed.

Lemma atob_two (a b : ascii) :
  atob (btoa (String a (String b EmptyString))) = String a (String b EmptyString).
Proof.
  cbn [btoa].
  pose proof (code_range a) as Ha. pose proof (code_range b) as Hb.
  destruct (sextet_ranges (code a) (code b) Ha Hb) as (R1 & R2 & _).
  destruct (sextet_ranges (code b) 0 Hb ltac:(lia)) as (_ & _ & R3 & _).
  change (Z.shiftr 0 6) with 0 in R3. rewrite Z.lor_0_r in R3.
  destruct (digit_value _ R1) as [V1 _]. destruct (digit_value _ R2) as [V2 _].
  destruct (digit_value _ R3) as [V3 E3].
  cbn [atob]. rewrite E3, V1, V2, V3. cbn [Ascii.eqb Bool.eqb].
  destruct (regroup (code a) (code b) Ha Hb) as (F & A & _ & _ & G & _).
  destruct (regroup (code b) 0 Hb ltac:(lia)) as (_ & _ & B & _ & _ & C & _).
  change (Z.shiftr 0 6) with 0 in B. rewrite Z.lor_0_r in B.
  rewrite F, G, A, B, C, !chr_code. reflexivity.
Qed.

Lemma atob_one (a : ascii) :
  atob (btoa (String a EmptyString)) = String a EmptyString.
Proof.
  cbn [btoa].
  pose proof (code_range a) as Ha.
  destruct (sextet_ranges (code a) 0 Ha ltac:(lia)) as (R1 & R2 & _).
  change (Z.shiftr 0 4) with 0 in R2. rewrite Z.lor_0_r in R2.
  destruct (digit_value _ R1) as [V1 _]. destruct (digit_value _ R2) as [V2 _].
  cbn [atob]. rewrite V1, V2. cbn [Ascii.eqb Bool.eqb].
  destruct (regroup (code a) 0 Ha ltac:(lia)) as (F & _ & _ & _ & G & _).
  change (Z.shiftr 0 4) with 0 in F. rewrite Z.lor_0_r in F.
  rewrite F, G, chr_code. reflexivity.
Qed.

(** Induction on a string three characters at a time. *)
Lemma by_threes (P : string -> Prop) :
  P EmptyString ->
  (forall a, P (String a EmptyString)) ->
  (forall a b, P (String a (String b EmptyString))) ->
  (forall a b c rest, P rest -> P (String a (String b (String c rest)))) ->
  forall s, P s.
Proof.
  intros H0 H1 H2 H3.
  assert (H : forall s, P s /\ (forall a, P (String a s)) /\
                        (forall a b, P (String a (String b s)))).
  { induction s as [| c s (IH0 & IH1 & IH2)]; [by auto |].
    split; [apply IH1 |]. split; [intros a; apply IH2 |].
    intros a b. by apply H3. }
  intros s. apply H.
Qed.

(** [atob] undoes [btoa]. *)
Lemma atob_btoa (s : string) : atob (btoa s) = s.
Proof.
  induction s as [| a | a b | a b c rest IH] using by_threes.
  - reflexivity.
  - apply atob_one.
  - apply atob_two.
  - by rewrite atob_three, IH.
Qed.

Lemma btoa_length (s : string) :
  String.length (btoa s) = (4 * ((String.length s + 2) / 3))%nat.
Proof.
  induction s as [| a | a b | a b c rest IH] using by_threes; try reflexivity.
  cbn [btoa String.length]. rewrite IH.
  replace (S (S (S (String.length rest))) + 2)%nat
    with (1 * 3 + (String.length rest + 2))%nat by lia.
  rewrite Nat.div_add_l by lia. lia.
Qed.

(** *** Bytes and words *)

Lemma string_length_app (a b : string) :
  String.length (a ++ b) = (String.length a + String.length b)%nat.
Proof. induction a as [| ch a IH]; cbn; [done | by rewrite IH]. Qed.

Lemma binary_loop_pairs (p : endianness) (rest done : list Z) (binary : string) :
  binary_loop p (done ++ rest) (2 * length rest) (2 * length done) binary =
  (binary ++ pairs p rest)%string.
Proof.
  revert done binary. induction rest as [| v rest IH]; intros done binary.
  - cbn. by rewrite string_app_empty.
  - replace (2 * length (v :: rest))%nat with (S (S (2 * length rest))) by (cbn; lia).
    cbn [binary_loop]. unfold buffer_byte.
    replace (2 * length done / 2)%nat with (length done)
      by (apply Nat.div_unique with 0%nat; lia).
    replace (S (2 * length done) / 2)%nat with (length done)
      by (apply Nat.div_unique with 1%nat; lia).
    rewrite list_lookup_middle by reflexivity.
    replace (Nat.even (2 * length done)) with true
      by (symmetry; apply Nat.even_spec; by exists (length done)).
    replace (Nat.even (S (2 * length done))) with false
      by (symmetry; rewrite Nat.even_succ, <- Nat.negb_even;
          apply negb_false_iff, Nat.even_spec; by exists (length done)).
    replace (S (S (2 * length done))) with (2 * length (done ++ [v]))%nat
      by (rewrite length_app; cbn; lia).
    replace (done ++ v :: rest) with ((done ++ [v]) ++ rest) by (by rewrite <- app_assoc).
    rewrite IH. cbn [pairs]. unfold pair.
    destruct p; rewrite !string_app_assoc; reflexivity.
Qed.

(** The binary string [createPcmData] hands to [btoa]. *)
Lemma createPcmData_pairs (p : endianness) (data : list number) :
  createPcmData p data = btoa (pairs p (map (fun x => ToInt16 (sample_value x)) data)).
Proof.
  unfold createPcmData. rewrite sample_loop_map. f_equal.
  exact (binary_loop_pairs p (map (fun x => ToInt16 (sample_value x)) data) [] EmptyString).
Qed.

Lemma pairs_length (p : endianness) (vs : list Z) :
  String.length (pairs p vs) = (2 * length vs)%nat.
Proof.
  induction vs as [| v vs IH]; [done |].
  cbn [pairs length]. rewrite string_length_app, IH.
  unfold pair, fromCharCode. destruct p; cbn; lia.
Qed.

Lemma word_back (v : Z) :
  -32768 <= v <= 32767 ->
  let w := v mod 65536 in
  signed (Z.land w 255 mod 65536 + 256 * (Z.shiftr w 8 mod 65536)) = v.
Proof.
  intros Hv w. subst w.
  change 255 with (Z.ones 8). rewrite Z.land_ones, Z.shiftr_div_pow2 by lia.
  change (2 ^ 8) with 256.
  pose proof (Z.mod_pos_bound v 65536 eq_refl) as Hw.
  pose proof (Z.mod_pos_bound (v mod 65536) 256 eq_refl) as Hlo.
  assert (Hhi : 0 <= v mod 65536 / 256 < 256)
    by (split; [apply Z.div_pos; lia | apply Z.div_lt_upper_bound; lia]).
  rewrite (Z.mod_small (_ mod 256) 65536), (Z.mod_small (_ / 256) 65536) by lia.
  pose proof (Z.div_mod (v mod 65536) 256 ltac:(lia)) as Hsplit.
  replace (v mod 65536 mod 256 + 256 * (v mod 65536 / 256)) with (v mod 65536) by lia.
  unfold signed. pose proof (Z.div_mod v 65536 ltac:(lia)) as Hdiv.
  destruct (Z.geb_spec (v mod 65536) 32768); lia.
Qed.

(** Reading the bytes back gives the stored integers. *)
Lemma words_pairs (p : endianness) (vs : list Z) :
  Forall (fun v => -32768 <= v <= 32767) vs -> words p (pairs p vs) = vs.
Proof.
  induction 1 as [| v vs Hv Hvs IH]; [done |].
  cbn [pairs]. unfold pair, fromCharCode.
  pose proof (Z.mod_pos_bound v 65536 eq_refl) as Hw.
  assert (Hlo : 0 <= Z.land (v mod 65536) 255 mod 65536 < 256).
  { change 255 with (Z.ones 8). rewrite Z.land_ones by lia. change (2 ^ 8) with 256.
    pose proof (Z.mod_pos_bound (v mod 65536) 256 eq_refl). rewrite Z.mod_small; lia. }
  assert (Hhi : 0 <= Z.shiftr (v mod 65536) 8 mod 65536 < 256).
  { rewrite Z.shiftr_div_pow2 by lia. change (2 ^ 8) with 256.
    assert (0 <= v mod 65536 / 256 < 256)
      by (split; [apply Z.div_pos; lia | apply Z.div_lt_upper_bound; lia]).
    rewrite Z.mod_small; lia. }
  destruct p; cbn [append words]; unfold code;
    rewrite !N_ascii_embedding, !Z2N.id by lia;
    rewrite IH; f_equal; apply (word_back v Hv).
Qed.

Lemma stored_in_range (data : list number) :
  Forall (fun v => -32768 <= v <= 32767) (map (fun x => ToInt16 (sample_value x)) data).
Proof. apply Forall_map, Forall_forall. intros x _. apply ToInt16_range. Qed.

(** X14. The encoding loses nothing beyond the rounding to 16 bits: undoing
    the base64 step and reading the bytes as 16-bit integers in the byte
    order of the platform gives back the integer stored for each sample, in
    order. So two windows are encoded to the same text only if they are
    rounded to the same integers. *)
Theorem encoded_window_reads_back (p : endianness) (data : list number) :
  words p (atob (createPcmData p data)) = map (fun x => ToInt16 (sample_value x)) data /\
  (forall data',
     createPcmData p data = createPcmData p data' ->
     map (fun x => ToInt16 (sample_value x)) data =
     map (fun x => ToInt16 (sample_value x)) data').
Proof.
  assert (Hback : forall d, words p (atob (createPcmData p d)) =
                            map (fun x => ToInt16 (sample_value x)) d).
  { intros d. rewrite createPcmData_pairs, atob_btoa. apply words_pairs, stored_in_range. }
  split; [apply Hback |].
  intros data' Heq. rewrite <- (Hback data), <- (Hback data'). by rewrite Heq.
Qed.

(** X15. The text [createPcmData] returns for [n] samples has
    [4 * ceil (2 n / 3)] characters, on either platform: two bytes a sample,
    four characters for every three bytes, the last group padded. *)
Theorem encoded_window_length (p : endianness) (data : list number) :
  String.length (createPcmData p data) = (4 * ((2 * length data + 2) / 3))%nat.
Proof.
  rewrite createPcmData_pairs, btoa_length, pairs_length. by rewrite length_map.
Qed.

End WireFacts.

(** ** The LiveCaster component: the log and the subtitle line *)

Module CasterFacts.
Import Caster.

Lemma take_app_take {A} (n : nat) (l k : list A) :
  take n (l ++ take n k) = take n (l ++ k).
Proof. rewrite !take_app, take_take. do 2 f_equal. lia. Qed.

Lemma addLog_run (msgs : list string) (msg : string) (prev : list string) :
  fold_left (fun logs m => addLog m logs) (msg :: msgs) prev =
  take 50 (rev (msg :: msgs) ++ prev).
Proof.
  revert msg prev. induction msgs as [| m msgs IH]; intros msg prev; [done |].
  change (fold_left (fun logs m => addLog m logs) (msg :: m :: msgs) prev)
    with (fold_left (fun logs m => addLog m logs) (m :: msgs) (addLog msg prev)).
  rewrite IH. unfold addLog. rewrite take_app_take.
  change (rev (msg :: m :: msgs)) with (rev (m :: msgs) ++ [msg]).
  by rewrite <- app_assoc.
Qed.

(** X16. The debug log of LiveCaster keeps the 50 newest lines, newest
    first: after any sequence of [addLog] calls it holds the messages in
    reverse order of arrival, followed by what it held before, cut to 50
    entries; it never holds more than 50 after a call. *)
Theorem log_keeps_the_newest_fifty (msgs : list string) (msg : string)
    (prev : list string) :
  fold_left (fun logs m => addLog m logs) msgs [] = take 50 (rev msgs) /\
  fold_left (fun logs m => addLog m logs) (msg :: msgs) prev =
    take 50 (rev (msg :: msgs) ++ prev) /\
  (length (addLog msg prev) <= 50)%nat.
Proof.
  split; [| split].
  - destruct msgs as [| m msgs]; [done |]. by rewrite addLog_run, app_nil_r.
  - apply addLog_run.
  - unfold addLog. rewrite length_take. lia.
Qed.

Lemma slice_length (n : nat) (s : string) :
  String.length (slice n s) = (String.length s - n)%nat.
Proof.
  revert s. induction n as [| n IH]; intros s; [cbn; lia |].
  destruct s as [| ch s]; [done |]. cbn. apply IH.
Qed.

Lemma slice_app_l (n : nat) (a b : string) :
  (n <= String.length a)%nat -> slice n (a ++ b) = (slice n a ++ b)%string.
Proof.
  revert a. induction n as [| n IH]; intros a Hn; [done |].
  destruct a as [| ch a]; [cbn in Hn; lia |]. cbn. apply IH. cbn in Hn. lia.
Qed.

Lemma slice_app_r (n : nat) (a b : string) :
  (String.length a <= n)%nat -> slice n (a ++ b) = slice (n - String.length a) b.
Proof.
  revert n. induction a as [| ch a IH]; intros n Hn.
  - cbn. by rewrite Nat.sub_0_r.
  - destruct n as [| n]; [cbn in Hn; lia |]. cbn. apply IH. cbn in Hn. lia.
Qed.

(** X17. The subtitle line never grows beyond 153 characters, and it always
    ends with the newest fragment: with the blank and the whole text just
    received or, when that is longer than 150 characters, with its last 150
    characters. *)
Theorem subtitle_keeps_the_newest_text (text prev : string) :
  let fragment := (" " ++ text)%string in
  (String.length (onSubtitle text prev) <= 153)%nat /\
  exists before,
    onSubtitle text prev =
    (before ++ slice (String.length fragment - 150) fragment)%string.
Proof.
  cbv zeta. unfold onSubtitle.
  set (fragment := (" " ++ text)%string).
  assert (Hlen : String.length (prev ++ fragment) =
                 (String.length prev + String.length fragment)%nat)
    by apply WireFacts.string_length_app.
  destruct (Nat.ltb_spec 150 (String.length (prev ++ fragment))) as [Hlong | Hshort].
  - split.
    + rewrite WireFacts.string_length_app, slice_length. cbn. lia.
    + destruct (Nat.le_gt_cases (String.length (prev ++ fragment) - 150)
                  (String.length prev)) as [Hin | Hout].
      * exists ("..." ++ slice (String.length (prev ++ fragment) - 150) prev)%string.
        rewrite slice_app_l by done.
        replace (String.length fragment - 150)%nat with 0%nat by lia.
        cbn [slice]. by rewrite PcmFacts.string_app_assoc.
      * exists "..."%string. rewrite slice_app_r by lia.
        do 2 f_equal. lia.
  - split; [lia |]. exists prev.
    replace (String.length fragment - 150)%nat with 0%nat by lia. reflexivity.
Qed.

End CasterFacts.

(** ** The three screens of App *)

Module AppFacts.
Import App.

Lemma step_invariant (a : State) (act : Action) :
  render a <> Blank /\ (screen a <> RESULTS -> sessionEvents a = []) /\
  (screen a = HOME -> config a = None) ->
  render (step a act) <> Blank /\
  (screen (step a act) <> RESULTS -> sessionEvents (step a act) = []) /\
  (screen (step a act) = HOME -> config (step a act) = None).
Proof.
  intros (Hblank & Hevents & Hconfig).
  destruct a as [[] [cfg |] events], act; cbn in *; try done.
  all: repeat split; try done; intros; try done; by apply Hevents.
Qed.

(** X18. Whatever the user does, [App] never renders a blank page: the live
    screen is only entered with a configuration. And the events of a match
    never leak into the next one: outside the results screen the list of
    session events is empty, and on the home screen no configuration is
    kept. *)
Theorem app_never_blank (acts : list Action) :
  let a := run initial acts in
  render a <> Blank /\
  (screen a <> RESULTS -> sessionEvents a = []) /\
  (screen a = HOME -> config a = None).
Proof.
  cbv zeta. unfold run.
  assert (H : forall a,
            render a <> Blank /\ (screen a <> RESULTS -> sessionEvents a = []) /\
            (screen a = HOME -> config a = None) ->
            render (fold_left step acts a) <> Blank /\
            (screen (fold_left step acts a) <> RESULTS ->
             sessionEvents (fold_left step acts a) = []) /\
            (screen (fold_left step acts a) = HOME -> config (fold_left step acts a) = None)).
  { induction acts as [| act acts IH]; intros a Ha; [done |].
    cbn. by apply IH, step_invariant. }
  apply H. by cbn.
Qed.

End AppFacts.

(** ** The post-game report *)

Module TextServiceFacts.
Import App TextService.

Section Facts.

Variable floor_text : Num.number -> string.

Lemma summary_starts (e : GameEvent) (events : list GameEvent) :
  exists rest, eventsSummary floor_text (e :: events) = ("Time: " ++ rest)%string.
Proof.
  unfold eventsSummary. cbn [map join].
  destruct (map (line floor_text) events); unfold line; cbn; eauto.
Qed.

(** X19. The report is asked for with the placeholder text exactly when
    there are no events: an empty list gives the placeholder, and a list
    with at least one event gives its own summary, which starts with the
    line of the first event and so is never empty and never the
    placeholder. *)
Theorem placeholder_only_without_events (events : list GameEvent) :
  effectiveSummary floor_text events = placeholder <-> events = [].
Proof.
  split.
  - destruct events as [| e events]; [done |].
    unfold effectiveSummary.
    destruct (summary_starts e events) as [rest ->]. cbn. discriminate.
  - intros ->. reflexivity.
Qed.

End Facts.

End TextServiceFacts.

(** ** The frame timer and the frame counter of LiveCaster *)

Module TimerFacts.
Import Sampler.

Lemma step_one_timer (c : LiveCaster) (e : Event) :
  (if isConnected c
   then exists t, frameIntervalRef c = Some t /\ intervals c = [t]
   else intervals c = []) ->
  if isConnected (step c e)
  then exists t, frameIntervalRef (step c e) = Some t /\ intervals (step c e) = [t]
  else intervals (step c e) = [].
Proof.
  intros Hc. destruct e as [b | t drawFails | id blob fault].
  - cbn [step]. destruct (Bool.eqb b (isConnected c)) eqn:Hb; [done |].
    assert (Hclean : intervals (cleanup c) = []).
    { unfold cleanup. destruct (isConnected c).
      - destruct Hc as (t & -> & ->). cbn [intervals set_interval].
        by rewrite filter_cons_False by (by intros ?).
      - destruct (frameIntervalRef c); cbn; by rewrite ?Hc. }
    unfold effect. cbn. destruct b; cbn; [| done].
    rewrite Hclean. eauto.
  - cbn [step]. destruct (bool_decide (t ∈ intervals c)); [| done].
    unfold sendFrame, getFrame.
    destruct (videoRef c) as [video |]; [| done].
    destruct (liveServiceRef c); [| done].
    destruct (readyState video <? 2)%nat; [done |].
    destruct (canvasContext c); [| done].
    destruct drawFails; exact Hc.
  - cbn [step]. unfold sendFrame_settled.
    destruct (bool_decide (id ∈ inFlight c)); [| done].
    destruct (Live.truthy blob); [| exact Hc].
    cbn. destruct (liveServiceRef c); exact Hc.
Qed.

(** X20. The frame streaming effect never lets timers pile up: however the
    connection state changes and whatever ticks and captures come in, at most
    one [setInterval] timer is live, it is the one [frameIntervalRef] holds,
    and none is live while the component is not connected. *)
Theorem at_most_one_frame_timer (w : Live.World) (es : list Event) :
  let c := run (mounted w) es in
  (length (intervals c) <= 1)%nat /\
  (isConnected c = false -> intervals c = []) /\
  (isConnected c = true -> exists t, frameIntervalRef c = Some t /\ intervals c = [t]).
Proof.
  cbv zeta.
  assert (H : forall c,
            (if isConnected c
             then exists t, frameIntervalRef c = Some t /\ intervals c = [t]
             else intervals c = []) ->
            if isConnected (run c es)
            then exists t, frameIntervalRef (run c es) = Some t /\ intervals (run c es) = [t]
            else intervals (run c es) = []).
  { induction es as [| e es IH]; intros c Hc; [done |].
    apply (IH (step c e)), step_one_timer, Hc. }
  specialize (H (mounted w) eq_refl).
  destruct (isConnected (run (mounted w) es)).
  - destruct H as (t & Ht & Hi). rewrite Hi. repeat split; [cbn; lia | done | eauto].
  - rewrite H. repeat split; [cbn; lia | done].
Qed.

(** X21. The FRAMES SENT counter counts the captures that yielded a frame,
    not the frames put on the channel: when a capture comes back with a
    frame, the counter goes up by one even if the service drops the frame
    because its channel is not open or it has no session, or the transport
    raises. In those cases nothing has been sent. *)
Theorem frames_counter_counts_dropped_frames (c : LiveCaster) (id : nat)
    (blob : option string) (fault : option Live.Error) (w : Live.World) :
  id ∈ inFlight c ->
  Live.truthy blob = true ->
  liveServiceRef c = Some w ->
  Live.isConnected (Live.this w) = false \/ Live.session (Live.this w) = None \/
    is_Some fault ->
  let c' := step c (ev_blob id blob fault) in
  framesSent c' = S (framesSent c) /\
  exists w', liveServiceRef c' = Some w' /\ Observed.sent w' = Observed.sent w.
Proof.
  intros Hid Hblob Hw Hdrop. cbv zeta. cbn [step]. unfold sendFrame_settled.
  rewrite bool_decide_eq_true_2 by done. rewrite Hblob. cbn. rewrite Hw. cbn.
  split; [done |]. eexists. split; [reflexivity |].
  unfold Live.sendVideoFrame.
  destruct w as [svc br tr ts].
  destruct svc as [ses ? ? ? ? cb connected ? ? ? ? ? ?]. cbn in Hdrop.
  destruct Hdrop as [-> | [-> | [e ->]]]; cbn.
  - reflexivity.
  - by destruct connected.
  - destruct connected, ses; try reflexivity.
    unfold Observed.sent. cbn. destruct (Live.onLog cb); cbn;
      rewrite !omap_app; cbn; by rewrite !app_nil_r.
Qed.

Lemma step_counts (c : LiveCaster) (e : Event) :
  (framesSent c + length (inFlight c) <= capturesMade c)%nat ->
  (framesSent (step c e) + length (inFlight (step c e)) <= capturesMade (step c e))%nat.
Proof.
  intros Hc. destruct e as [b | t drawFails | id blob fault].
  - cbn [step]. destruct (Bool.eqb b (isConnected c)); [done |].
    unfold effect, cleanup. cbn.
    destruct (frameIntervalRef c), b; exact Hc.
  - cbn [step]. destruct (bool_decide (t ∈ intervals c)); [| done].
    unfold sendFrame, getFrame.
    destruct (videoRef c) as [video |]; [| done].
    destruct (liveServiceRef c); [| done].
    destruct (readyState video <? 2)%nat; [done |].
    destruct (canvasContext c); [| done].
    destruct drawFails; cbn; [exact Hc |]. rewrite length_app. cbn. lia.
  - cbn [step]. unfold sendFrame_settled.
    destruct (decide (id ∈ inFlight c)) as [Hid | Hid];
      [rewrite bool_decide_eq_true_2 by done | by rewrite bool_decide_eq_false_2].
    assert (Hless : (length (filter (fun x => x <> id) (inFlight c)) < length (inFlight c))%nat)
      by (apply (length_filter_lt _ _ id); [done | by intros ?]).
    destruct (Live.truthy blob); cbn; [| lia].
    destruct (liveServiceRef c); cbn; lia.
Qed.

(** X22. The FRAMES SENT counter never runs ahead of the captures: at any
    point, the frames counted plus the captures still in flight are at most
    the captures started, so each capture is counted at most once, and only
    once it has come back. *)
Theorem frames_counted_once (w : Live.World) (es : list Event) :
  let c := run (mounted w) es in
  (framesSent c + length (inFlight c) <= capturesMade c)%nat.
Proof.
  cbv zeta.
  assert (H : forall c,
            (framesSent c + length (inFlight c) <= capturesMade c)%nat ->
            (framesSent (run c es) + length (inFlight (run c es)) <=
             capturesMade (run c es))%nat).
  { induction es as [| e es IH]; intros c Hc; [done |].
    apply (IH (step c e)), step_counts, Hc. }
  apply H. cbn. lia.
Qed.

Lemma frames_counter_counts_dropped_frames_witness :
  let c := run Sample.casting [ev_tick 1 false] in
  let c' := step c (ev_blob 0 (Some "frame"%string) None) in
  framesSent c' = 1%nat /\
  exists w', liveServiceRef c' = Some w' /\ Observed.sent w' = Observed.sent Sample.connecting.
Proof.
  apply (frames_counter_counts_dropped_frames (run Sample.casting [ev_tick 1 false]) 0
           (Some "frame"%string) None Sample.connecting).
  - vm_compute. apply list_elem_of_here.
  - reflexivity.
  - reflexivity.
  - left. reflexivity.
Defined.

End TimerFacts.

(** ** The screen share wizard of Home *)

Module WizardFacts.
Import App Wizard.

Lemma silent_stop_here (sts : list (list bool)) (s : nat) :
  (s < length sts)%nat -> silent (alter (map (fun _ => false)) s sts) s.
Proof.
  intros Hs. destruct (lookup_lt_is_Some_2 sts s Hs) as [ts Hts].
  exists (map (fun _ => false) ts). rewrite list_lookup_alter_eq, Hts.
  split; [done |]. by apply Forall_map, Forall_forall.
Qed.

Lemma silent_stop (sts : list (list bool)) (n s : nat) :
  silent sts s -> silent (alter (map (fun _ => false)) n sts) s.
Proof.
  intros (ts & Hts & Hall). destruct (decide (s = n)) as [-> | Hne].
  - apply silent_stop_here. by eapply lookup_lt_Some.
  - exists ts. by rewrite list_lookup_alter_ne.
Qed.

Lemma silent_end (sts : list (list bool)) (n s : nat) :
  silent sts s ->
  silent (alter (fun ts => match ts with _ :: rest => false :: rest | [] => [] end) n sts) s.
Proof.
  intros (ts & Hts & Hall). destruct (decide (s = n)) as [-> | Hne].
  - eexists. rewrite list_lookup_alter_eq, Hts. split; [done |].
    destruct Hall; constructor; done.
  - exists ts. by rewrite list_lookup_alter_ne.
Qed.

Lemma silent_app (sts extra : list (list bool)) (s : nat) :
  silent sts s -> silent (sts ++ extra) s.
Proof. intros (ts & Hts & Hall). exists ts. split; [by apply lookup_app_l_Some | done]. Qed.

Lemma silent_stopIfAny (h : Home) (stream : option nat) (s : nat) :
  silent (streams h) s -> silent (streams (stopIfAny stream h)) s.
Proof. destruct stream; [apply silent_stop | done]. Qed.

Lemma elem_of_delete {A} (x : A) (i : nat) (l : list A) : x ∈ delete i l -> x ∈ l.
Proof.
  revert i. induction l as [| y l IH]; intros i; [by destruct i |].
  destruct i as [| i]; cbn.
  - intros H. by right.
  - intros H. apply elem_of_cons in H as [-> | H]; [by left | right; eauto].
Qed.

Lemma silent_cleared (sts : list (list bool)) (cur : option nat) (s : nat) :
  (forall c, cur = Some c -> (c < length sts)%nat) ->
  (forall s, (s < length sts)%nat -> cur <> Some s -> silent sts s) ->
  (s < length sts)%nat ->
  silent (streams (stopIfAny cur
            {| style := PRO; hypeLevel := 0; subtitles := false; screenStream := None;
               screenStep := IDLE; streamKeepAliveRef := false; mounted := true;
               streams := sts; requests := []; started := []; console := [] |})) s.
Proof.
  intros Hc Ho Hs. destruct cur as [c |]; cbn.
  - destruct (decide (s = c)) as [-> | Hne].
    + by apply silent_stop_here.
    + apply silent_stop, Ho; [done | congruence].
  - by apply Ho.
Qed.

(** One step on a tidy component that stays on the page. *)
Lemma step_tidy (h : Home) (e : Event) :
  mounted h = true -> tidy h -> mounted (step h e) = true -> tidy (step h e).
Proof.
  intros Hm [Hk Hc Hr Ho].
  destruct h as [st hl sb cur stp keep mnt sts reqs strt cons].
  cbn in Hm, Hk, Hc, Hr, Ho. subst mnt keep.
  unfold stopped in Ho. cbn in Ho.
  assert (Hsame : forall h' : Home,
            screenStream h' = cur -> rerender cur h' = h').
  { intros h' Heq. unfold rerender. by rewrite bool_decide_eq_true_2. }
  destruct e; unfold step; cbn [handle mounted screenStream requests streams].
  - (* style *) rewrite Hsame by done. intros _. by constructor.
  - (* hype level *) rewrite Hsame by done. intros _. by constructor.
  - (* subtitles *) rewrite Hsame by done. intros _. by constructor.
  - (* open the guide *) rewrite Hsame by done. intros _. by constructor.
  - (* view the preview *) rewrite Hsame by done. intros _. by constructor.
  - (* select *) rewrite Hsame by done. intros _. constructor; cbn; try done.
    intros s Hs. apply elem_of_app in Hs as [Hs | Hs]; [auto |].
    apply list_elem_of_singleton in Hs. auto.
  - (* the picker returns a stream *)
    destruct (reqs !! i) as [captured |] eqn:Hi; cbv beta iota;
      [| rewrite Hsame by done; intros _; by constructor].
    assert (Hcap : forall a, captured = Some a -> (a < length sts)%nat).
    { intros a ->. by apply Hr, list_elem_of_lookup_2 with i. }
    assert (Hold : forall s, (s < length sts)%nat -> cur <> Some s ->
              silent (streams (stopIfAny captured
                {| style := st; hypeLevel := hl; subtitles := sb; screenStream := cur;
                   screenStep := stp; streamKeepAliveRef := false; mounted := true;
                   streams := sts ++ [replicate (S others) true];
                   requests := delete i reqs; started := strt; console := cons |})) s).
    { intros s Hs Hne. apply silent_stopIfAny. cbn. by apply silent_app, Ho. }
    unfold startScreenShare_resolved, rerender.
    destruct captured as [a |]; cbn in Hold |- *.
    all: rewrite bool_decide_eq_false_2
      by (intros Heq; symmetry in Heq; apply Hc in Heq; lia).
    all: intros _.
    all: destruct cur as [c |]; cbn in *; constructor; cbn;
      unfold stopped; cbn;
      rewrite ?length_alter, ?length_app; cbn; try done; try lia.
    all: try (intros s Hs; apply elem_of_delete, Hr in Hs; lia).
    all: try (intros s [= <-]; lia).
    all: intros s Hs Hne;
      assert (Hs' : (s < length sts)%nat) by (assert (s <> length sts) by congruence; lia).
    + destruct (decide (s = c)) as [-> | Hsc].
      * apply silent_stop_here. rewrite length_alter, length_app. cbn. lia.
      * apply silent_stop, Hold; [done | congruence].
    + by apply Hold.
    + destruct (decide (s = c)) as [-> | Hsc].
      * apply silent_stop_here. rewrite length_app. cbn. lia.
      * apply silent_stop, Hold; [done | congruence].
    + by apply Hold.
  - (* the picker is cancelled *)
    destruct (reqs !! i) as [captured |] eqn:Hi; cbv beta iota;
      rewrite Hsame by done; intros _; constructor; cbn; try done.
    intros s Hs. by apply elem_of_delete, Hr in Hs.
  - (* close *)
    pose proof (silent_cleared sts cur) as Hclear.
    unfold closeWizard, rerender. destruct cur as [c |]; cbn in *;
      rewrite ?bool_decide_eq_true_2, ?bool_decide_eq_false_2 by done; cbn; intros _;
      constructor; cbn; unfold stopped; cbn; rewrite ?length_alter; try done.
    intros s Hs _. apply silent_stop. by apply Hclear.
  - (* retake *)
    pose proof (silent_cleared sts cur) as Hclear.
    unfold retake, rerender. destruct cur as [c |]; cbn in *;
      rewrite ?bool_decide_eq_true_2, ?bool_decide_eq_false_2 by done; cbn; intros _;
      constructor; cbn; unfold stopped; cbn; rewrite ?length_alter; try done.
    intros s Hs _. apply silent_stop. by apply Hclear.
  - (* start *)
    unfold handleStart, unmount. destruct cur as [c |]; cbn.
    + rewrite Hsame by done. done.
    + rewrite Hsame by done. intros _. by constructor.
  - (* the video track ends *)
    destruct (sts !! s) as [[| [] rest] |] eqn:Hs; try (rewrite Hsame by done; intros _; by constructor).
    unfold onended, endVideoTrack, rerender. destruct cur as [c |]; cbn in *;
      rewrite ?bool_decide_eq_true_2, ?bool_decide_eq_false_2 by done; cbn; intros _;
      constructor; cbn; unfold stopped; cbn; rewrite ?length_alter; try done.
    + intros s' Hs' _. destruct (decide (s' = c)) as [-> | Hne].
      * apply silent_stop_here. by rewrite length_alter.
      * apply silent_stop, silent_end, Ho; [done | congruence].
    + intros s' Hs' _. exfalso. destruct (Ho s) as (ts & Hts & Hall).
      * by eapply lookup_lt_Some.
      * done.
      * rewrite Hs in Hts. injection Hts as <-. by inversion Hall.
Qed.
(** A component that has left the page does not come back. *)
Lemma step_unmounted (h : Home) (e : Event) :
  mounted h = false -> mounted (step h e) = false.
Proof.
  intros Hm. destruct h as [st hl sb cur stp keep mnt sts reqs strt cons].
  cbn in Hm. subst mnt.
  assert (Hsame : forall h' : Home, screenStream h' = cur -> rerender cur h' = h').
  { intros h' Heq. unfold rerender. by rewrite bool_decide_eq_true_2. }
  destruct e; unfold step; cbn [handle mounted screenStream requests streams];
    try (by rewrite Hsame).
  - destruct (reqs !! i) as [[a |] |]; by rewrite Hsame.
  - destruct (reqs !! i); by rewrite Hsame.
  - destruct (sts !! s) as [[| [] rest] |]; by rewrite Hsame.
Qed.

Lemma initial_tidy : tidy initial.
Proof.
  constructor; cbn; try done.
  - intros s Hs. by apply elem_of_nil in Hs.
  - intros s Hs. lia.
Qed.

Lemma run_tidy (es : list Event) (h : Home) :
  (mounted h = true -> tidy h) ->
  mounted (run h es) = true -> tidy (run h es).
Proof.
  revert h. induction es as [| e es IH]; intros h Hh; [done |].
  change (run h (e :: es)) with (run (step h e) es). apply IH.
  intros Hm. destruct (mounted h) eqn:Hmh.
  - by apply step_tidy; [| apply Hh |].
  - by rewrite step_unmounted in Hm.
Qed.

(** X23. While Home is on the page at most one screen capture is live, the
    one it holds in [screenStream]: whatever the user does with the wizard
    (select, retake, close, change the screen, stop sharing from the browser,
    several pickers at once), every other stream [getDisplayMedia] handed
    out has had all its tracks stopped. *)
Theorem wizard_holds_one_capture (es : list Event) (s : nat) :
  let h := run initial es in
  mounted h = true ->
  (s < length (streams h))%nat ->
  screenStream h <> Some s ->
  stopped h s.
Proof.
  cbv zeta. intros Hm Hs Hne.
  by apply (run_tidy es initial (fun _ => initial_tidy) Hm).
Qed.

Lemma wizard_holds_one_capture_witness :
  let h := run initial [ev_openGuide; ev_select; ev_resolve 0 1; ev_openGuide; ev_select;
                        ev_resolve 0 0] in
  mounted h = true /\ (0 < length (streams h))%nat /\ screenStream h <> Some 0%nat /\
  stopped h 0.
Proof.
  cbv zeta. split; [vm_compute; reflexivity |]. split; [vm_compute; lia |].
  split; [vm_compute; discriminate |].
  apply (wizard_holds_one_capture
           [ev_openGuide; ev_select; ev_resolve 0 1; ev_openGuide; ev_select; ev_resolve 0 0]).
  - vm_compute. reflexivity.
  - vm_compute. lia.
  - vm_compute. discriminate.
Defined.

Lemma frozen_after_unmount (es : list Event) (h : Home) :
  mounted h = false ->
  requests h = [] ->
  Forall (fun e => ~ is_trackEnded e) es ->
  run h es = h.
Proof.
  intros Hm Hr. induction 1 as [| e es He Hes IH]; [done |].
  change (run h (e :: es)) with (run (step h e) es).
  assert (Hstep : step h e = h); [| by rewrite Hstep].
  destruct h as [st hl sb cur stp keep mnt sts reqs strt cons].
  cbn in Hm, Hr. subst mnt reqs.
  unfold step, rerender.
  destruct e; cbn; rewrite ?bool_decide_eq_true_2 by done; done.
Qed.

(** X24. START CASTING hands the capture over untouched: [onStart] is called
    once, with the stream Home holds as the media source of a SCREEN
    configuration carrying the chosen style, hype level and subtitle flag;
    Home leaves the page and its cleanup stops no track of that stream, while
    every other stream it obtained is stopped. If no picker is still open,
    nothing Home does afterwards changes anything. *)
Theorem handed_over_capture_is_kept (es : list Event) (s : nat) :
  let h := run initial es in
  mounted h = true ->
  screenStream h = Some s ->
  let h' := step h ev_start in
  mounted h' = false /\
  streams h' = streams h /\
  started h' =
    started h ++
    [{| App.style := style h; App.hypeLevel := hypeLevel h; inputType := SCREEN;
        mediaSource := Some (inr s); showSubtitles := subtitles h |}] /\
  (forall s', (s' < length (streams h'))%nat -> s' <> s -> stopped h' s') /\
  (requests h = [] ->
   forall es', Forall (fun e => ~ is_trackEnded e) es' -> run h' es' = h').
Proof.
  cbv zeta. intros Hm Hs.
  pose proof (run_tidy es initial (fun _ => initial_tidy) Hm) as [Hk Hc Hr Ho].
  destruct (run initial es) as [st hl sb cur stp keep mnt sts reqs strt cons].
  cbn in Hm, Hs, Hk, Hc, Hr, Ho. subst mnt keep cur.
  unfold step, rerender. cbn. rewrite bool_decide_eq_true_2 by done.
  repeat split.
  - intros s' Hs' Hne. apply Ho; [done | congruence].
  - intros ->. intros es' Hes'. by apply frozen_after_unmount.
Qed.

Lemma handed_over_capture_is_kept_witness :
  let h := run initial [ev_hype 80; ev_openGuide; ev_select; ev_resolve 0 1] in
  let h' := step h ev_start in
  mounted h' = false /\
  streams h' = streams h /\
  started h' =
    started h ++
    [{| App.style := style h; App.hypeLevel := hypeLevel h; inputType := SCREEN;
        mediaSource := Some (inr 0%nat); showSubtitles := subtitles h |}] /\
  (forall s', (s' < length (streams h'))%nat -> s' <> 0%nat -> stopped h' s') /\
  (requests h = [] ->
   forall es', Forall (fun e => ~ is_trackEnded e) es' -> run h' es' = h').
Proof.
  apply (handed_over_capture_is_kept
           [ev_hype 80; ev_openGuide; ev_select; ev_resolve 0 1] 0);
    vm_compute; reflexivity.
Defined.

End WizardFacts.
